(** * The build orchestrator of the git-receive builder

    A shallow embedding of [pkg/gitreceive/build.go] (functions [build],
    [buildBuilderPodNodeSelector], [getProcFile]) and of
    [pkg/controller/utils.go] ([New], [CheckAPICompat]), followed by the
    properties of the orchestrator that the specification states, and by
    further properties of its calls, its failures and its clean-up.

    Go strings are byte strings ([string]); Go maps with string keys are
    [gmap string _]; the external collaborators (object storage, the
    Kubernetes API, the controller, the local file system, child processes)
    are a record of outcomes, [Env], and a mutable [World] that is threaded
    through a small monad with early return, panics and deferred calls. *)

From Stdlib Require Import ZArith Ascii DecimalString.
From Stdlib Require String.
From stdpp Require Import base option list gmap strings.

Local Open Scope Z_scope.

(** ** Go's [strings] package, on byte strings *)

Module strings.

(** [strings.HasPrefix]. *)
Fixpoint HasPrefix (s prefix : string) : bool :=
  match prefix, s with
  | EmptyString, _ => true
  | String p prefix', String c s' =>
      if decide (p = c) then HasPrefix s' prefix' else false
  | String _ _, EmptyString => false
  end.

(** [strings.Contains]: [substr] occurs somewhere in [s]. *)
Fixpoint Contains (s substr : string) : bool :=
  HasPrefix s substr ||
  match s with
  | EmptyString => false
  | String _ s' => Contains s' substr
  end.

(** The scan of [strings.Split]: the head of the result is the piece being
    read; [skip] counts the bytes of a separator that was just matched and
    is still to be stepped over, so that matches are leftmost and do not
    overlap, as with [strings.Index]. *)
Fixpoint split_from (sep : string) (skip : nat) (s : string) : list string :=
  match s with
  | EmptyString => [EmptyString]
  | String c s' =>
      match skip with
      | S k => split_from sep k s'
      | O =>
          if HasPrefix s sep
          then EmptyString :: split_from sep (String.length sep - 1) s'
          else match split_from sep 0 s' with
               | p :: ps => String c p :: ps
               | [] => [String c EmptyString]
               end
      end
  end.

(** [strings.Split(s, sep)] for a separator that is not empty (the source
    only splits on [","] and [":"]); with an empty separator Go explodes
    [s] into its UTF-8 sequences, which is given here byte by byte. *)
Definition Split (s sep : string) : list string :=
  match sep with
  | EmptyString => (fun c => String c EmptyString) <$> String.list_ascii_of_string s
  | _ => split_from sep 0 s
  end.

(** [strings.Join]. *)
Fixpoint Join (elems : list string) (sep : string) : string :=
  match elems with
  | [] => EmptyString
  | [x] => x
  | x :: rest => x +:+ sep +:+ Join rest sep
  end.

(** The UTF-8 encodings of the code points for which [unicode.IsSpace]
    holds: U+0009..U+000D, U+0020, U+0085, U+00A0, U+1680,
    U+2000..U+200A, U+2028, U+2029, U+202F, U+205F, U+3000. *)
Definition b (n : nat) : ascii := ascii_of_nat n.

Definition space_runes : list (list ascii) :=
  [ [b 9]; [b 10]; [b 11]; [b 12]; [b 13]; [b 32];
    [b 194; b 133]; [b 194; b 160];
    [b 225; b 154; b 128];
    [b 226; b 128; b 128]; [b 226; b 128; b 129]; [b 226; b 128; b 130];
    [b 226; b 128; b 131]; [b 226; b 128; b 132]; [b 226; b 128; b 133];
    [b 226; b 128; b 134]; [b 226; b 128; b 135]; [b 226; b 128; b 136];
    [b 226; b 128; b 137]; [b 226; b 128; b 138];
    [b 226; b 128; b 168]; [b 226; b 128; b 169]; [b 226; b 128; b 175];
    [b 226; b 129; b 159];
    [b 227; b 128; b 128] ].

(** [strip_prefix r l] is the rest of [l] after the prefix [r], if any. *)
Fixpoint strip_prefix (r l : list ascii) : option (list ascii) :=
  match r, l with
  | [], _ => Some l
  | x :: r', y :: l' => if decide (x = y) then strip_prefix r' l' else None
  | _ :: _, [] => None
  end.

(** One white-space code point removed from the front of [l], if [l]
    starts with one (the encodings are prefix free, so at most one of
    them matches). *)
Definition strip_space (runes : list (list ascii)) (l : list ascii)
  : option (list ascii) :=
  list_find is_Some ((fun r => strip_prefix r l) <$> runes) ≫= fun p => p.2.

(** Leading white space removed; [fuel] bounds the number of code points
    removed and is the length of the input where it is used. *)
Fixpoint trim_left (runes : list (list ascii)) (fuel : nat) (l : list ascii)
  : list ascii :=
  match fuel with
  | O => l
  | S fuel' =>
      match strip_space runes l with
      | Some l' => trim_left runes fuel' l'
      | None => l
      end
  end.

Definition TrimLeftSpace (l : list ascii) : list ascii :=
  trim_left space_runes (length l) l.

(** Trailing white space is leading white space of the reversed bytes,
    against the reversed encodings. *)
Definition TrimRightSpace (l : list ascii) : list ascii :=
  reverse (trim_left (reverse <$> space_runes) (length l) (reverse l)).

(** [strings.TrimSpace]. *)
Definition TrimSpace (s : string) : string :=
  String.string_of_list_ascii
    (TrimRightSpace (TrimLeftSpace (String.list_ascii_of_string s))).

End strings.

(** ** Errors *)

(** Go [error] values. [ErrAPIMismatch] is the sentinel
    [drycc.ErrAPIMismatch], compared by identity in [CheckAPICompat];
    [PathNotFoundError] is the storage driver's error for a key that is not
    there, with the name of the driver; every other error, among them the
    ones made by [fmt.Errorf], is its message. *)
Inductive error : Type :=
  | ErrAPIMismatch
  | PathNotFoundError (driverName path : string)
  | ErrorString (msg : string).

#[global] Instance error_eq_dec : EqDecision error.
Proof. solve_decision. Defined.

(** [err.Error()], as [%s] prints an error. *)
Definition Error (e : error) : string :=
  match e with
  | ErrAPIMismatch => "API Version Mismatch between server and client"
  | PathNotFoundError driverName path => driverName +:+ ": Path not found: " +:+ path
  | ErrorString msg => msg
  end.

(** The double quote. *)
Definition quote : string := String (ascii_of_nat 34) EmptyString.

(** [fmt.Errorf] applied to an already formatted message. *)
Definition Errorf (msg : string) : error := ErrorString msg.

(** [%d] of an integer. *)
Definition itoa (n : Z) : string := NilZero.string_of_int (Z.to_int n).

(** A Go result pair [(value, error)] of which only one side is used. *)
Inductive result (A : Type) : Type :=
  | Ok (a : A)
  | Err (e : error).
Arguments Ok {A} a.
Arguments Err {A} e.

(** ** [buildBuilderPodNodeSelector] *)

(** The body of the loop over the comma-separated pieces: a piece that does
    not split on [":"] into exactly two parts returns the format error that
    quotes the whole [config]; otherwise the trimmed key is bound to the
    trimmed value in [selector]. *)
Fixpoint selector_loop (config : string) (lines : list string)
  (selector : gmap string string) : result (gmap string string) :=
  match lines with
  | [] => Ok selector
  | line :: rest =>
      match strings.Split line ":" with
      | [k; v] =>
          selector_loop config rest
            (<[strings.TrimSpace k := strings.TrimSpace v]> selector)
      | _ => Err (Errorf ("Invalid BuilderPodNodeSelector value format: " +:+ config))
      end
  end.

Definition buildBuilderPodNodeSelector (config : string)
  : result (gmap string string) :=
  if decide (config ≠ "")
  then selector_loop config (strings.Split config ",") ∅
  else Ok ∅.

(** ** Data of the orchestrator *)

(** [corev1.PullPolicy]. *)
Inductive PullPolicy : Type := PullAlways | PullIfNotPresent | PullNever.

(** Modelled from the spec: [k8s.PullPolicyFromString] is not part of the
    sources at hand. The pull policy is drawn from the fixed set
    [{Always, IfNotPresent, Never}]; any other string (such as [always]) is
    a configuration error, whose message the spec leaves open. *)
Definition PullPolicyFromString (ppStr : string) : result PullPolicy :=
  if decide (ppStr = "Always") then Ok PullAlways
  else if decide (ppStr = "IfNotPresent") then Ok PullIfNotPresent
  else if decide (ppStr = "Never") then Ok PullNever
  else Err (ErrorString ("invalid image pull policy: " +:+ ppStr)).

Definition is_hex (c : ascii) : bool :=
  let n := nat_of_ascii c in
  ((48 <=? n)%nat && (n <=? 57)%nat) || ((97 <=? n)%nat && (n <=? 102)%nat).

(** [git.SHA]: the full identifier and its short form. *)
Record SHA : Type := { full : string; short : string }.

(** [gitSha.Short()]. *)
Definition Short (sha : SHA) : string := short sha.

(** Modelled from the spec: [git.NewSha] is not part of the sources at hand.
    The identifier is 40 hexadecimal digits, anything else is a
    configuration error; the short form is its first 8 digits. *)
Definition NewSha (rawSha : string) : result SHA :=
  if bool_decide (String.length rawSha = 40%nat)
     && forallb is_hex (String.list_ascii_of_string rawSha)
  then Ok {| full := rawSha; short := String.substring 0 8 rawSha |}
  else Err (ErrorString ("git sha " +:+ rawSha +:+ " was invalid")).

(** [time.Duration], in nanoseconds. *)
Definition Duration : Type := Z.

(** The fields of [Config] that [build] reads. [App] is the value of the
    method [conf.App()], [SessionIdleInterval], [BuilderPodTickDuration] and
    [BuilderPodWaitDuration] the values of the methods of these names. *)
Record Config : Type := {
  DockerBuilderImagePullPolicy : string;
  SlugBuilderImagePullPolicy : string;
  Repository : string;
  GitHome : string;
  App : string;
  ControllerHost : string;
  ControllerPort : string;
  Username : string;
  RegistryLocation : string;
  PodNamespace : string;
  BuilderPodNodeSelector : string;
  Debug : bool;
  StorageType : string;
  RegistryHost : string;
  RegistryPort : string;
  SessionIdleInterval : Duration;
  BuilderPodTickDuration : Duration;
  BuilderPodWaitDuration : Duration
}.

(** [api.Config] of the controller SDK: the application's configuration
    values, by key. *)
Record AppConfig : Type := { Values : gmap string string }.

(** [dryccAPI.ProcessType]: process name to command. *)
Abbreviation ProcessType := (gmap string string).

(** [drycc.Client], as far as [New] and [CheckAPICompat] use it. *)
Record Client : Type := {
  UserAgent : string;
  HooksToken : string;
  ControllerAPIVersion : string
}.

(** Modelled from the spec: [SlugBuilderInfo] and its constructor are not
    part of the sources at hand. The keys are [home/{app}:git-{shortSha}/tar],
    [home/{app}:git-{shortSha}/push], [{pushKey}/slug.tgz],
    [{pushKey}/Procfile] and [home/{app}/cache]. [CacheKey] is the key
    itself whether or not caching is disabled: [build] asks for it in order to
    delete the cache, and passes the empty string to the pod on its own. *)
Record SlugBuilderInfo : Type := {
  sbi_app : string;
  sbi_sha : string;
  sbi_disableCaching : bool
}.

Definition NewSlugBuilderInfo (appName shortSha : string) (disableCaching : bool)
  : SlugBuilderInfo :=
  {| sbi_app := appName; sbi_sha := shortSha; sbi_disableCaching := disableCaching |}.

Definition basePath (i : SlugBuilderInfo) : string :=
  "home/" +:+ sbi_app i +:+ ":git-" +:+ sbi_sha i.
Definition TarKey (i : SlugBuilderInfo) : string := basePath i +:+ "/tar".
Definition PushKey (i : SlugBuilderInfo) : string := basePath i +:+ "/push".
Definition CacheKey (i : SlugBuilderInfo) : string := "home/" +:+ sbi_app i +:+ "/cache".
Definition DisableCaching (i : SlugBuilderInfo) : bool := sbi_disableCaching i.
Definition AbsoluteSlugObjectKey (i : SlugBuilderInfo) : string := PushKey i +:+ "/slug.tgz".
Definition AbsoluteProcfileKey (i : SlugBuilderInfo) : string := PushKey i +:+ "/Procfile".

(** Modelled from the spec: the pod naming functions are not part of the
    sources at hand. A build pod is named [{kind}-{app}-{shortSha}] with
    [kind] one of [slug] and [docker]. *)
Definition dockerBuilderPodName (appName shortSha : string) : string :=
  "docker-" +:+ appName +:+ "-" +:+ shortSha.
Definition slugBuilderPodName (appName shortSha : string) : string :=
  "slug-" +:+ appName +:+ "-" +:+ shortSha.

(** A pod specification. The two constructors of the pod builder are not
    part of the sources at hand and do no I/O: a pod is the constructor that
    made it, applied to its arguments in the order [build] passes them. *)
Inductive Pod : Type :=
  | dockerBuilderPod
      (debug : bool) (name namespace : string) (env : gmap string string)
      (tarKey gitShortHash imageTag storageType image : string)
      (registryHost registryPort : string) (registryEnv : gmap string string)
      (pullPolicy : PullPolicy) (nodeSelector : gmap string string)
  | slugbuilderPod
      (debug : bool) (name namespace : string) (env : gmap string string)
      (envSecretName tarKey putKey cacheKey gitShortHash storageType image : string)
      (pullPolicy : PullPolicy) (nodeSelector : gmap string string).

Definition pod_Name (p : Pod) : string :=
  match p with
  | dockerBuilderPod _ name _ _ _ _ _ _ _ _ _ _ _ _ => name
  | slugbuilderPod _ name _ _ _ _ _ _ _ _ _ _ _ => name
  end.

Definition pod_Namespace (p : Pod) : string :=
  match p with
  | dockerBuilderPod _ _ ns _ _ _ _ _ _ _ _ _ _ _ => ns
  | slugbuilderPod _ _ ns _ _ _ _ _ _ _ _ _ _ => ns
  end.

(** [corev1.ContainerStatus], down to the exit code: the [Terminated] state
    is a pointer, [None] being [nil]; [ExitCode] is an [int32]. *)
Record ContainerStateTerminated : Type := { ExitCode : Z }.
Record ContainerState : Type := { Terminated : option ContainerStateTerminated }.
Record ContainerStatus : Type := { State : ContainerState }.

(** [exec.Cmd]: [exec.Command(first, others...)] has [Args = first :: others]. *)
Record Cmd : Type := { Args : list string; Dir : string }.

(** The arguments of one [hooks.CreateBuild] call. *)
Record Build : Type := {
  cb_user : string;
  cb_app : string;
  cb_image : string;
  cb_stack : string;
  cb_sha : string;
  cb_procType : ProcessType;
  cb_isContainer : bool
}.

(** ** The world outside the orchestrator *)

Inductive Level : Type := Info | Debugging.

(** What the orchestrator does to the outside, in the order it does it.
    [SetPathRegexp] is the assignment to the package variable
    [storagedriver.PathRegexp] (line 63), which every later user of the
    storage driver in the process sees; [GetRegistryDetails] is the call of
    [getRegistryDetails] (line 171), which is handed the client of the
    cluster and reads the registry secret. *)
Inductive Event : Type :=
  | Log (level : Level) (msg : string)
  | Stdout (bytes : string)
  | Exec (cmd : Cmd)
  | MkdirAll (dir : string)
  | TempDir (dir : string)
  | RemoveAll (dir : string)
  | StorStat (key : string)
  | StorDelete (key : string)
  | StorPutContent (key content : string)
  | StorGetContent (key : string)
  | HookGetAppConfig (user app : string)
  | HookCreateBuild (b : Build)
  | KubeCreateSecret (namespace name : string)
  | KubeDeleteSecret (namespace name : string)
  | KubeCreatePod (namespace : string) (pod : Pod)
  | KubeGetPod (namespace name : string)
  | KubeStreamLog (namespace name : string)
  | CloseStream
  | WatcherRun (namespace : string)
  | WatcherStop
  | WaitForPod (namespace name : string)
  | WaitForPodEnd (namespace name : string)
  | ProgressStart
  | ProgressQuit
  | SetPathRegexp (pattern : string)
  | GetRegistryDetails (image registryLocation namespace : string).

#[global] Instance PullPolicy_eq_dec : EqDecision PullPolicy.
Proof. solve_decision. Defined.
#[global] Instance Pod_eq_dec : EqDecision Pod.
Proof. solve_decision. Defined.
#[global] Instance Cmd_eq_dec : EqDecision Cmd.
Proof. solve_decision. Defined.
#[global] Instance Build_eq_dec : EqDecision Build.
Proof. solve_decision. Defined.
#[global] Instance Level_eq_dec : EqDecision Level.
Proof. solve_decision. Defined.
#[global] Instance Event_eq_dec : EqDecision Event.
Proof. solve_decision. Defined.

(** A call deferred by [build], to be run when it returns or panics. *)
Inductive Deferred : Type :=
  | DeferRemoveTmp (tmpDir : string)
  | DeferDeleteSecret (namespace envSecretName : string)
  | DeferCloseStop
  | DeferCloseStream.

#[global] Instance Deferred_eq_dec : EqDecision Deferred.
Proof. solve_decision. Defined.

(** The state that a build changes: the object store, the secrets and pods
    of the cluster (by namespace and name), the releases the controller has
    recorded, the temporary directories on the local disk, the trace of calls,
    and the stack of deferred calls of the running [build]. *)
Record World : Type := {
  objects : gmap string string;
  secrets : gmap (string * string) (gmap string string);
  pods : list (string * Pod);
  builds : list Build;
  dirs : gset string;
  trace : list Event;
  defers : list Deferred
}.

(** The operations of the storage driver, as points where it can fail. *)
Inductive StorageOp : Type :=
  | OpStat (key : string)
  | OpDelete (key : string)
  | OpPutContent (key : string)
  | OpGetContent (key : string).

(** What the collaborators answer. An [option error] is the [error] result
    of a call, [None] being [nil]. Functions of Go's library and of this
    repository that are not part of the sources at hand and whose results
    the specification does not fix are taken from here as well. *)
Record Env : Type := {
  (** [filepath.Join] of two elements *)
  filepathJoin : string -> string -> string;
  (** [Duration.String()] *)
  durationString : Duration -> string;
  (** [os.MkdirAll], [ioutil.TempDir], [os.RemoveAll] *)
  osMkdirAll : string -> option error;
  ioTempDir : string -> string -> result string;
  osRemoveAll : string -> option error;
  (** [os.Stat] and [ioutil.ReadFile] of a path *)
  osStat : string -> option error;
  ioReadFile : string -> result string;
  (** [cmd.Run()] *)
  cmdRun : Cmd -> option error;
  (** [drycc.New] and [conf.GetBuilderKey], and the API version the
      controller reports *)
  sdkNew : string -> option error;
  GetBuilderKey : result string;
  controllerVersion : string;
  sdkVersion : string;
  (** [hooks.GetAppConfig] and [hooks.CreateBuild]: response and error *)
  GetAppConfig : string -> string -> AppConfig * option error;
  CreateBuild : Build -> Z * option error;
  (** the name of the storage driver, and a fault of the object store at
      an operation *)
  driverName : string;
  storageFault : StorageOp -> option error;
  (** [getStack] *)
  getStack : string -> AppConfig -> gmap string string;
  (** [getRegistryDetails], which reads the registry credentials from a
      secret of the namespace: the registry environment and the image name
      it leaves in [*image], given the image name it finds there; the call
      itself is the event [GetRegistryDetails] *)
  getRegistryDetails : string -> string -> string -> result (gmap string string * string);
  (** faults of the Kubernetes API at the calls [build] makes *)
  createSecretFault : string -> string -> option error;
  deleteSecretFault : string -> string -> option error;
  createPodFault : Pod -> option error;
  getPod : string -> string -> result (list ContainerStatus);
  (** [prettyPrintJSON] of a pod *)
  prettyPrintJSON : Pod -> result string;
  (** [waitForPod] and [waitForPodEnd] *)
  waitForPod : string -> string -> option error;
  waitForPodEnd : string -> string -> option error;
  (** opening the followed log stream; the bytes it delivers and the error,
      if any, that ends the copy *)
  openLogStream : string -> string -> option error;
  logStream : string * option error;
  (** the objects the builder pod has put in the store when it ends *)
  podUploads : gmap string string;
  (** [yaml.Unmarshal] into a [ProcessType] *)
  yamlUnmarshal : string -> result ProcessType
}.

(** ** The monad of [build] *)

(** How a statement ends: control goes on to the next statement with a
    value, the function returns [err], or the goroutine panics. *)
Inductive Flow (A : Type) : Type :=
  | Next (a : A)
  | Return (err : option error)
  | Panic (msg : string).
Arguments Next {A} a.
Arguments Return {A} err.
Arguments Panic {A} msg.

Definition M (A : Type) : Type := World -> Flow A * World.

#[global] Instance M_ret : MRet M := fun A a w => (Next a, w).

#[global] Instance M_bind : MBind M := fun A B k m w =>
  match m w with
  | (Next a, w') => k a w'
  | (Return err, w') => (Return err, w')
  | (Panic msg, w') => (Panic msg, w')
  end.

(** [return err]. *)
Definition return_ {A} (err : option error) : M A := fun w => (Return err, w).

(** A nil pointer dereference. *)
Definition nil_dereference : string :=
  "runtime error: invalid memory address or nil pointer dereference".

Definition panic {A} (msg : string) : M A := fun w => (Panic msg, w).

Definition gets {A} (f : World -> A) : M A := fun w => (Next (f w), w).
Definition modify (f : World -> World) : M unit := fun w => (Next tt, f w).

Definition with_objects (f : gmap string string -> gmap string string) (w : World) : World :=
  {| objects := f (objects w); secrets := secrets w; pods := pods w;
     builds := builds w; dirs := dirs w; trace := trace w; defers := defers w |}.
Definition with_secrets
  (f : gmap (string * string) (gmap string string) -> gmap (string * string) (gmap string string))
  (w : World) : World :=
  {| objects := objects w; secrets := f (secrets w); pods := pods w;
     builds := builds w; dirs := dirs w; trace := trace w; defers := defers w |}.
Definition with_pods (f : list (string * Pod) -> list (string * Pod)) (w : World) : World :=
  {| objects := objects w; secrets := secrets w; pods := f (pods w);
     builds := builds w; dirs := dirs w; trace := trace w; defers := defers w |}.
Definition with_builds (f : list Build -> list Build) (w : World) : World :=
  {| objects := objects w; secrets := secrets w; pods := pods w;
     builds := f (builds w); dirs := dirs w; trace := trace w; defers := defers w |}.
Definition with_dirs (f : gset string -> gset string) (w : World) : World :=
  {| objects := objects w; secrets := secrets w; pods := pods w;
     builds := builds w; dirs := f (dirs w); trace := trace w; defers := defers w |}.
Definition with_trace (f : list Event -> list Event) (w : World) : World :=
  {| objects := objects w; secrets := secrets w; pods := pods w;
     builds := builds w; dirs := dirs w; trace := f (trace w); defers := defers w |}.
Definition with_defers (f : list Deferred -> list Deferred) (w : World) : World :=
  {| objects := objects w; secrets := secrets w; pods := pods w;
     builds := builds w; dirs := dirs w; trace := trace w; defers := f (defers w) |}.

(** An event is added at the end of the trace. *)
Definition emit (e : Event) : M unit := modify (with_trace (fun t => t ++ [e])).

(** [defer]: the call goes on top of the stack. *)
Definition defer (d : Deferred) : M unit := modify (with_defers (cons d)).

Definition logInfo (msg : string) : M unit := emit (Log Info msg).
Definition logDebug (msg : string) : M unit := emit (Log Debugging msg).

(** [if err != nil { return wrap(err) }]. *)
Definition check (err : option error) (wrap : error -> error) : M unit :=
  match err with
  | Some e => return_ (Some (wrap e))
  | None => mret tt
  end.

(** [v, err := ...; if err != nil { return wrap(err) }]. *)
Definition attempt {A} (r : result A) (wrap : error -> error) : M A :=
  match r with
  | Ok a => mret a
  | Err e => return_ (Some (wrap e))
  end.

(** ** The collaborators *)

(** The storage driver. A fault of the store is the error of the call;
    without one, [Stat] and [GetContent] of an absent key are
    [PathNotFoundError], [PutContent] replaces the content, and [Delete]
    removes the key (and is a no-op on an absent one). *)
Module storagedriver.

Definition Stat (env : Env) (key : string) : M (option error) :=
  emit (StorStat key);;
  o ← gets objects;
  mret (match storageFault env (OpStat key) with
        | Some e => Some e
        | None => match o !! key with
                  | Some _ => None
                  | None => Some (PathNotFoundError (driverName env) key)
                  end
        end).

Definition Delete (env : Env) (key : string) : M (option error) :=
  emit (StorDelete key);;
  match storageFault env (OpDelete key) with
  | Some e => mret (Some e)
  | None => modify (with_objects (delete key));; mret None
  end.

Definition PutContent (env : Env) (key content : string) : M (option error) :=
  emit (StorPutContent key content);;
  match storageFault env (OpPutContent key) with
  | Some e => mret (Some e)
  | None => modify (with_objects (insert key content));; mret None
  end.

Definition GetContent (env : Env) (key : string) : M (result string) :=
  emit (StorGetContent key);;
  o ← gets objects;
  mret (match storageFault env (OpGetContent key) with
        | Some e => Err e
        | None => match o !! key with
                  | Some content => Ok content
                  | None => Err (PathNotFoundError (driverName env) key)
                  end
        end).

End storagedriver.

(** The Kubernetes API, as [build] uses it. *)
Module kube.

(** Modelled from the spec: [createAppEnvConfigSecret] is not part of the
    sources at hand. It upserts a secret of the given name in the build
    namespace that contains the application's values; when the API fails,
    the secrets are as they were. *)
Definition createAppEnvConfigSecret (env : Env) (namespace name : string)
  (values : gmap string string) : M (option error) :=
  emit (KubeCreateSecret namespace name);;
  match createSecretFault env namespace name with
  | Some e => mret (Some e)
  | None => modify (with_secrets (insert (namespace, name) values));; mret None
  end.

(** [Secrets(namespace).Delete]: a failed call leaves the secret in
    place; deleting a secret that does not exist is an error of the API. *)
Definition DeleteSecret (env : Env) (namespace name : string) : M (option error) :=
  emit (KubeDeleteSecret namespace name);;
  match deleteSecretFault env namespace name with
  | Some e => mret (Some e)
  | None =>
      s ← gets secrets;
      match s !! (namespace, name) with
      | Some _ => modify (with_secrets (delete (namespace, name)));; mret None
      | None =>
          mret (Some (ErrorString ("secrets " +:+ quote +:+ name +:+ quote
                                   +:+ " not found")))
      end
  end.

(** [Pods(namespace).Create]: the pod that the API returns has the name
    and the namespace of the one that was posted. *)
Definition CreatePod (env : Env) (namespace : string) (pod : Pod) : M (result Pod) :=
  emit (KubeCreatePod namespace pod);;
  match createPodFault env pod with
  | Some e => mret (Err e)
  | None => modify (with_pods (fun l => l ++ [(namespace, pod)]));; mret (Ok pod)
  end.

(** [Pods(namespace).Get], down to the container statuses. *)
Definition GetPod (env : Env) (namespace name : string)
  : M (result (list ContainerStatus)) :=
  emit (KubeGetPod namespace name);;
  mret (getPod env namespace name).

End kube.

(** ** [pkg/controller/utils.go] *)

Module controller.

(** [New]: the SDK client for [http://host:port/], with the builder's
    user agent and hooks token. *)
Definition New (env : Env) (host port : string) : result Client :=
  match sdkNew env ("http://" +:+ host +:+ ":" +:+ port +:+ "/") with
  | Some e => Err e
  | None =>
      match GetBuilderKey env with
      | Err e => Err e
      | Ok builderKey =>
          Ok {| UserAgent := "drycc-builder";
                HooksToken := builderKey;
                ControllerAPIVersion := controllerVersion env |}
      end
  end.

(** [CheckAPICompat]: the mismatch sentinel is warned about and becomes
    [nil]; any other error, and [nil], is returned as it is. *)
Definition CheckAPICompat (env : Env) (c : Client) (err : option error)
  : M (option error) :=
  if decide (err = Some ErrAPIMismatch)
  then
    logInfo ("WARNING: SDK and Controller API versions do not match. SDK: "
             +:+ sdkVersion env +:+ " Controller: " +:+ ControllerAPIVersion c);;
    mret None
  else mret err.

End controller.

(** ** [pkg/gitreceive/build.go] *)

(** A map index [m[k]] of a [map[string]string]: the empty string for an
    absent key. *)
Definition index (m : gmap string string) (k : string) : string :=
  default "" (m !! k).

Definition newline : string := String (ascii_of_nat 10) EmptyString.

(** [repoCmd]. *)
Definition repoCmd (repoDir first : string) (others : list string) : Cmd :=
  {| Args := first :: others; Dir := repoDir |}.

(** [run]: the command is printed to the debug log and run. *)
Definition run (env : Env) (cmd : Cmd) : M (option error) :=
  let cmdStr := strings.Join (Args cmd) " " in
  logDebug (if decide (Dir cmd ≠ "")
            then "running [" +:+ cmdStr +:+ "] in directory " +:+ Dir cmd
            else "running [" +:+ cmdStr +:+ "]");;
  emit (Exec cmd);;
  mret (cmdRun env cmd).

(** [getProcFile]; [getter] is the [GetContent] of the object getter. *)
Definition getProcFile (env : Env) (getter : string -> M (result string))
  (dirName procfileKey : string) (stack : gmap string string)
  : M (result ProcessType) :=
  match osStat env (dirName +:+ "/Procfile") with
  | None =>
      match ioReadFile env (dirName +:+ "/Procfile") with
      | Err err =>
          mret (Err (Errorf ("error in reading " +:+ dirName +:+ "/Procfile ("
                             +:+ Error err +:+ ")")))
      | Ok rawProcFile =>
          match yamlUnmarshal env rawProcFile with
          | Err err =>
              mret (Err (Errorf ("procfile " +:+ dirName +:+ "/ProcFile is malformed ("
                                 +:+ Error err +:+ ")")))
          | Ok procType => mret (Ok procType)
          end
      end
  | Some _ =>
      if decide (index stack "name" = "container")
      then mret (Ok ∅)
      else
        logDebug "Procfile not present. Getting it from the buildpack";;
        got ← getter procfileKey;
        match got with
        | Err err =>
            mret (Err (Errorf ("error in reading " +:+ procfileKey +:+ " ("
                               +:+ Error err +:+ ")")))
        | Ok rawProcFile =>
            match yamlUnmarshal env rawProcFile with
            | Err err =>
                mret (Err (Errorf ("procfile " +:+ procfileKey +:+ " is malformed ("
                                   +:+ Error err +:+ ")")))
            | Ok procType => mret (Ok procType)
            end
        end
  end.

(** The variables of [build] that are set by line 110 and read later. *)
Record Locals : Type := {
  dockerBuilderImagePullPolicy : PullPolicy;
  slugBuilderImagePullPolicy : PullPolicy;
  gitSha : SHA;
  appName : string;
  repoDir : string;
  tmpDir : string;
  slugName : string;
  client : Client;
  appConf : AppConfig
}.

(** The regular expression of line 63. *)
Definition pathRegexp : string := "^([A-Za-z0-9._:-]*(/[A-Za-z0-9._:-]+)*)+$".

(** Lines 63-104: the assignment to the process-global
    [storagedriver.PathRegexp], the pull policies, the SHA, the build and
    temporary directories and the controller client. The assignment is
    kept as an event of the trace; it widens the key grammar of the
    driver, and the store of this model accepts every key. [dirs] holds
    the temporary directories only: the build directory that [os.MkdirAll]
    makes is never removed and is not tracked. The result is the variables
    set so far: the two pull policies, [gitSha], [repoDir], [tmpDir] and
    [client]. *)
Definition setup (env : Env) (conf : Config) (rawGitSha : string)
  : M (PullPolicy * PullPolicy * SHA * string * string * Client) :=
  emit (SetPathRegexp pathRegexp);;
  dockerPP ← attempt (PullPolicyFromString (DockerBuilderImagePullPolicy conf)) id;
  slugPP ← attempt (PullPolicyFromString (SlugBuilderImagePullPolicy conf)) id;
  let repo := Repository conf in
  sha ← attempt (NewSha rawGitSha) id;
  let repoDir := filepathJoin env (GitHome conf) repo in
  let buildDir := filepathJoin env repoDir "build" in
  emit (MkdirAll buildDir);;
  check (osMkdirAll env buildDir)
    (fun err => Errorf ("making the build directory " +:+ buildDir +:+ " ("
                        +:+ Error err +:+ ")"));;
  emit (TempDir buildDir);;
  tmpDir ← attempt (ioTempDir env buildDir "tmp")
    (fun err => Errorf ("unable to create tmpdir " +:+ buildDir +:+ " ("
                        +:+ Error err +:+ ")"));
  modify (with_dirs (union {[tmpDir]}));;
  defer (DeferRemoveTmp tmpDir);;
  client ← attempt (controller.New env (ControllerHost conf) (ControllerPort conf)) id;
  mret (dockerPP, slugPP, sha, repoDir, tmpDir, client).

(** The variables of [build] once the configuration [appConf] is there. *)
Definition locals (conf : Config)
  (vars : PullPolicy * PullPolicy * SHA * string * string * Client)
  (appConf : AppConfig) : Locals :=
  let '(dockerPP, slugPP, sha, repoDir, tmpDir, client) := vars in
  {| dockerBuilderImagePullPolicy := dockerPP;
     slugBuilderImagePullPolicy := slugPP;
     gitSha := sha; appName := App conf; repoDir := repoDir;
     tmpDir := tmpDir; slugName := App conf +:+ ":git-" +:+ Short sha;
     client := client; appConf := appConf |}.

(** Lines 106-110: the application's configuration is fetched; an error
    that [CheckAPICompat] does not clear is returned as it is. *)
Definition fetchAppConfig (env : Env) (conf : Config)
  (vars : PullPolicy * PullPolicy * SHA * string * string * Client) : M Locals :=
  emit (HookGetAppConfig (Username conf) (App conf));;
  let '(appConf, err) := GetAppConfig env (Username conf) (App conf) in
  compat ← controller.CheckAPICompat env (vars.2) err;
  match compat with
  | Some _ => return_ err
  | None => mret (locals conf vars appConf)
  end.

(** Lines 63-110. *)
Definition prepare (env : Env) (conf : Config) (rawGitSha : string) : M Locals :=
  vars ← setup env conf rawGitSha;
  fetchAppConfig env conf vars.

(** Lines 112-113. *)
Definition slugBuilderInfo (l : Locals) : SlugBuilderInfo :=
  let disableCaching := bool_decide (is_Some (Values (appConf l) !! "DRYCC_DISABLE_CACHE")) in
  NewSlugBuilderInfo (appName l) (Short (gitSha l)) disableCaching.

(** Lines 115-124: with caching disabled, a cache whose [Stat] gives no
    error is deleted. *)
Definition invalidateCache (env : Env) (l : Locals) : M unit :=
  let info := slugBuilderInfo l in
  if DisableCaching info
  then
    logDebug ("caching disabled for app " +:+ appName l);;
    stat ← storagedriver.Stat env (CacheKey info);
    match stat with
    | None =>
        logDebug ("deleting cache " +:+ CacheKey info +:+ " for app " +:+ appName l);;
        del ← storagedriver.Delete env (CacheKey info);
        check del id
    | Some _ => mret tt
    end
  else mret tt.

(** Lines 126-155: the tarball of the revision, unpacked into the temporary
    directory and uploaded; the stack. *)
Definition snapshot (env : Env) (l : Locals) : M (gmap string string) :=
  let info := slugBuilderInfo l in
  let appTgz := appName l +:+ ".tar.gz" in
  let gitArchiveCmd :=
    repoCmd (repoDir l) "git"
      ["archive"; "--format=tar.gz"; "--output=" +:+ appTgz; Short (gitSha l)] in
  ran ← run env gitArchiveCmd;
  check ran (fun err => Errorf ("running " +:+ strings.Join (Args gitArchiveCmd) " "
                                +:+ " (" +:+ Error err +:+ ")"));;
  let absAppTgz := repoDir l +:+ "/" +:+ appTgz in
  let tarCmd := repoCmd (repoDir l) "tar" ["-xzf"; appTgz; "-C"; tmpDir l +:+ "/"] in
  ran ← run env tarCmd;
  check ran (fun err => Errorf ("running " +:+ strings.Join (Args tarCmd) " "
                                +:+ " (" +:+ Error err +:+ ")"));;
  let stack := getStack env (tmpDir l) (appConf l) in
  appTgzdata ← attempt (ioReadFile env absAppTgz)
    (fun err => Errorf ("error while reading file " +:+ appTgz +:+ ": ("
                        +:+ Error err +:+ ")"));
  logDebug ("Uploading tar to " +:+ TarKey info);;
  put ← storagedriver.PutContent env (TarKey info) appTgzdata;
  check put (fun err => Errorf ("uploading " +:+ absAppTgz +:+ " to " +:+ TarKey info
                                +:+ " (" +:+ Error err +:+ ")"));;
  mret stack.

(** Lines 157-227: the node selector, then the pod of the docker builder
    when the stack name contains [container] and of the slug builder
    otherwise. The result is the pod, its name and the variable [image]. *)
Definition podSpec (env : Env) (conf : Config) (l : Locals)
  (stack : gmap string string) : M (Pod * string * string) :=
  let info := slugBuilderInfo l in
  let image := appName l in
  builderPodNodeSelector ← attempt (buildBuilderPodNodeSelector (BuilderPodNodeSelector conf))
    (fun err => Errorf ("error build builder pod node selector " +:+ Error err));
  if strings.Contains (index stack "name") "container"
  then
    let buildPodName := dockerBuilderPodName (appName l) (Short (gitSha l)) in
    let registryLocation := RegistryLocation conf in
    '(registryEnv, image) ←
      (if decide (registryLocation ≠ "on-cluster")
       then
         emit (GetRegistryDetails image registryLocation (PodNamespace conf));;
         '(registryEnv, image) ←
           attempt (getRegistryDetails env image registryLocation (PodNamespace conf))
             (fun err => Errorf ("error getting private registry details " +:+ Error err));
         mret (registryEnv, image +:+ ":git-" +:+ Short (gitSha l))
       else mret (∅, image));
    let registryEnv := <["DRYCC_REGISTRY_LOCATION" := registryLocation]> registryEnv in
    let pod :=
      dockerBuilderPod (Debug conf) buildPodName (PodNamespace conf)
        (Values (appConf l)) (TarKey info) (Short (gitSha l)) (slugName l)
        (StorageType conf) (index stack "image") (RegistryHost conf)
        (RegistryPort conf) registryEnv (dockerBuilderImagePullPolicy l)
        builderPodNodeSelector in
    mret (pod, buildPodName, image)
  else
    let buildPodName := slugBuilderPodName (appName l) (Short (gitSha l)) in
    let cacheKey := if negb (DisableCaching info) then CacheKey info else "" in
    let envSecretName := appName l +:+ "-build-env" in
    created ← kube.createAppEnvConfigSecret env (PodNamespace conf) envSecretName
                (Values (appConf l));
    check created
      (fun err => Errorf ("error creating/updating secret " +:+ envSecretName +:+ ": ("
                          +:+ Error err +:+ ")"));;
    defer (DeferDeleteSecret (PodNamespace conf) envSecretName);;
    let pod :=
      slugbuilderPod (Debug conf) buildPodName (PodNamespace conf)
        (Values (appConf l)) envSecretName (TarKey info) (PushKey info) cacheKey
        (Short (gitSha l)) (StorageType conf) (index stack "image")
        (slugBuilderImagePullPolicy l) builderPodNodeSelector in
    mret (pod, buildPodName, image).

(** Lines 229-264: the pod is posted, the watcher is started, the pod is
    awaited and its log is opened in follow mode. The result is the
    namespace and the name of the pod the API returned. *)
Definition launch (env : Env) (conf : Config) (stack : gmap string string)
  (pod : Pod) (buildPodName : string) : M (string * string) :=
  logInfo "Starting build... but first, coffee!";;
  logDebug ("Use image " +:+ index stack "name" +:+ ": " +:+ index stack "image");;
  logDebug ("Starting pod " +:+ buildPodName);;
  logDebug (match prettyPrintJSON env pod with
            | Ok json => "Pod spec: " +:+ json
            | Err err => "Error creating json representation of pod spec: " +:+ Error err
            end);;
  created ← kube.CreatePod env (PodNamespace conf) pod;
  newPod ← attempt created
    (fun err => Errorf ("creating builder pod (" +:+ Error err +:+ ")"));
  defer DeferCloseStop;;
  emit (WatcherRun (PodNamespace conf));;
  emit (WaitForPod (pod_Namespace newPod) (pod_Name newPod));;
  check (waitForPod env (pod_Namespace newPod) (pod_Name newPod))
    (fun err => Errorf ("watching events for builder pod startup (" +:+ Error err +:+ ")"));;
  emit (KubeStreamLog (pod_Namespace newPod) (pod_Name newPod));;
  check (openLogStream env (pod_Namespace newPod) (pod_Name newPod))
    (fun err => Errorf ("attempting to stream logs (" +:+ Error err +:+ ")"));;
  defer DeferCloseStream;;
  mret (pod_Namespace newPod, pod_Name newPod).

(** Lines 266-270: [io.Copy] of the stream to the standard output. *)
Definition copyLogs (env : Env) : M unit :=
  let '(bytes, err) := logStream env in
  emit (Stdout bytes);;
  check err (fun err => Errorf ("fetching builder logs (" +:+ Error err +:+ ")"));;
  logDebug ("size of streamed logs " +:+ itoa (Z.of_nat (String.length bytes))).

(** Lines 272-289: the end of the pod is awaited and the pod is fetched.
    By then the builder has put its objects in the store. *)
Definition awaitEnd (env : Env) (conf : Config) (namespace name : string)
  : M (list ContainerStatus) :=
  logDebug ("Waiting for the " +:+ namespace +:+ "/" +:+ name
            +:+ " pod to end. Checking every "
            +:+ durationString env (BuilderPodTickDuration conf) +:+ " for "
            +:+ durationString env (BuilderPodWaitDuration conf));;
  emit (WaitForPodEnd namespace name);;
  check (waitForPodEnd env namespace name)
    (fun err => Errorf ("error getting builder pod status (" +:+ Error err +:+ ")"));;
  modify (with_objects (union (podUploads env)));;
  logDebug "Done";;
  logDebug "Checking for builder pod exit code";;
  got ← kube.GetPod env namespace name;
  attempt got (fun err => Errorf ("error getting builder pod status (" +:+ Error err +:+ ")")).

(** The error of line 294. *)
Definition BuilderFailed (code : Z) : error :=
  Errorf ("build pod exited with code " +:+ itoa code +:+ ", stopping build").

(** Lines 291-296: the loop over the container statuses. [state] is read
    through the pointer [State.Terminated] as it is. *)
Fixpoint checkExitCodes (statuses : list ContainerStatus) : M unit :=
  match statuses with
  | [] => mret tt
  | containerStatus :: rest =>
      match Terminated (State containerStatus) with
      | None => panic nil_dereference
      | Some state =>
          if decide (ExitCode state ≠ 0)
          then return_ (Some (BuilderFailed (ExitCode state)))
          else checkExitCodes rest
      end
  end.

(** The call of line 311. *)
Definition release_request (conf : Config) (l : Locals) (stack : gmap string string)
  (image : string) (procType : ProcessType) : Build :=
  {| cb_user := Username conf;
     cb_app := App conf;
     cb_image := image;
     cb_stack := index stack "name";
     cb_sha := Short (gitSha l);
     cb_procType := procType;
     cb_isContainer := bool_decide (index stack "name" = "container") |}.

(** Lines 297-324: the Procfile, the release, [git gc]. *)
Definition publish (env : Env) (conf : Config) (l : Locals)
  (stack : gmap string string) (image : string) : M Empty_set :=
  let info := slugBuilderInfo l in
  logDebug "Done";;
  resolved ← getProcFile env (storagedriver.GetContent env) (tmpDir l)
               (AbsoluteProcfileKey info) stack;
  procType ← attempt resolved id;
  logInfo "Build complete.";;
  emit ProgressStart;;
  logInfo "Launching App...";;
  let image :=
    if decide (index stack "name" ≠ "container")
    then AbsoluteSlugObjectKey info else image in
  let request := release_request conf l stack image procType in
  emit (HookCreateBuild request);;
  modify (with_builds (fun bs => bs ++ [request]));;
  let '(release, err) := CreateBuild env request in
  emit ProgressQuit;;
  compat ← controller.CheckAPICompat env (client l) err;
  match compat with
  | Some _ =>
      return_ (Some (Errorf ("The controller returned an error when publishing the release: "
                             +:+ from_option Error "" err)))
  | None =>
      logInfo ("Done, " +:+ appName l +:+ ":v" +:+ itoa release
               +:+ " deployed to Workflow" +:+ newline);;
      logInfo ("Use 'drycc open' to view this application in your browser" +:+ newline);;
      logInfo ("To learn more, use 'drycc help' or visit https://drycc.com/" +:+ newline);;
      run env (repoCmd (repoDir l) "git" ["gc"]);;
      return_ None
  end.

(** The body of [build], lines 63-324, cut where the properties below need
    to speak of a build that has come so far: before the pod is specified
    (line 157), before the log is copied (line 266), before the exit codes
    are inspected (line 291) and before the release is published
    (line 297). *)
Definition before_podSpec (env : Env) (conf : Config) (rawGitSha : string)
  : M (Locals * gmap string string) :=
  l ← prepare env conf rawGitSha;
  invalidateCache env l;;
  stack ← snapshot env l;
  mret (l, stack).

Definition before_copyLogs (env : Env) (conf : Config) (rawGitSha : string)
  : M (Locals * gmap string string * string * string * string) :=
  '(l, stack) ← before_podSpec env conf rawGitSha;
  '(pod, buildPodName, image) ← podSpec env conf l stack;
  '(namespace, name) ← launch env conf stack pod buildPodName;
  mret (l, stack, image, namespace, name).

Definition before_checkExitCodes (env : Env) (conf : Config) (rawGitSha : string)
  : M (Locals * gmap string string * string * list ContainerStatus) :=
  '(l, stack, image, namespace, name) ← before_copyLogs env conf rawGitSha;
  copyLogs env;;
  statuses ← awaitEnd env conf namespace name;
  mret (l, stack, image, statuses).

Definition before_publish (env : Env) (conf : Config) (rawGitSha : string)
  : M (Locals * gmap string string * string) :=
  '(l, stack, image, statuses) ← before_checkExitCodes env conf rawGitSha;
  checkExitCodes statuses;;
  mret (l, stack, image).

Definition build_body (env : Env) (conf : Config) (rawGitSha : string) : M Empty_set :=
  '(l, stack, image) ← before_publish env conf rawGitSha;
  publish env conf l stack image.

(** The deferred calls of [build]: each logs its own failure and goes on. *)
Definition run_deferred (env : Env) (d : Deferred) : M unit :=
  match d with
  | DeferRemoveTmp tmpDir =>
      emit (RemoveAll tmpDir);;
      match osRemoveAll env tmpDir with
      | Some err =>
          logInfo ("unable to remove tmpdir " +:+ tmpDir +:+ " (" +:+ Error err +:+ ")")
      | None => modify (with_dirs (fun ds => ds ∖ {[tmpDir]}))
      end
  | DeferDeleteSecret namespace envSecretName =>
      deleted ← kube.DeleteSecret env namespace envSecretName;
      match deleted with
      | Some err =>
          logInfo ("unable to delete secret " +:+ envSecretName +:+ " ("
                   +:+ Error err +:+ ")")
      | None => mret tt
      end
  | DeferCloseStop => emit WatcherStop
  | DeferCloseStream => emit CloseStream
  end.

(** The deferred calls are run from the top of the stack down. *)
Fixpoint run_defers (env : Env) (ds : list Deferred) (w : World) : World :=
  match ds with
  | [] => w
  | d :: rest => run_defers env rest (run_deferred env d w).2
  end.

(** How a call of [build] ends. *)
Inductive Outcome : Type :=
  | Returned (err : option error)
  | Panicked (msg : string).

(** The world as [build] finds it: no call is deferred yet. *)
Definition start (w : World) : World := with_defers (fun _ => []) w.

Definition outcome (flow : Flow Empty_set) : Outcome :=
  match flow with
  | Next v => match v with end
  | Return err => Returned err
  | Panic msg => Panicked msg
  end.

(** [build]: the body, then the deferred calls, whether the body returned
    or panicked. [builderKey] is a parameter that the body does not read. *)
Definition build (env : Env) (conf : Config) (builderKey rawGitSha : string)
  (w : World) : Outcome * World :=
  let '(flow, w1) := build_body env conf rawGitSha (start w) in
  (outcome flow, run_defers env (defers w1) (start w1)).

(** ** Scenarios *)

(** The settings that vary between the scenarios below. *)
Record Scenario : Type := {
  sc_stack : gmap string string;
  sc_values : gmap string string;
  sc_configErr : option error;
  sc_releaseErr : option error;
  sc_storageFault : StorageOp -> option error;
  sc_logErr : option error;
  sc_statuses : list ContainerStatus;
  sc_procfile : option string;
  sc_uploads : gmap string string;
  sc_deleteSecretFault : option error
}.

(** A decoder for Procfiles of one line, [name: command]. *)
Definition one_line_yaml (raw : string) : result ProcessType :=
  match strings.Split raw ":" with
  | [k; v] => Ok {[ strings.TrimSpace k := strings.TrimSpace v ]}
  | _ => Err (ErrorString "yaml: unmarshal errors")
  end.

(** Collaborators that work, but for the faults of the scenario. *)
Definition scenario_env (sc : Scenario) : Env :=
  {| filepathJoin := fun a b => a +:+ "/" +:+ b;
     durationString := fun d => itoa (d / 1000000000) +:+ "s";
     osMkdirAll := fun _ => None;
     ioTempDir := fun dir pattern => Ok (dir +:+ "/" +:+ pattern +:+ "123456");
     osRemoveAll := fun _ => None;
     osStat := fun _ =>
       match sc_procfile sc with
       | Some _ => None
       | None => Some (ErrorString "no such file or directory")
       end;
     ioReadFile := fun path =>
       if strings.HasPrefix path "/home/git/foo.git/build/"
       then from_option Ok (Err (ErrorString "no such file or directory")) (sc_procfile sc)
       else Ok "tarball";
     cmdRun := fun _ => None;
     sdkNew := fun _ => None;
     GetBuilderKey := Ok "builder-key";
     controllerVersion := "2.3";
     sdkVersion := "2.3";
     GetAppConfig := fun _ _ => ({| Values := sc_values sc |}, sc_configErr sc);
     CreateBuild := fun _ => (1, sc_releaseErr sc);
     driverName := "s3aws";
     storageFault := sc_storageFault sc;
     getStack := fun _ _ => sc_stack sc;
     getRegistryDetails := fun image _ _ =>
       Ok ({[ "DRYCC_REGISTRY_HOSTNAME" := "quay.io" ]}, "quay.io/" +:+ image);
     createSecretFault := fun _ _ => None;
     deleteSecretFault := fun _ _ => sc_deleteSecretFault sc;
     createPodFault := fun _ => None;
     getPod := fun _ _ => Ok (sc_statuses sc);
     prettyPrintJSON := fun _ => Ok "{}";
     waitForPod := fun _ _ => None;
     waitForPodEnd := fun _ _ => None;
     openLogStream := fun _ _ => None;
     logStream := ("-----> Compiled", sc_logErr sc);
     podUploads := sc_uploads sc;
     yamlUnmarshal := one_line_yaml |}.

Definition exited (code : Z) : ContainerStatus :=
  {| State := {| Terminated := Some {| ExitCode := code |} |} |}.

Definition still_running : ContainerStatus :=
  {| State := {| Terminated := None |} |}.

(** The buildpack happy path: a Procfile on disk, stack [heroku-18], the
    pod exits with code 0. *)
Definition buildpack_scenario : Scenario :=
  {| sc_stack := {[ "name" := "heroku-18"; "image" := "registry/slugbuilder:18" ]};
     sc_values := ∅;
     sc_configErr := None;
     sc_releaseErr := None;
     sc_storageFault := fun _ => None;
     sc_logErr := None;
     sc_statuses := [exited 0];
     sc_procfile := Some "web: bundle exec";
     sc_uploads := {[ "home/foo:git-abc12345/push/slug.tgz" := "slug" ]};
     sc_deleteSecretFault := None |}.

Definition with_stack (stack : gmap string string) (sc : Scenario) : Scenario :=
  {| sc_stack := stack; sc_values := sc_values sc; sc_configErr := sc_configErr sc;
     sc_releaseErr := sc_releaseErr sc; sc_storageFault := sc_storageFault sc;
     sc_logErr := sc_logErr sc; sc_statuses := sc_statuses sc;
     sc_procfile := sc_procfile sc; sc_uploads := sc_uploads sc;
     sc_deleteSecretFault := sc_deleteSecretFault sc |}.

Definition with_values (values : gmap string string) (sc : Scenario) : Scenario :=
  {| sc_stack := sc_stack sc; sc_values := values; sc_configErr := sc_configErr sc;
     sc_releaseErr := sc_releaseErr sc; sc_storageFault := sc_storageFault sc;
     sc_logErr := sc_logErr sc; sc_statuses := sc_statuses sc;
     sc_procfile := sc_procfile sc; sc_uploads := sc_uploads sc;
     sc_deleteSecretFault := sc_deleteSecretFault sc |}.

Definition with_configErr (err : option error) (sc : Scenario) : Scenario :=
  {| sc_stack := sc_stack sc; sc_values := sc_values sc; sc_configErr := err;
     sc_releaseErr := sc_releaseErr sc; sc_storageFault := sc_storageFault sc;
     sc_logErr := sc_logErr sc; sc_statuses := sc_statuses sc;
     sc_procfile := sc_procfile sc; sc_uploads := sc_uploads sc;
     sc_deleteSecretFault := sc_deleteSecretFault sc |}.

Definition with_releaseErr (err : option error) (sc : Scenario) : Scenario :=
  {| sc_stack := sc_stack sc; sc_values := sc_values sc; sc_configErr := sc_configErr sc;
     sc_releaseErr := err; sc_storageFault := sc_storageFault sc;
     sc_logErr := sc_logErr sc; sc_statuses := sc_statuses sc;
     sc_procfile := sc_procfile sc; sc_uploads := sc_uploads sc;
     sc_deleteSecretFault := sc_deleteSecretFault sc |}.

Definition with_storageFault (fault : StorageOp -> option error) (sc : Scenario) : Scenario :=
  {| sc_stack := sc_stack sc; sc_values := sc_values sc; sc_configErr := sc_configErr sc;
     sc_releaseErr := sc_releaseErr sc; sc_storageFault := fault;
     sc_logErr := sc_logErr sc; sc_statuses := sc_statuses sc;
     sc_procfile := sc_procfile sc; sc_uploads := sc_uploads sc;
     sc_deleteSecretFault := sc_deleteSecretFault sc |}.

Definition with_logErr (err : option error) (sc : Scenario) : Scenario :=
  {| sc_stack := sc_stack sc; sc_values := sc_values sc; sc_configErr := sc_configErr sc;
     sc_releaseErr := sc_releaseErr sc; sc_storageFault := sc_storageFault sc;
     sc_logErr := err; sc_statuses := sc_statuses sc;
     sc_procfile := sc_procfile sc; sc_uploads := sc_uploads sc;
     sc_deleteSecretFault := sc_deleteSecretFault sc |}.

Definition with_statuses (statuses : list ContainerStatus) (sc : Scenario) : Scenario :=
  {| sc_stack := sc_stack sc; sc_values := sc_values sc; sc_configErr := sc_configErr sc;
     sc_releaseErr := sc_releaseErr sc; sc_storageFault := sc_storageFault sc;
     sc_logErr := sc_logErr sc; sc_statuses := statuses;
     sc_procfile := sc_procfile sc; sc_uploads := sc_uploads sc;
     sc_deleteSecretFault := sc_deleteSecretFault sc |}.

Definition with_procfile (procfile : option string) (sc : Scenario) : Scenario :=
  {| sc_stack := sc_stack sc; sc_values := sc_values sc; sc_configErr := sc_configErr sc;
     sc_releaseErr := sc_releaseErr sc; sc_storageFault := sc_storageFault sc;
     sc_logErr := sc_logErr sc; sc_statuses := sc_statuses sc;
     sc_procfile := procfile; sc_uploads := sc_uploads sc;
     sc_deleteSecretFault := sc_deleteSecretFault sc |}.

Definition with_uploads (uploads : gmap string string) (sc : Scenario) : Scenario :=
  {| sc_stack := sc_stack sc; sc_values := sc_values sc; sc_configErr := sc_configErr sc;
     sc_releaseErr := sc_releaseErr sc; sc_storageFault := sc_storageFault sc;
     sc_logErr := sc_logErr sc; sc_statuses := sc_statuses sc;
     sc_procfile := sc_procfile sc; sc_uploads := uploads;
     sc_deleteSecretFault := sc_deleteSecretFault sc |}.


Definition foo_conf (registryLocation : string) : Config :=
  {| DockerBuilderImagePullPolicy := "Always";
     SlugBuilderImagePullPolicy := "IfNotPresent";
     Repository := "foo.git";
     GitHome := "/home/git";
     App := "foo";
     ControllerHost := "drycc-controller";
     ControllerPort := "80";
     Username := "alice";
     RegistryLocation := registryLocation;
     PodNamespace := "drycc";
     BuilderPodNodeSelector := "pool:build";
     Debug := false;
     StorageType := "minio";
     RegistryHost := "127.0.0.1";
     RegistryPort := "5555";
     SessionIdleInterval := 10000000000;
     BuilderPodTickDuration := 100000000;
     BuilderPodWaitDuration := 900000000000 |}.

Definition foo_sha : string := "abc1234567890abcdef1234567890abcdef12345".

(** A world with nothing in it but the given objects. *)
Definition world_with (objs : gmap string string) : World :=
  {| objects := objs; secrets := ∅; pods := []; builds := []; dirs := ∅;
     trace := []; defers := [] |}.

Definition run_scenario (sc : Scenario) (registryLocation : string)
  (objs : gmap string string) : Outcome * World :=
  build (scenario_env sc) (foo_conf registryLocation) "builder-key" foo_sha
    (world_with objs).

(** ** Predicates of the properties *)

(** The event is the creation of a pod. *)
Definition creates_pod (e : Event) : bool :=
  match e with KubeCreatePod _ _ => true | _ => false end.

(** The step from [w] to [w'] has published no release; it has only added
    to the trace and to the stack of deferred calls. *)
Definition quiet (w w' : World) : Prop :=
  builds w' = builds w
  /\ (exists ds, defers w' = ds ++ defers w)
  /\ (exists t, trace w' = trace w ++ t).

(** The container has terminated with exit code 0. *)
Definition exits_zero (s : ContainerStatus) : Prop :=
  exists t, Terminated (State s) = Some t /\ ExitCode t = 0.

(** The container has terminated with the exit code [code]. *)
Definition exits_with (code : Z) (s : ContainerStatus) : Prop :=
  exists t, Terminated (State s) = Some t /\ ExitCode t = code.

(** The container carries a [Terminated] state. *)
Definition has_terminated (s : ContainerStatus) : Prop :=
  is_Some (Terminated (State s)).

(** The answer of the controller to a release request, as [publish]
    returns it: the mismatch sentinel and [nil] are success, any other
    error is wrapped. *)
Definition publish_result (err : option error) : option error :=
  match err with
  | None => None
  | Some e =>
      if decide (e = ErrAPIMismatch) then None
      else Some (Errorf ("The controller returned an error when publishing the release: "
                         +:+ Error e))
  end.

(** The image that [publish] sends: the slug object key unless the stack
    name is [container]. *)
Definition published_image (l : Locals) (stack : gmap string string) (image : string)
  : string :=
  if decide (index stack "name" ≠ "container")
  then AbsoluteSlugObjectKey (slugBuilderInfo l) else image.

(** A computation is silent when it publishes no release and does not
    return [nil]: it goes on, fails, or panics. *)
Definition silent {A} (m : M A) : Prop :=
  forall w r w', m w = (r, w') -> quiet w w' /\ r <> Return None.

(** The registry environment a docker builder pod was given. *)
Definition pod_registryEnv (p : Pod) : option (gmap string string) :=
  match p with
  | dockerBuilderPod _ _ _ _ _ _ _ _ _ _ _ registryEnv _ _ => Some registryEnv
  | slugbuilderPod _ _ _ _ _ _ _ _ _ _ _ _ _ => None
  end.

(** The container happy path: no Procfile on disk, stack [container]. *)
Definition container_scenario : Scenario :=
  with_stack {[ "name" := "container"; "image" := "registry/dockerbuilder" ]}
    (with_procfile None buildpack_scenario).

(** A buildpack stack whose name happens to contain [container]. *)
Definition my_container_stack_scenario : Scenario :=
  with_stack {[ "name" := "my-container-stack"; "image" := "registry/slugbuilder:18" ]}
    (with_uploads {[ "home/foo:git-abc12345/push/Procfile" := "web: run" ]}
       (with_procfile None buildpack_scenario)).

(** The same build, with a builder that fails with exit code 7. *)
Definition failing_container_stack_scenario : Scenario :=
  with_statuses [exited 7] my_container_stack_scenario.

(** The event belongs to the inspection of the finished pod: the wait for
    its end, or its fetch. *)
Definition inspects_pod (e : Event) : bool :=
  match e with
  | WaitForPodEnd _ _ | KubeGetPod _ _ => true
  | _ => false
  end.

(** The buildpack build, with a log stream that breaks. *)
Definition broken_stream_scenario : Scenario :=
  with_logErr (Some (ErrorString "unexpected EOF")) buildpack_scenario.

(** The warning of [CheckAPICompat]. *)
Definition api_warning (env : Env) (c : Client) : Event :=
  Log Info ("WARNING: SDK and Controller API versions do not match. SDK: "
            +:+ sdkVersion env +:+ " Controller: " +:+ ControllerAPIVersion c).

(** The line of [build] that announces the release (line 318), with the
    release number of the controller's response. *)
Definition done_line (appName : string) (release : Z) : Event :=
  Log Info ("Done, " +:+ appName +:+ ":v" +:+ itoa release +:+ " deployed to Workflow"
            +:+ newline).

(** What [build] does with the response [(release, err)] of [CreateBuild]
    (lines 311-324): [out] is its outcome and [t] what it has logged and
    called after the call. With [nil] the build announces the release of the
    response and returns [nil]; with the mismatch sentinel it does the same,
    after the warning of [CheckAPICompat]; any other error is returned,
    wrapped. *)
Definition release_response (env : Env) (c : Client) (appName : string)
  (response : Z * option error) (out : Outcome) (t : list Event) : Prop :=
  let '(release, err) := response in
  match err with
  | None => out = Returned None /\ exists t', t = done_line appName release :: t'
  | Some e =>
      if decide (e = ErrAPIMismatch)
      then out = Returned None
           /\ exists t', t = api_warning env c :: done_line appName release :: t'
      else out = Returned (Some (Errorf
                   ("The controller returned an error when publishing the release: "
                    +:+ Error e)))
  end.

(** The API mismatch scenario: both calls of the controller answer with
    the mismatch sentinel. *)
Definition api_mismatch_scenario : Scenario :=
  with_configErr (Some ErrAPIMismatch)
    (with_releaseErr (Some ErrAPIMismatch) buildpack_scenario).

(** A controller that rejects the release. *)
Definition rejected_release_scenario : Scenario :=
  with_releaseErr (Some (ErrorString "409 Conflict")) buildpack_scenario.

(** A controller that does not know the application. *)
Definition unknown_app_scenario : Scenario :=
  with_configErr (Some (ErrorString "404 Not Found")) buildpack_scenario.

(** The byte [c] does not occur in [s]. *)
Fixpoint no_char (c : ascii) (s : string) : Prop :=
  match s with
  | EmptyString => True
  | String x s' => x <> c /\ no_char c s'
  end.

(** A pair of a node selector, as it is written in the configuration. *)
Definition selector_pair (kv : string * string) : string := kv.1 +:+ ":" +:+ kv.2.

(** The selector that a list of pairs stands for: each trimmed key is
    bound to its trimmed value, a later pair overriding an earlier one. *)
Definition selector_of (kvs : list (string * string)) : gmap string string :=
  foldl (fun m kv => <[strings.TrimSpace kv.1 := strings.TrimSpace kv.2]> m) ∅ kvs.

(** A buildpack build without Procfile on disk, whose builder has uploaded
    a Procfile that is not a mapping. *)
Definition malformed_procfile_scenario : Scenario :=
  with_uploads {[ "home/foo:git-abc12345/push/Procfile" := "web" ]}
    (with_procfile None buildpack_scenario).

Definition with_BuilderPodNodeSelector (selector : string) (conf : Config) : Config :=
  {| DockerBuilderImagePullPolicy := DockerBuilderImagePullPolicy conf;
     SlugBuilderImagePullPolicy := SlugBuilderImagePullPolicy conf;
     Repository := Repository conf;
     GitHome := GitHome conf;
     App := App conf;
     ControllerHost := ControllerHost conf;
     ControllerPort := ControllerPort conf;
     Username := Username conf;
     RegistryLocation := RegistryLocation conf;
     PodNamespace := PodNamespace conf;
     BuilderPodNodeSelector := selector;
     Debug := Debug conf;
     StorageType := StorageType conf;
     RegistryHost := RegistryHost conf;
     RegistryPort := RegistryPort conf;
     SessionIdleInterval := SessionIdleInterval conf;
     BuilderPodTickDuration := BuilderPodTickDuration conf;
     BuilderPodWaitDuration := BuilderPodWaitDuration conf |}.

(** From [w] to [w'] the trace and the stack of deferred calls have only
    grown. *)
Definition onward (w w' : World) : Prop :=
  (exists ds, defers w' = ds ++ defers w) /\ (exists t, trace w' = trace w ++ t).

(** A computation under which the trace and the stack of deferred calls
    only grow. *)
Definition steady {A} (m : M A) : Prop :=
  forall w r w', m w = (r, w') -> onward w w'.

(** The buildpack build of an application that has disabled the cache. *)
Definition no_cache_scenario : Scenario :=
  with_values {[ "DRYCC_DISABLE_CACHE" := "1" ]} buildpack_scenario.

(** An object store that cannot answer [Stat]. *)
Definition stat_unavailable (op : StorageOp) : option error :=
  match op with
  | OpStat _ => Some (ErrorString "storage unavailable")
  | _ => None
  end.

(** An object store that cannot delete. *)
Definition delete_unavailable (op : StorageOp) : option error :=
  match op with
  | OpDelete _ => Some (ErrorString "storage unavailable")
  | _ => None
  end.


(** The blank, and a run of [n] blanks. *)
Definition blank : ascii := " "%char.
Definition blanks (n : nat) : string := String.string_of_list_ascii (replicate n blank).

(** An ASCII byte that is not white space. *)
Definition plain (c : ascii) : bool :=
  (nat_of_ascii c <? 128)%nat && negb (Ascii.is_space c).

(** The string is not empty and its first and last bytes are plain. *)
Definition plain_ends (s : string) : Prop :=
  match String.list_ascii_of_string s, reverse (String.list_ascii_of_string s) with
  | c :: _, d :: _ => plain c = true /\ plain d = true
  | _, _ => False
  end.

(** ** The calls of a build *)

(** The commands of lines 128 and 137, and of line 322. *)
Definition gitArchiveCmd (l : Locals) : Cmd :=
  repoCmd (repoDir l) "git"
    ["archive"; "--format=tar.gz"; "--output=" +:+ (appName l +:+ ".tar.gz");
     Short (gitSha l)].
Definition tarCmd (l : Locals) : Cmd :=
  repoCmd (repoDir l) "tar" ["-xzf"; appName l +:+ ".tar.gz"; "-C"; tmpDir l +:+ "/"].
Definition gitGcCmd (l : Locals) : Cmd := repoCmd (repoDir l) "git" ["gc"].

(** The build directory of line 84. *)
Definition buildDir (env : Env) (conf : Config) : string :=
  filepathJoin env (filepathJoin env (GitHome conf) (Repository conf)) "build".

(** The call that a deferred call issues. *)
Definition deferred_call (d : Deferred) : Event :=
  match d with
  | DeferRemoveTmp tmpDir => RemoveAll tmpDir
  | DeferDeleteSecret namespace envSecretName => KubeDeleteSecret namespace envSecretName
  | DeferCloseStop => WatcherStop
  | DeferCloseStream => CloseStream
  end.

(** The calls that a build which succeeds makes to the outside, in the
    order of the source: the build and temporary directories, the
    application's configuration, the archive and its unpacking, the upload,
    the secret of a slug build, the pod, the watcher and the waits, the
    log, the fetch of the pod, the release, [git gc], and then the deferred
    calls, last registered first. *)
Definition calls_of_success (env : Env) (conf : Config) (l : Locals)
  (stack : gmap string string) (pod : Pod) (data bytes : string) (request : Build)
  : list Event :=
  let namespace := PodNamespace conf in
  let secret := App conf +:+ "-build-env" in
  let slug := negb (strings.Contains (index stack "name") "container") in
  [MkdirAll (buildDir env conf);
   TempDir (buildDir env conf);
   HookGetAppConfig (Username conf) (App conf);
   Exec (gitArchiveCmd l);
   Exec (tarCmd l);
   StorPutContent (TarKey (slugBuilderInfo l)) data]
  ++ (if slug then [KubeCreateSecret namespace secret] else [])
  ++ [KubeCreatePod namespace pod;
      WatcherRun namespace;
      WaitForPod namespace (pod_Name pod);
      KubeStreamLog namespace (pod_Name pod);
      Stdout bytes;
      WaitForPodEnd namespace (pod_Name pod);
      KubeGetPod namespace (pod_Name pod);
      HookCreateBuild request;
      Exec (gitGcCmd l);
      CloseStream;
      WatcherStop]
  ++ (if slug then [KubeDeleteSecret namespace secret] else [])
  ++ [RemoveAll (tmpDir l)].

(** Every step of the computation is in the relation [R]. *)
Definition keeps (R : World -> World -> Prop) {A} (m : M A) : Prop :=
  forall w r w', m w = (r, w') -> R w w'.

(** The event is a line of the log. *)
Definition is_log (e : Event) : bool :=
  match e with Log _ _ => true | _ => false end.

(** The calls of a trace: its events but for the lines of the log. *)
Definition calls (t : list Event) : list Event :=
  List.filter (fun e => negb (is_log e)) t.

(** The world that [build] leaves when its body has ended in [w]: the
    deferred calls have run. *)
Definition cleanup (env : Env) (w : World) : World :=
  run_defers env (defers w) (start w).

(** What the deferred removal of the temporary directory adds to the
    trace: the call, and a line of the log when it has failed. *)
Definition removal (env : Env) (tmpDir : string) : list Event :=
  RemoveAll tmpDir
  :: match osRemoveAll env tmpDir with
     | Some err =>
         [Log Info ("unable to remove tmpdir " +:+ tmpDir +:+ " (" +:+ Error err +:+ ")")]
     | None => []
     end.

(** The collaborators [env], with another [os.MkdirAll]. *)
Definition with_osMkdirAll (answer : string -> option error) (env : Env) : Env :=
  {| filepathJoin := filepathJoin env; durationString := durationString env;
     osMkdirAll := answer; ioTempDir := ioTempDir env; osRemoveAll := osRemoveAll env;
     osStat := osStat env; ioReadFile := ioReadFile env; cmdRun := cmdRun env;
     sdkNew := sdkNew env; GetBuilderKey := GetBuilderKey env;
     controllerVersion := controllerVersion env; sdkVersion := sdkVersion env;
     GetAppConfig := GetAppConfig env; CreateBuild := CreateBuild env;
     driverName := driverName env; storageFault := storageFault env;
     getStack := getStack env; getRegistryDetails := getRegistryDetails env;
     createSecretFault := createSecretFault env;
     deleteSecretFault := deleteSecretFault env; createPodFault := createPodFault env;
     getPod := getPod env; prettyPrintJSON := prettyPrintJSON env;
     waitForPod := waitForPod env; waitForPodEnd := waitForPodEnd env;
     openLogStream := openLogStream env; logStream := logStream env;
     podUploads := podUploads env; yamlUnmarshal := yamlUnmarshal env |}.

(** The collaborators [env], with another [ioutil.TempDir]. *)
Definition with_ioTempDir (answer : string -> string -> result string) (env : Env) : Env :=
  {| filepathJoin := filepathJoin env; durationString := durationString env;
     osMkdirAll := osMkdirAll env; ioTempDir := answer; osRemoveAll := osRemoveAll env;
     osStat := osStat env; ioReadFile := ioReadFile env; cmdRun := cmdRun env;
     sdkNew := sdkNew env; GetBuilderKey := GetBuilderKey env;
     controllerVersion := controllerVersion env; sdkVersion := sdkVersion env;
     GetAppConfig := GetAppConfig env; CreateBuild := CreateBuild env;
     driverName := driverName env; storageFault := storageFault env;
     getStack := getStack env; getRegistryDetails := getRegistryDetails env;
     createSecretFault := createSecretFault env;
     deleteSecretFault := deleteSecretFault env; createPodFault := createPodFault env;
     getPod := getPod env; prettyPrintJSON := prettyPrintJSON env;
     waitForPod := waitForPod env; waitForPodEnd := waitForPodEnd env;
     openLogStream := openLogStream env; logStream := logStream env;
     podUploads := podUploads env; yamlUnmarshal := yamlUnmarshal env |}.

(** The collaborators [env], with another [os.RemoveAll]. *)
Definition with_osRemoveAll (answer : string -> option error) (env : Env) : Env :=
  {| filepathJoin := filepathJoin env; durationString := durationString env;
     osMkdirAll := osMkdirAll env; ioTempDir := ioTempDir env; osRemoveAll := answer;
     osStat := osStat env; ioReadFile := ioReadFile env; cmdRun := cmdRun env;
     sdkNew := sdkNew env; GetBuilderKey := GetBuilderKey env;
     controllerVersion := controllerVersion env; sdkVersion := sdkVersion env;
     GetAppConfig := GetAppConfig env; CreateBuild := CreateBuild env;
     driverName := driverName env; storageFault := storageFault env;
     getStack := getStack env; getRegistryDetails := getRegistryDetails env;
     createSecretFault := createSecretFault env;
     deleteSecretFault := deleteSecretFault env; createPodFault := createPodFault env;
     getPod := getPod env; prettyPrintJSON := prettyPrintJSON env;
     waitForPod := waitForPod env; waitForPodEnd := waitForPodEnd env;
     openLogStream := openLogStream env; logStream := logStream env;
     podUploads := podUploads env; yamlUnmarshal := yamlUnmarshal env |}.

(** The collaborators [env], with another [cmd.Run]. *)
Definition with_cmdRun (answer : Cmd -> option error) (env : Env) : Env :=
  {| filepathJoin := filepathJoin env; durationString := durationString env;
     osMkdirAll := osMkdirAll env; ioTempDir := ioTempDir env;
     osRemoveAll := osRemoveAll env; osStat := osStat env; ioReadFile := ioReadFile env;
     cmdRun := answer; sdkNew := sdkNew env; GetBuilderKey := GetBuilderKey env;
     controllerVersion := controllerVersion env; sdkVersion := sdkVersion env;
     GetAppConfig := GetAppConfig env; CreateBuild := CreateBuild env;
     driverName := driverName env; storageFault := storageFault env;
     getStack := getStack env; getRegistryDetails := getRegistryDetails env;
     createSecretFault := createSecretFault env;
     deleteSecretFault := deleteSecretFault env; createPodFault := createPodFault env;
     getPod := getPod env; prettyPrintJSON := prettyPrintJSON env;
     waitForPod := waitForPod env; waitForPodEnd := waitForPodEnd env;
     openLogStream := openLogStream env; logStream := logStream env;
     podUploads := podUploads env; yamlUnmarshal := yamlUnmarshal env |}.

(** The collaborators [env], with another [drycc.New]. *)
Definition with_sdkNew (answer : string -> option error) (env : Env) : Env :=
  {| filepathJoin := filepathJoin env; durationString := durationString env;
     osMkdirAll := osMkdirAll env; ioTempDir := ioTempDir env;
     osRemoveAll := osRemoveAll env; osStat := osStat env; ioReadFile := ioReadFile env;
     cmdRun := cmdRun env; sdkNew := answer; GetBuilderKey := GetBuilderKey env;
     controllerVersion := controllerVersion env; sdkVersion := sdkVersion env;
     GetAppConfig := GetAppConfig env; CreateBuild := CreateBuild env;
     driverName := driverName env; storageFault := storageFault env;
     getStack := getStack env; getRegistryDetails := getRegistryDetails env;
     createSecretFault := createSecretFault env;
     deleteSecretFault := deleteSecretFault env; createPodFault := createPodFault env;
     getPod := getPod env; prettyPrintJSON := prettyPrintJSON env;
     waitForPod := waitForPod env; waitForPodEnd := waitForPodEnd env;
     openLogStream := openLogStream env; logStream := logStream env;
     podUploads := podUploads env; yamlUnmarshal := yamlUnmarshal env |}.

(** The collaborators [env], with another [conf.GetBuilderKey]. *)
Definition with_GetBuilderKey (answer : result string) (env : Env) : Env :=
  {| filepathJoin := filepathJoin env; durationString := durationString env;
     osMkdirAll := osMkdirAll env; ioTempDir := ioTempDir env;
     osRemoveAll := osRemoveAll env; osStat := osStat env; ioReadFile := ioReadFile env;
     cmdRun := cmdRun env; sdkNew := sdkNew env; GetBuilderKey := answer;
     controllerVersion := controllerVersion env; sdkVersion := sdkVersion env;
     GetAppConfig := GetAppConfig env; CreateBuild := CreateBuild env;
     driverName := driverName env; storageFault := storageFault env;
     getStack := getStack env; getRegistryDetails := getRegistryDetails env;
     createSecretFault := createSecretFault env;
     deleteSecretFault := deleteSecretFault env; createPodFault := createPodFault env;
     getPod := getPod env; prettyPrintJSON := prettyPrintJSON env;
     waitForPod := waitForPod env; waitForPodEnd := waitForPodEnd env;
     openLogStream := openLogStream env; logStream := logStream env;
     podUploads := podUploads env; yamlUnmarshal := yamlUnmarshal env |}.

(** The collaborators [env], with another [waitForPod]. *)
Definition with_waitForPod (answer : string -> string -> option error) (env : Env) : Env :=
  {| filepathJoin := filepathJoin env; durationString := durationString env;
     osMkdirAll := osMkdirAll env; ioTempDir := ioTempDir env;
     osRemoveAll := osRemoveAll env; osStat := osStat env; ioReadFile := ioReadFile env;
     cmdRun := cmdRun env; sdkNew := sdkNew env; GetBuilderKey := GetBuilderKey env;
     controllerVersion := controllerVersion env; sdkVersion := sdkVersion env;
     GetAppConfig := GetAppConfig env; CreateBuild := CreateBuild env;
     driverName := driverName env; storageFault := storageFault env;
     getStack := getStack env; getRegistryDetails := getRegistryDetails env;
     createSecretFault := createSecretFault env;
     deleteSecretFault := deleteSecretFault env; createPodFault := createPodFault env;
     getPod := getPod env; prettyPrintJSON := prettyPrintJSON env; waitForPod := answer;
     waitForPodEnd := waitForPodEnd env; openLogStream := openLogStream env;
     logStream := logStream env; podUploads := podUploads env;
     yamlUnmarshal := yamlUnmarshal env |}.

(** The collaborators [env], with other faults of the creation of a pod. *)
Definition with_createPodFault (answer : Pod -> option error) (env : Env) : Env :=
  {| filepathJoin := filepathJoin env; durationString := durationString env;
     osMkdirAll := osMkdirAll env; ioTempDir := ioTempDir env;
     osRemoveAll := osRemoveAll env; osStat := osStat env; ioReadFile := ioReadFile env;
     cmdRun := cmdRun env; sdkNew := sdkNew env; GetBuilderKey := GetBuilderKey env;
     controllerVersion := controllerVersion env; sdkVersion := sdkVersion env;
     GetAppConfig := GetAppConfig env; CreateBuild := CreateBuild env;
     driverName := driverName env; storageFault := storageFault env;
     getStack := getStack env; getRegistryDetails := getRegistryDetails env;
     createSecretFault := createSecretFault env;
     deleteSecretFault := deleteSecretFault env; createPodFault := answer;
     getPod := getPod env; prettyPrintJSON := prettyPrintJSON env;
     waitForPod := waitForPod env; waitForPodEnd := waitForPodEnd env;
     openLogStream := openLogStream env; logStream := logStream env;
     podUploads := podUploads env; yamlUnmarshal := yamlUnmarshal env |}.

(** The buildpack build, with an SDK that refuses the URL of the
    controller. *)
Definition refused_url_env : Env :=
  with_sdkNew (fun _ => Some (ErrorString "invalid URL")) (scenario_env buildpack_scenario).

(** From [w] to [w'] no directory was made or removed, and the trace and
    the stack of deferred calls have only grown. *)
Definition settled (w w' : World) : Prop := dirs w' = dirs w /\ onward w w'.

(** The calls that are deferred once the pod has been specified, in the
    order in which they are issued: the deletion of the secret of a slug
    build, and the removal of the temporary directory. *)
Definition cleanup_calls (conf : Config) (l : Locals) (stack : gmap string string)
  : list Event :=
  (if negb (strings.Contains (index stack "name") "container")
   then [KubeDeleteSecret (PodNamespace conf) (App conf +:+ "-build-env")]
   else [])
  ++ [RemoveAll (tmpDir l)].

(** The buildpack build, with a pod that does not start in time. *)
Definition pod_timeout_env : Env :=
  with_waitForPod (fun _ _ => Some (ErrorString "timed out"))
    (scenario_env buildpack_scenario).

(** The collaborators [env], with other faults of the creation of a secret. *)
Definition with_createSecretFault (answer : string -> string -> option error) (env : Env) : Env :=
  {| filepathJoin := filepathJoin env; durationString := durationString env;
     osMkdirAll := osMkdirAll env; ioTempDir := ioTempDir env;
     osRemoveAll := osRemoveAll env; osStat := osStat env; ioReadFile := ioReadFile env;
     cmdRun := cmdRun env; sdkNew := sdkNew env; GetBuilderKey := GetBuilderKey env;
     controllerVersion := controllerVersion env; sdkVersion := sdkVersion env;
     GetAppConfig := GetAppConfig env; CreateBuild := CreateBuild env;
     driverName := driverName env; storageFault := storageFault env;
     getStack := getStack env; getRegistryDetails := getRegistryDetails env;
     createSecretFault := answer; deleteSecretFault := deleteSecretFault env;
     createPodFault := createPodFault env; getPod := getPod env;
     prettyPrintJSON := prettyPrintJSON env; waitForPod := waitForPod env;
     waitForPodEnd := waitForPodEnd env; openLogStream := openLogStream env;
     logStream := logStream env; podUploads := podUploads env;
     yamlUnmarshal := yamlUnmarshal env |}.

(** The collaborators [env], with another fetch of the pod. *)
Definition with_getPod (answer : string -> string -> result (list ContainerStatus)) (env : Env) : Env :=
  {| filepathJoin := filepathJoin env; durationString := durationString env;
     osMkdirAll := osMkdirAll env; ioTempDir := ioTempDir env;
     osRemoveAll := osRemoveAll env; osStat := osStat env; ioReadFile := ioReadFile env;
     cmdRun := cmdRun env; sdkNew := sdkNew env; GetBuilderKey := GetBuilderKey env;
     controllerVersion := controllerVersion env; sdkVersion := sdkVersion env;
     GetAppConfig := GetAppConfig env; CreateBuild := CreateBuild env;
     driverName := driverName env; storageFault := storageFault env;
     getStack := getStack env; getRegistryDetails := getRegistryDetails env;
     createSecretFault := createSecretFault env;
     deleteSecretFault := deleteSecretFault env; createPodFault := createPodFault env;
     getPod := answer; prettyPrintJSON := prettyPrintJSON env;
     waitForPod := waitForPod env; waitForPodEnd := waitForPodEnd env;
     openLogStream := openLogStream env; logStream := logStream env;
     podUploads := podUploads env; yamlUnmarshal := yamlUnmarshal env |}.

(** The buildpack build, with a [tar] that fails. *)
Definition tar_failure_env : Env :=
  with_cmdRun (fun cmd => if decide (Args cmd !! 0%nat = Some "tar")
                          then Some (ErrorString "exit status 2") else None)
    (scenario_env buildpack_scenario).

(** The buildpack build, in a namespace where secrets cannot be made. *)
Definition no_secret_env : Env :=
  with_createSecretFault (fun _ _ => Some (ErrorString "secrets is forbidden"))
    (scenario_env buildpack_scenario).

(** The buildpack build, with a pod that cannot be fetched once it has
    ended. *)
Definition pod_gone_env : Env :=
  with_getPod (fun _ _ => Err (ErrorString "pods not found"))
    (scenario_env buildpack_scenario).

(** The event is a call on a secret of the cluster: the creation or the
    deletion of the environment secret, or the call of
    [getRegistryDetails], which reads the registry secret. *)
Definition touches_secret (e : Event) : bool :=
  match e with
  | KubeCreateSecret _ _ | KubeDeleteSecret _ _ | GetRegistryDetails _ _ _ => true
  | _ => false
  end.

(** The deferred call is not the deletion of a secret. *)
Definition keeps_secrets (d : Deferred) : bool :=
  match d with DeferDeleteSecret _ _ => false | _ => true end.

(** From [w] to [w'] the secrets are as they were: no call on a secret
    has been made and none has been deferred. *)
Definition no_secret (w w' : World) : Prop :=
  secrets w' = secrets w
  /\ (exists t, trace w' = trace w ++ t
                /\ forallb (fun e => negb (touches_secret e)) t = true)
  /\ (forallb keeps_secrets (defers w) = true ->
      forallb keeps_secrets (defers w') = true).

(** The event is the run of [git gc]. *)
Definition is_gc (e : Event) : bool :=
  match e with
  | Exec cmd => bool_decide (Args cmd = ["git"; "gc"])
  | _ => false
  end.

(** From [w] to [w'] the trace has only grown, and [git gc] was not run. *)
Definition no_gc (w w' : World) : Prop :=
  exists t, trace w' = trace w ++ t /\ forallb (fun e => negb (is_gc e)) t = true.

(** The buildpack build, with a [git gc] that fails. *)
Definition gc_failure_env : Env :=
  with_cmdRun (fun cmd => if decide (Args cmd = ["git"; "gc"])
                          then Some (ErrorString "exit status 128") else None)
    (scenario_env buildpack_scenario).

(** ** Running the phases symbolically *)

(** The scrutinee on which the evaluation of a term is stuck. *)
Ltac head_scrut t :=
  lazymatch t with
  | match ?x with _ => _ end => head_scrut x
  | (match ?x with _ => _ end) _ => head_scrut x
  | _ => t
  end.

Ltac unfold_phases H :=
  cbv [prepare setup fetchAppConfig locals invalidateCache snapshot podSpec launch copyLogs awaitEnd publish
       getProcFile run run_deferred release_request
       storagedriver.Stat storagedriver.Delete storagedriver.PutContent
       storagedriver.GetContent
       kube.createAppEnvConfigSecret kube.DeleteSecret kube.CreatePod kube.GetPod
       controller.CheckAPICompat
       mbind M_bind mret M_ret return_ panic gets modify emit defer logInfo logDebug
       check attempt
       with_objects with_secrets with_pods with_builds with_dirs with_trace with_defers
       objects secrets pods builds dirs trace defers fst snd id
       dockerBuilderImagePullPolicy slugBuilderImagePullPolicy gitSha appName repoDir
       tmpDir slugName client appConf repoCmd Args Dir] in H.

(** One case distinction on the answer the phase is waiting for. *)
Ltac exec_step H :=
  lazymatch type of H with
  | ?l = _ =>
      let x := head_scrut l in
      lazymatch x with
      | (_, _) => fail "done"
      | _ => destruct x eqn:?
      end;
      cbv beta iota zeta in H
  end.

(** All the ways in which the phase of hypothesis [H] can end. *)
Ltac exec H := unfold_phases H; repeat exec_step H; injection H as <- <-.

(** A conjunction of closed facts, each by evaluation. *)
Ltac compute_each :=
  repeat match goal with |- _ /\ _ => split end; vm_compute; reflexivity.

Ltac solve_suffix :=
  rewrite <- ?app_assoc;
  first [ exists []; symmetry; apply app_nil_r | eexists; reflexivity ].

Ltac solve_pushed :=
  first [ by exists [] | by eexists [_] | by eexists [_; _] | by eexists [_; _; _] ].

Ltac solve_quiet :=
  unfold quiet; cbv [builds pods defers trace];
  split; [reflexivity | split; [solve_pushed | solve_suffix]].

(** ** The monad *)

Lemma bind_next {A B} (m : M A) (k : A -> M B) (w w1 : World) (a : A) :
  m w = (Next a, w1) -> (m ≫= k) w = k a w1.
Proof. intros H. unfold mbind, M_bind. rewrite H. reflexivity. Qed.

Lemma bind_return {A B} (m : M A) (k : A -> M B) (w w1 : World) (err : option error) :
  m w = (Return err, w1) -> (m ≫= k) w = (Return err, w1).
Proof. intros H. unfold mbind, M_bind. rewrite H. reflexivity. Qed.

Lemma bind_panic {A B} (m : M A) (k : A -> M B) (w w1 : World) (msg : string) :
  m w = (Panic msg, w1) -> (m ≫= k) w = (Panic msg, w1).
Proof. intros H. unfold mbind, M_bind. rewrite H. reflexivity. Qed.

Lemma bind_inv {A B} (m : M A) (k : A -> M B) (w w' : World) (r : Flow B) :
  (m ≫= k) w = (r, w') ->
  (exists a w1, m w = (Next a, w1) /\ k a w1 = (r, w'))
  \/ (exists err, m w = (Return err, w') /\ r = Return err)
  \/ (exists msg, m w = (Panic msg, w') /\ r = Panic msg).
Proof.
  unfold mbind, M_bind. destruct (m w) as [[a|err|msg] w1]; intros H.
  - left. eauto.
  - right; left. injection H as <- <-. eauto.
  - right; right. injection H as <- <-. eauto.
Qed.

(** How a prefix of the body that has gone on got there. *)
Ltac bind_next_inv H :=
  let a := fresh "a" in
  let w1 := fresh "w" in
  let H1 := fresh "Hstep" in
  apply bind_inv in H as [(a & w1 & H1 & H) | [(? & _ & ?) | (? & _ & ?)]];
  [ | discriminate | discriminate ].

Lemma quiet_refl (w : World) : quiet w w.
Proof.
  repeat split; [by exists [] | exists []; symmetry; apply app_nil_r].
Qed.

Lemma quiet_trans (w1 w2 w3 : World) : quiet w1 w2 -> quiet w2 w3 -> quiet w1 w3.
Proof.
  intros (Hb1 & [ds1 Hd1] & [t1 Ht1]) (Hb2 & [ds2 Hd2] & [t2 Ht2]).
  split; [congruence | split].
  - exists (ds2 ++ ds1). rewrite Hd2, Hd1. apply app_assoc.
  - exists (t1 ++ t2). rewrite Ht2, Ht1. symmetry. apply app_assoc.
Qed.

(** ** The phases, one by one *)

(** [prepare] publishes nothing, creates no pod, and never returns [nil]
    or panics; where it goes on, the variables are as the source sets them
    and the removal of the temporary directory is deferred. *)
Lemma prepare_spec env conf raw w r w' :
  prepare env conf raw w = (r, w') ->
  quiet w w' /\ pods w' = pods w /\ secrets w' = secrets w /\ objects w' = objects w
  /\ r <> Return None /\ (forall msg, r <> Panic msg)
  /\ (exists t, trace w' = trace w ++ t
               /\ forallb (fun e => negb (creates_pod e)) t = true)
  /\ (forall l, r = Next l ->
        appName l = App conf /\ NewSha raw = Ok (gitSha l)
        /\ appConf l = (GetAppConfig env (Username conf) (App conf)).1
        /\ defers w' = DeferRemoveTmp (tmpDir l) :: defers w).
Proof.
  intros H. destruct w as [o s p b d t df].
  exec H.
  all: split; [solve_quiet|].
  all: do 3 (split; [reflexivity|]).
  all: split; [try discriminate|].
  all: split; [discriminate|].
  all: split; [cbv [trace]; rewrite <- ?app_assoc;
               first [ exists []; split; [symmetry; apply app_nil_r | reflexivity]
                     | eexists; split; reflexivity ] |].
  all: intros l Hl; try discriminate.
  all: injection Hl as <-; cbv [appName gitSha appConf tmpDir defers].
  all: repeat split; reflexivity.
Qed.

(** [invalidateCache] publishes nothing, creates no pod and no secret, and
    never returns [nil] or panics. *)
Lemma invalidateCache_spec env l w r w' :
  invalidateCache env l w = (r, w') ->
  quiet w w' /\ pods w' = pods w /\ secrets w' = secrets w
  /\ r <> Return None /\ (forall msg, r <> Panic msg).
Proof.
  intros H. destruct w as [o s p b d t df].
  exec H.
  all: split; [solve_quiet|].
  all: do 2 (split; [reflexivity|]).
  all: split; discriminate.
Qed.

Lemma snapshot_spec env l w r w' :
  snapshot env l w = (r, w') ->
  quiet w w' /\ pods w' = pods w /\ secrets w' = secrets w
  /\ r <> Return None /\ (forall msg, r <> Panic msg)
  /\ (forall stack, r = Next stack -> stack = getStack env (tmpDir l) (appConf l)).
Proof.
  intros H. destruct w as [o s p b d t df]. destruct l.
  exec H.
  all: split; [solve_quiet|].
  all: do 2 (split; [reflexivity|]).
  all: split; [discriminate|].
  all: split; [discriminate|].
  all: intros stack Hs; try discriminate.
  injection Hs as <-. reflexivity.
Qed.

Lemma copyLogs_spec env w r w' :
  copyLogs env w = (r, w') ->
  quiet w w' /\ pods w' = pods w /\ secrets w' = secrets w
  /\ r <> Return None /\ (forall msg, r <> Panic msg).
Proof.
  intros H. destruct w as [o s p b d t df].
  exec H.
  all: split; [solve_quiet|].
  all: do 2 (split; [reflexivity|]).
  all: split; discriminate.
Qed.

Lemma awaitEnd_spec env conf namespace name w r w' :
  awaitEnd env conf namespace name w = (r, w') ->
  quiet w w' /\ pods w' = pods w /\ secrets w' = secrets w
  /\ r <> Return None /\ (forall msg, r <> Panic msg)
  /\ (forall statuses, r = Next statuses -> getPod env namespace name = Ok statuses).
Proof.
  intros H. destruct w as [o s p b d t df].
  exec H.
  all: split; [solve_quiet|].
  all: do 2 (split; [reflexivity|]).
  all: split; [discriminate|].
  all: split; [discriminate|].
  all: intros statuses Hs; try discriminate.
  injection Hs as <-. reflexivity.
Qed.

(** [launch] publishes nothing and never returns [nil] or panics; where it
    goes on, the pod has been created under its own name and namespace. *)
Lemma launch_spec env conf stack pod buildPodName w r w' :
  launch env conf stack pod buildPodName w = (r, w') ->
  quiet w w' /\ secrets w' = secrets w
  /\ r <> Return None /\ (forall msg, r <> Panic msg)
  /\ (forall namespace name, r = Next (namespace, name) ->
        namespace = pod_Namespace pod /\ name = pod_Name pod
        /\ pods w' = pods w ++ [(PodNamespace conf, pod)]).
Proof.
  intros H. destruct w as [o s p b d t df].
  exec H.
  all: split; [solve_quiet|].
  all: split; [reflexivity|].
  all: split; [discriminate|].
  all: split; [discriminate|].
  all: intros namespace name Hs; try discriminate.
  injection Hs as <- <-. repeat split; reflexivity.
Qed.

(** [podSpec] publishes nothing, creates no pod, and never returns [nil] or
    panics. Where it goes on: with a stack name that contains [container]
    the pod is the docker builder's, no secret is made and [image] is the
    application's name, followed by [:git-{shortSha}] only after the
    registry details of an off-cluster registry have been read; otherwise
    the pod is the slug builder's, the secret is there, its deletion is
    deferred, and [image] is the application's name. *)
Lemma podSpec_spec env conf l stack w r w' :
  podSpec env conf l stack w = (r, w') ->
  quiet w w' /\ pods w' = pods w
  /\ r <> Return None /\ (forall msg, r <> Panic msg)
  /\ (forall pod n image, r = Next (pod, n, image) ->
        pod_Name pod = n /\ pod_Namespace pod = PodNamespace conf
        /\ exists sel,
            buildBuilderPodNodeSelector (BuilderPodNodeSelector conf) = Ok sel
            /\ if strings.Contains (index stack "name") "container"
               then
                 secrets w' = secrets w /\ defers w' = defers w
                 /\ n = dockerBuilderPodName (appName l) (Short (gitSha l))
                 /\ exists registryEnv,
                     pod = dockerBuilderPod (Debug conf) n (PodNamespace conf)
                             (Values (appConf l)) (TarKey (slugBuilderInfo l))
                             (Short (gitSha l)) (slugName l) (StorageType conf)
                             (index stack "image") (RegistryHost conf)
                             (RegistryPort conf)
                             (<["DRYCC_REGISTRY_LOCATION" := RegistryLocation conf]>
                                registryEnv)
                             (dockerBuilderImagePullPolicy l) sel
                     /\ if decide (RegistryLocation conf ≠ "on-cluster")
                        then exists img,
                            getRegistryDetails env (appName l) (RegistryLocation conf)
                              (PodNamespace conf) = Ok (registryEnv, img)
                            /\ image = img +:+ ":git-" +:+ Short (gitSha l)
                        else registryEnv = ∅ /\ image = appName l
               else
                 image = appName l
                 /\ n = slugBuilderPodName (appName l) (Short (gitSha l))
                 /\ pod = slugbuilderPod (Debug conf) n (PodNamespace conf)
                            (Values (appConf l)) (appName l +:+ "-build-env")
                            (TarKey (slugBuilderInfo l)) (PushKey (slugBuilderInfo l))
                            (if negb (DisableCaching (slugBuilderInfo l))
                             then CacheKey (slugBuilderInfo l) else "")
                            (Short (gitSha l)) (StorageType conf)
                            (index stack "image") (slugBuilderImagePullPolicy l) sel
                 /\ secrets w'
                    = <[(PodNamespace conf, appName l +:+ "-build-env")
                        := Values (appConf l)]> (secrets w)
                 /\ defers w'
                    = DeferDeleteSecret (PodNamespace conf) (appName l +:+ "-build-env")
                        :: defers w).
Proof.
  intros H. destruct w as [o s p b d t df]. destruct l.
  exec H.
  all: split; [solve_quiet|].
  all: split; [reflexivity|].
  all: split; [discriminate|].
  all: split; [discriminate|].
  all: intros pod' n' image' Hs; try discriminate.
  all: injection Hs as <- <- <-.
  all: do 2 (split; [reflexivity|]).
  all: eexists; split; [reflexivity|].
  all: cbv [secrets defers appName gitSha appConf slugName
            dockerBuilderImagePullPolicy slugBuilderImagePullPolicy].
  - do 3 (split; [reflexivity|]). eexists. split; [reflexivity|].
    eexists. split; [eassumption | reflexivity].
  - do 3 (split; [reflexivity|]). eexists. split; [reflexivity|].
    split; reflexivity.
  - repeat split; reflexivity.
Qed.

(** The loop over the container statuses leaves the world alone, and ends
    in one of three ways: every container has exited with code 0 and the
    loop falls through; the first container that has not done so has exited
    with another code, which is returned as an error; or that container has
    no [Terminated] state, and the loop panics. *)
Lemma checkExitCodes_cases (statuses : list ContainerStatus) (w : World) :
  (Forall exits_zero statuses /\ checkExitCodes statuses w = (Next tt, w))
  \/ (exists pre s post code,
        statuses = pre ++ s :: post /\ Forall exits_zero pre
        /\ exits_with code s /\ code <> 0
        /\ checkExitCodes statuses w = (Return (Some (BuilderFailed code)), w))
  \/ (exists pre s post,
        statuses = pre ++ s :: post /\ Forall exits_zero pre
        /\ Terminated (State s) = None
        /\ checkExitCodes statuses w = (Panic nil_dereference, w)).
Proof.
  induction statuses as [|s rest IH]; simpl.
  - left. split; [constructor | reflexivity].
  - destruct (Terminated (State s)) as [t|] eqn:Ht.
    + destruct (decide (ExitCode t <> 0)) as [Hc|Hc].
      * right; left. exists [], s, rest, (ExitCode t).
        repeat split; auto. exists t. auto.
      * assert (Hz : exits_zero s).
        { exists t. split; [assumption|].
          destruct (decide (ExitCode t = 0)); [assumption | contradiction]. }
        destruct IH as [[Hall Heq]
                       | [(pre & s' & post & c & -> & Hpre & Hs' & Hc' & Heq)
                         | (pre & s' & post & -> & Hpre & Hs' & Heq)]].
        -- left. split; [constructor; assumption | assumption].
        -- right; left. exists (s :: pre), s', post, c. repeat split; auto.
        -- right; right. exists (s :: pre), s', post. repeat split; auto.
    + right; right. exists [], s, rest. repeat split; auto.
Qed.

Lemma checkExitCodes_world (statuses : list ContainerStatus) (w w' : World) r :
  checkExitCodes statuses w = (r, w') -> w' = w /\ r <> Return None.
Proof.
  intros H.
  destruct (checkExitCodes_cases statuses w)
    as [[_ Heq] | [(? & ? & ? & ? & _ & _ & _ & _ & Heq) | (? & ? & ? & _ & _ & _ & Heq)]];
    rewrite Heq in H; injection H as <- <-; split; (reflexivity || discriminate).
Qed.

(** [publish] creates no pod, defers nothing and does not panic. Either
    the Procfile is not resolved, an error is returned and no release is
    requested; or exactly one release is requested, and the result is the
    controller's answer to it. *)
Lemma publish_spec env conf l stack image w r w' :
  publish env conf l stack image w = (r, w') ->
  pods w' = pods w /\ secrets w' = secrets w /\ defers w' = defers w
  /\ (exists t, trace w' = trace w ++ t)
  /\ (forall msg, r <> Panic msg)
  /\ ((builds w' = builds w /\ exists e, r = Return (Some e))
      \/ exists procType,
           let request := release_request conf l stack (published_image l stack image)
                            procType in
           builds w' = builds w ++ [request]
           /\ r = Return (publish_result (CreateBuild env request).2)).
Proof.
  intros H. destruct w as [o s p b d t df]. destruct l.
  unfold published_image.
  exec H.
  all: do 3 (split; [reflexivity|]).
  all: split; [cbv [trace]; solve_suffix|].
  all: split; [discriminate|].
  all: try (left; split; [reflexivity | eexists; reflexivity]).
  all: right; eexists; cbv zeta; cbv [builds release_request gitSha];
    split; [reflexivity|].
  all: match goal with H : CreateBuild _ _ = _ |- _ =>
         cbv [release_request gitSha] in H; rewrite H end.
  all: cbv [snd publish_result]; subst.
  all: repeat match goal with
         | |- context [decide (?a = ?b)] => destruct (decide (a = b)); try congruence
         end.
  all: try reflexivity.
Qed.

(** ** The deferred calls *)

(** A deferred call publishes nothing, creates no pod, pushes no deferred
    call, and falls through. *)
Lemma run_deferred_spec env d w r w' :
  run_deferred env d w = (r, w') ->
  r = Next tt /\ builds w' = builds w /\ pods w' = pods w
  /\ objects w' = objects w /\ defers w' = defers w
  /\ (exists t, trace w' = trace w ++ t).
Proof.
  intros H. destruct w as [o s p b ds t df]. destruct d.
  all: exec H.
  all: repeat split; try reflexivity.
  all: cbv [trace]; solve_suffix.
Qed.

Lemma run_defers_spec env ds w :
  builds (run_defers env ds w) = builds w
  /\ pods (run_defers env ds w) = pods w
  /\ objects (run_defers env ds w) = objects w
  /\ (exists t, trace (run_defers env ds w) = trace w ++ t).
Proof.
  revert w. induction ds as [|d ds IH]; intros w; simpl.
  - repeat split. exists []. symmetry. apply app_nil_r.
  - destruct (run_deferred env d w) as [r w1] eqn:Hd.
    apply run_deferred_spec in Hd as (_ & Hb & Hp & Ho & _ & [t1 Ht1]).
    destruct (IH w1) as (Hb' & Hp' & Ho' & [t2 Ht2]). simpl.
    repeat split; try congruence.
    exists (t1 ++ t2). rewrite Ht2, Ht1. symmetry. apply app_assoc.
Qed.





(** ** The phases in sequence *)

Lemma silent_bind {A B} (m : M A) (k : A -> M B) :
  silent m -> (forall a, silent (k a)) -> silent (m ≫= k).
Proof.
  intros Hm Hk w r w' H.
  apply bind_inv in H as [(a & w1 & H1 & H2) | [(err & H1 & ->) | (msg & H1 & ->)]].
  - destruct (Hm _ _ _ H1) as [Hq1 _]. destruct (Hk a _ _ _ H2) as [Hq2 Hr].
    split; [eapply quiet_trans; eassumption | assumption].
  - destruct (Hm _ _ _ H1) as [Hq Hr]. split; [assumption|].
    intros [= ->]. apply Hr. reflexivity.
  - destruct (Hm _ _ _ H1) as [Hq Hr]. split; [assumption | discriminate].
Qed.

Lemma silent_ret {A} (a : A) : silent (mret a : M A).
Proof.
  intros w r w' H. injection H as <- <-. split; [apply quiet_refl | discriminate].
Qed.

Lemma silent_prepare env conf raw : silent (prepare env conf raw).
Proof. intros w r w' H. apply prepare_spec in H. tauto. Qed.

Lemma silent_invalidateCache env l : silent (invalidateCache env l).
Proof. intros w r w' H. apply invalidateCache_spec in H. tauto. Qed.

Lemma silent_snapshot env l : silent (snapshot env l).
Proof. intros w r w' H. apply snapshot_spec in H. tauto. Qed.

Lemma silent_podSpec env conf l stack : silent (podSpec env conf l stack).
Proof. intros w r w' H. apply podSpec_spec in H. tauto. Qed.

Lemma silent_launch env conf stack pod n : silent (launch env conf stack pod n).
Proof. intros w r w' H. apply launch_spec in H. tauto. Qed.

Lemma silent_copyLogs env : silent (copyLogs env).
Proof. intros w r w' H. apply copyLogs_spec in H. tauto. Qed.

Lemma silent_awaitEnd env conf namespace name : silent (awaitEnd env conf namespace name).
Proof. intros w r w' H. apply awaitEnd_spec in H. tauto. Qed.

Lemma silent_checkExitCodes statuses : silent (checkExitCodes statuses).
Proof.
  intros w r w' H. apply checkExitCodes_world in H as [-> Hr].
  split; [apply quiet_refl | assumption].
Qed.

Lemma silent_before_podSpec env conf raw : silent (before_podSpec env conf raw).
Proof.
  unfold before_podSpec.
  apply silent_bind; [apply silent_prepare|]. intros l.
  apply silent_bind; [apply silent_invalidateCache|]. intros _.
  apply silent_bind; [apply silent_snapshot|]. intros stack.
  apply silent_ret.
Qed.

Lemma silent_before_copyLogs env conf raw : silent (before_copyLogs env conf raw).
Proof.
  unfold before_copyLogs.
  apply silent_bind; [apply silent_before_podSpec|]. intros [l stack].
  apply silent_bind; [apply silent_podSpec|]. intros [[pod n] image].
  apply silent_bind; [apply silent_launch|]. intros [namespace name].
  apply silent_ret.
Qed.

Lemma silent_before_checkExitCodes env conf raw :
  silent (before_checkExitCodes env conf raw).
Proof.
  unfold before_checkExitCodes.
  apply silent_bind; [apply silent_before_copyLogs|].
  intros [[[[l stack] image] namespace] name].
  apply silent_bind; [apply silent_copyLogs|]. intros _.
  apply silent_bind; [apply silent_awaitEnd|]. intros statuses.
  apply silent_ret.
Qed.

Lemma silent_before_publish env conf raw : silent (before_publish env conf raw).
Proof.
  unfold before_publish.
  apply silent_bind; [apply silent_before_checkExitCodes|].
  intros [[[l stack] image] statuses].
  apply silent_bind; [apply silent_checkExitCodes|]. intros _.
  apply silent_ret.
Qed.

(** The world when [build] is called and the world it starts from differ
    in the stack of deferred calls only. *)
Lemma start_fields (w : World) :
  builds (start w) = builds w /\ pods (start w) = pods w
  /\ secrets (start w) = secrets w /\ objects (start w) = objects w
  /\ trace (start w) = trace w /\ defers (start w) = [].
Proof. repeat split. Qed.

(** A build that has not come to [publish] has published nothing. *)
Lemma unpublished_build env conf key raw w r w1 :
  before_publish env conf raw (start w) = (r, w1) ->
  (forall x, r <> Next x) ->
  builds (build env conf key raw w).2 = builds w.
Proof.
  intros H Hr. unfold build, build_body.
  destruct (silent_before_publish _ _ _ _ _ _ H) as [(Hb & _ & _) _].
  destruct r as [x|err|msg]; [destruct (Hr x eq_refl)| |].
  - rewrite (bind_return _ _ _ _ _ H). simpl.
    destruct (run_defers_spec env (defers w1) (start w1)) as (-> & _). exact Hb.
  - rewrite (bind_panic _ _ _ _ _ H). simpl.
    destruct (run_defers_spec env (defers w1) (start w1)) as (-> & _). exact Hb.
Qed.

Lemma before_podSpec_inv env conf raw w l stack w' :
  before_podSpec env conf raw w = (Next (l, stack), w') ->
  exists w1 w2,
    prepare env conf raw w = (Next l, w1)
    /\ invalidateCache env l w1 = (Next tt, w2)
    /\ snapshot env l w2 = (Next stack, w').
Proof.
  unfold before_podSpec. intros H.
  bind_next_inv H. bind_next_inv H. bind_next_inv H.
  injection H as <- <- <-. destruct a0. eauto.
Qed.

Lemma before_copyLogs_inv env conf raw w l stack image namespace name w' :
  before_copyLogs env conf raw w = (Next (l, stack, image, namespace, name), w') ->
  exists w1 pod n w2,
    before_podSpec env conf raw w = (Next (l, stack), w1)
    /\ podSpec env conf l stack w1 = (Next (pod, n, image), w2)
    /\ launch env conf stack pod n w2 = (Next (namespace, name), w').
Proof.
  unfold before_copyLogs. intros H.
  bind_next_inv H. destruct a as [l0 stack0].
  bind_next_inv H. destruct a as [[pod n] image0].
  bind_next_inv H. destruct a as [namespace0 name0].
  injection H as <- <- <- <- <- <-. eauto 8.
Qed.

Lemma before_checkExitCodes_inv env conf raw w l stack image statuses w' :
  before_checkExitCodes env conf raw w = (Next (l, stack, image, statuses), w') ->
  exists namespace name w1 w2,
    before_copyLogs env conf raw w = (Next (l, stack, image, namespace, name), w1)
    /\ copyLogs env w1 = (Next tt, w2)
    /\ awaitEnd env conf namespace name w2 = (Next statuses, w').
Proof.
  unfold before_checkExitCodes. intros H.
  bind_next_inv H. destruct a as [[[[l0 stack0] image0] namespace] name].
  bind_next_inv H. destruct a.
  bind_next_inv H.
  injection H as <- <- <- <- <-. eauto 8.
Qed.

Lemma before_publish_inv env conf raw w l stack image w' :
  before_publish env conf raw w = (Next (l, stack, image), w') ->
  exists statuses,
    before_checkExitCodes env conf raw w = (Next (l, stack, image, statuses), w')
    /\ Forall exits_zero statuses.
Proof.
  unfold before_publish. intros H.
  bind_next_inv H. destruct a as [[[l0 stack0] image0] statuses].
  bind_next_inv H. injection H as <- <- <- <-.
  exists statuses.
  destruct (checkExitCodes_cases statuses w0)
    as [[Hall Heq] | [(? & ? & ? & ? & _ & _ & _ & _ & Heq) | (? & ? & ? & _ & _ & _ & Heq)]];
    rewrite Heq in Hstep0; try discriminate.
  injection Hstep0 as _ <-. split; assumption.
Qed.

(** A build that returns [nil] has gone through every phase: what the
    variables were, which pod was created, which release was requested and
    what the controller answered. *)
Lemma build_success env conf key raw w w' :
  build env conf key raw w = (Returned None, w') ->
  exists l stack pod n image namespace name statuses procType w3 w4,
    appName l = App conf /\ NewSha raw = Ok (gitSha l)
    /\ appConf l = (GetAppConfig env (Username conf) (App conf)).1
    /\ stack = getStack env (tmpDir l) (appConf l)
    /\ before_podSpec env conf raw (start w) = (Next (l, stack), w3)
    /\ podSpec env conf l stack w3 = (Next (pod, n, image), w4)
    /\ pods w3 = pods w
    /\ pods w' = pods w ++ [(PodNamespace conf, pod)]
    /\ getPod env namespace name = Ok statuses
    /\ namespace = pod_Namespace pod /\ name = pod_Name pod
    /\ Forall exits_zero statuses
    /\ builds w' = builds w
                   ++ [release_request conf l stack (published_image l stack image)
                         procType]
    /\ publish_result
         (CreateBuild env (release_request conf l stack (published_image l stack image)
                             procType)).2 = None.
Proof.
  unfold build. intros H.
  destruct (build_body env conf raw (start w)) as [flow w9] eqn:Hbody.
  unfold build_body in Hbody.
  injection H as Hout <-.
  destruct flow as [[]|err|msg]; simpl in Hout; [|discriminate].
  injection Hout as ->.
  apply bind_inv in Hbody
    as [([[l stack] image] & w8 & Hpre & Hpub) | [(err & Hpre & Herr) | (? & _ & ?)]];
    [ | | discriminate ].
  2:{ apply silent_before_publish in Hpre as [_ Hne]. congruence. }
  apply before_publish_inv in Hpre as (statuses & Hpre & Hall).
  apply before_checkExitCodes_inv in Hpre as (namespace & name & w5 & w6 & Hpre & Hcopy & Hend).
  apply before_copyLogs_inv in Hpre as (w3 & pod & n & w4 & Hpre & Hpod & Hlaunch).
  pose proof Hpre as Hpre0.
  apply before_podSpec_inv in Hpre as (w1 & w2 & Hprep & Hinv & Hsnap).
  apply prepare_spec in Hprep as ((Hb1 & _) & Hp1 & _ & _ & _ & _ & _ & Hl).
  destruct (Hl l eq_refl) as (Happ & Hsha & Hconf & _).
  apply invalidateCache_spec in Hinv as ((Hb2 & _) & Hp2 & _).
  apply snapshot_spec in Hsnap as ((Hb3 & _) & Hp3 & _ & _ & _ & Hstack).
  pose proof Hpod as Hpod0.
  apply podSpec_spec in Hpod as ((Hb4 & _) & Hp4 & _ & _ & _).
  apply launch_spec in Hlaunch as ((Hb5 & _) & _ & _ & _ & Hl5).
  destruct (Hl5 _ _ eq_refl) as (Hns & Hname & Hp5).
  apply copyLogs_spec in Hcopy as ((Hb6 & _) & Hp6 & _).
  apply awaitEnd_spec in Hend as ((Hb7 & _) & Hp7 & _ & _ & _ & Hst).
  apply publish_spec in Hpub as (Hp8 & _ & _ & _ & _ & Hrel).
  destruct (run_defers_spec env (defers w9) (start w9)) as (Hb9 & Hp9 & _).
  destruct (start_fields w) as (Hb0 & Hp0 & _).
  destruct (start_fields w9) as (Hb10 & Hp10 & _).
  destruct Hrel as [[_ [e He]] | [procType [Hb8 Hr]]]; [discriminate|].
  exists l, stack, pod, n, image, namespace, name, statuses, procType, w3, w4.
  repeat split; auto; try congruence.
Qed.

(** ** The image of the release *)

Lemma string_length_app (s1 s2 : string) :
  String.length (s1 +:+ s2) = (String.length s1 + String.length s2)%nat.
Proof. induction s1 as [|c s1 IH]; simpl; [reflexivity | rewrite IH; reflexivity]. Qed.

(** C1, as stated, fails: a successful build with stack name [container]
    and the on-cluster registry sends the bare application name [foo] to
    [CreateBuild], which is not [foo:git-abc12345] under any prefix. *)
Lemma on_cluster_image_is_untagged :
  exists request,
    (run_scenario container_scenario "on-cluster" ∅).1 = Returned None
    /\ builds (run_scenario container_scenario "on-cluster" ∅).2 = [request]
    /\ cb_stack request = "container"
    /\ cb_image request = "foo"
    /\ forall registry, cb_image request <> registry +:+ "foo:git-abc12345".
Proof.
  eexists. split; [vm_compute; reflexivity|].
  split; [vm_compute; reflexivity|].
  split; [reflexivity|]. split; [reflexivity|].
  intros registry H. apply (f_equal String.length) in H.
  rewrite string_length_app in H. simpl in H. lia.
Qed.

(** C1, amended: in a successful build exactly one release is requested.
    When the stack name is [container], its image is the bare application
    name with the on-cluster registry, and with any other registry the
    image name that the registry details give for the application, followed
    by [:git-{shortSha}]. When the stack name is anything else, its image is
    the slug object key of the application and the short SHA. *)
Theorem release_image env conf key raw w w' :
  build env conf key raw w = (Returned None, w') ->
  exists request sha,
    NewSha raw = Ok sha
    /\ builds w' = builds w ++ [request]
    /\ (cb_stack request = "container" ->
        (RegistryLocation conf = "on-cluster" -> cb_image request = App conf)
        /\ (RegistryLocation conf ≠ "on-cluster" ->
            exists registryEnv img,
              getRegistryDetails env (App conf) (RegistryLocation conf)
                (PodNamespace conf) = Ok (registryEnv, img)
              /\ cb_image request = img +:+ ":git-" +:+ Short sha))
    /\ (cb_stack request ≠ "container" ->
        exists disableCaching,
          cb_image request
          = AbsoluteSlugObjectKey (NewSlugBuilderInfo (App conf) (Short sha) disableCaching)).
Proof.
  intros H.
  apply build_success in H
    as (l & stack & pod & n & image & namespace & name & statuses & procType & w3 & w4
        & Happ & Hsha & _ & _ & _ & Hpod & _ & _ & _ & _ & _ & _ & Hb & _).
  eexists. exists (gitSha l). split; [exact Hsha|]. split; [exact Hb|].
  cbn [cb_stack cb_image release_request]. unfold published_image.
  apply podSpec_spec in Hpod as (_ & _ & _ & _ & Hspec).
  destruct (Hspec _ _ _ eq_refl) as (_ & _ & sel & _ & Hbranch).
  split.
  - intros Hname. rewrite Hname in *.
    destruct (decide ("container" ≠ "container")) as [Hne|_]; [destruct (Hne eq_refl)|].
    change (strings.Contains "container" "container") with true in Hbranch.
    cbv iota in Hbranch.
    destruct Hbranch as (_ & _ & _ & registryEnv & _ & Hreg).
    rewrite Happ in Hreg.
    destruct (decide (RegistryLocation conf ≠ "on-cluster")) as [Hoff|Hon].
    + split; [intros Hon; contradiction|]. intros _.
      destruct Hreg as (img & Hget & ->). eauto.
    + split; [|intros Hoff; contradiction]. intros _. apply Hreg.
  - intros Hname.
    destruct (decide (index stack "name" ≠ "container")) as [_|Hc]; [|contradiction].
    eexists. unfold slugBuilderInfo. rewrite Happ. reflexivity.
Qed.

Lemma release_image_witness :
  exists request sha registryEnv img,
    NewSha foo_sha = Ok sha
    /\ builds (run_scenario container_scenario "off-cluster" ∅).2 = [request]
    /\ cb_stack request = "container"
    /\ getRegistryDetails (scenario_env container_scenario) "foo" "off-cluster" "drycc"
       = Ok (registryEnv, img)
    /\ cb_image request = img +:+ ":git-" +:+ Short sha.
Proof.
  assert (Hrun : build (scenario_env container_scenario) (foo_conf "off-cluster")
                   "builder-key" foo_sha (world_with ∅)
                 = (Returned None, (run_scenario container_scenario "off-cluster" ∅).2))
    by (vm_compute; reflexivity).
  destruct (release_image _ _ _ _ _ _ Hrun) as (request & sha & Hsha & Hb & Hc & _).
  assert (Hreq : cb_stack request = "container").
  { vm_compute in Hb. injection Hb as <-. reflexivity. }
  destruct (Hc Hreq) as [_ Hoff].
  destruct (Hoff ltac:(discriminate)) as (registryEnv & img & Hget & Himg).
  exists request, sha, registryEnv, img. auto.
Defined.

(** The three cases of C1 on the scenarios: the tagged and prefixed image
    with an off-cluster registry, the bare name on the cluster, the slug
    key for a buildpack stack. *)
Example release_image_examples :
  cb_image <$> builds (run_scenario container_scenario "off-cluster" ∅).2
  = ["quay.io/foo:git-abc12345"]
  /\ cb_image <$> builds (run_scenario container_scenario "on-cluster" ∅).2 = ["foo"]
  /\ cb_image <$> builds (run_scenario buildpack_scenario "on-cluster" ∅).2
     = ["home/foo:git-abc12345/push/slug.tgz"].
Proof. compute_each. Qed.

(** ** The exit codes of the build pod *)

(** What [build] does once the pod has been fetched, when the loop over
    the container statuses does not fall through: it ends as the loop
    does, after the deferred calls. *)
Lemma build_at_inspection env conf key raw w l stack image statuses w1 :
  before_checkExitCodes env conf raw (start w) = (Next (l, stack, image, statuses), w1) ->
  (forall err, checkExitCodes statuses w1 = (Return err, w1) ->
     build env conf key raw w
     = (Returned err, run_defers env (defers w1) (start w1)))
  /\ (forall msg, checkExitCodes statuses w1 = (Panic msg, w1) ->
     build env conf key raw w
     = (Panicked msg, run_defers env (defers w1) (start w1))).
Proof.
  intros H. split.
  - intros err Hc. unfold build, build_body.
    assert (Hp : before_publish env conf raw (start w) = (Return err, w1)).
    { unfold before_publish. rewrite (bind_next _ _ _ _ _ H). simpl.
      apply bind_return. exact Hc. }
    rewrite (bind_return _ _ _ _ _ Hp). reflexivity.
  - intros msg Hc. unfold build, build_body.
    assert (Hp : before_publish env conf raw (start w) = (Panic msg, w1)).
    { unfold before_publish. rewrite (bind_next _ _ _ _ _ H). simpl.
      apply bind_panic. exact Hc. }
    rewrite (bind_panic _ _ _ _ _ Hp). reflexivity.
Qed.

Lemma exits_zero_has_terminated (s : ContainerStatus) : exits_zero s -> has_terminated s.
Proof. intros (t & Ht & _). exists t. exact Ht. Qed.

(** No build requests a release unless it has fetched its pod and every
    container of the pod has terminated with exit code 0. *)
Lemma release_requires_zero_exit env conf key raw w :
  builds (build env conf key raw w).2 <> builds w ->
  exists name statuses,
    getPod env (PodNamespace conf) name = Ok statuses /\ Forall exits_zero statuses.
Proof.
  intros Hb.
  destruct (before_publish env conf raw (start w)) as [r w8] eqn:Hpre.
  destruct r as [[[l stack] image]|err|msg].
  - apply before_publish_inv in Hpre as (statuses & Hpre & Hall).
    apply before_checkExitCodes_inv in Hpre
      as (namespace & name & w5 & w6 & Hpre & _ & Hend).
    apply before_copyLogs_inv in Hpre as (w3 & pod & n & w4 & _ & Hpod & Hlaunch).
    apply podSpec_spec in Hpod as (_ & _ & _ & _ & Hspec).
    destruct (Hspec _ _ _ eq_refl) as (_ & Hns & _).
    apply launch_spec in Hlaunch as (_ & _ & _ & _ & Hl).
    destruct (Hl _ _ eq_refl) as (-> & _ & _).
    apply awaitEnd_spec in Hend as (_ & _ & _ & _ & _ & Hget).
    exists name, statuses. rewrite <- Hns. split; [apply Hget; reflexivity | exact Hall].
  - exfalso. apply Hb. apply (unpublished_build _ _ _ _ _ _ _ Hpre). discriminate.
  - exfalso. apply Hb. apply (unpublished_build _ _ _ _ _ _ _ Hpre). discriminate.
Qed.

(** C4: when the build has fetched the pod and one of its container
    statuses reports an exit code other than 0, no release is requested
    ([builds] is as before the build), and the build returns the error
    [BuilderFailed] of a non-zero exit code of the pod; the only other end
    is the panic of the loop on a status without [Terminated] state. *)
Theorem nonzero_exit_fails_build env conf key raw w l stack image statuses w1 :
  before_checkExitCodes env conf raw (start w) = (Next (l, stack, image, statuses), w1) ->
  (exists s code, s ∈ statuses /\ exits_with code s /\ code <> 0) ->
  builds (build env conf key raw w).2 = builds w
  /\ ((exists s code,
         s ∈ statuses /\ exits_with code s /\ code <> 0
         /\ (build env conf key raw w).1 = Returned (Some (BuilderFailed code)))
      \/ ((build env conf key raw w).1 = Panicked nil_dereference
          /\ ~ Forall has_terminated statuses)).
Proof.
  intros H (s0 & code0 & Hin0 & (t0 & Ht0 & Hcode0) & Hne0).
  destruct (build_at_inspection env conf key raw w l stack image statuses w1 H)
    as [Hret Hpanic].
  destruct (silent_before_checkExitCodes _ _ _ _ _ _ H) as [(Hb & _ & _) _].
  destruct (run_defers_spec env (defers w1) (start w1)) as (Hbd & _).
  destruct (checkExitCodes_cases statuses w1)
    as [[Hall Heq]
       | [(pre & s & post & code & -> & Hpre & Hs & Hc & Heq)
         | (pre & s & post & -> & Hpre & Hs & Heq)]].
  - exfalso. rewrite Forall_forall in Hall.
    destruct (Hall _ Hin0) as (t & Ht & Hz). congruence.
  - rewrite (Hret _ Heq). simpl. split; [rewrite Hbd; exact Hb|].
    left. exists s, code. repeat split; auto.
    apply elem_of_app. right. apply elem_of_cons. left. reflexivity.
  - rewrite (Hpanic _ Heq). simpl. split; [rewrite Hbd; exact Hb|].
    right. split; [reflexivity|]. intros Hterm.
    rewrite Forall_forall in Hterm.
    assert (Hin : s ∈ pre ++ s :: post)
      by (apply elem_of_app; right; apply elem_of_cons; left; reflexivity).
    destruct (Hterm s Hin) as [t Ht]. congruence.
Qed.

(** The builder failure scenario: the pod of the buildpack build has a
    container that exits with code 7. *)
Lemma nonzero_exit_fails_build_witness :
  let sc := with_statuses [exited 0; exited 7] buildpack_scenario in
  builds (run_scenario sc "on-cluster" ∅).2 = builds (world_with ∅)
  /\ ((exists s code,
         s ∈ [exited 0; exited 7] /\ exits_with code s /\ code <> 0
         /\ (run_scenario sc "on-cluster" ∅).1 = Returned (Some (BuilderFailed code)))
      \/ ((run_scenario sc "on-cluster" ∅).1 = Panicked nil_dereference
          /\ ~ Forall has_terminated [exited 0; exited 7])).
Proof.
  intros sc.
  assert (Hrun : exists l stack image w1,
             before_checkExitCodes (scenario_env sc) (foo_conf "on-cluster") foo_sha
               (start (world_with ∅))
             = (Next (l, stack, image, [exited 0; exited 7]), w1))
    by (vm_compute; do 4 eexists; reflexivity).
  destruct Hrun as (l & stack & image & w1 & Hrun).
  apply (nonzero_exit_fails_build _ _ "builder-key" _ _ _ _ _ _ _ Hrun).
  exists (exited 7), 7.
  split; [apply elem_of_cons; right; apply elem_of_cons; left; reflexivity|].
  split; [|discriminate].
  eexists. split; reflexivity.
Defined.

Example builder_failure_scenario :
  run_scenario (with_statuses [exited 7] buildpack_scenario) "on-cluster" ∅
  = (Returned (Some (ErrorString "build pod exited with code 7, stopping build")),
     (run_scenario (with_statuses [exited 7] buildpack_scenario) "on-cluster" ∅).2)
  /\ builds (run_scenario (with_statuses [exited 7] buildpack_scenario) "on-cluster" ∅).2
     = []
  /\ secrets (run_scenario (with_statuses [exited 7] buildpack_scenario) "on-cluster" ∅).2
     = ∅.
Proof. compute_each. Qed.

(** ** The [Terminated] state is read without a nil check *)

(** C10, as stated, fails: the loop returns at the first status with a
    non-zero exit code and reads no status after it. On a pod whose first
    container has exited with code 7 and whose second carries no
    [Terminated] state, not every status carries one, and yet the loop does
    not panic on any world: it returns the failure of the builder, and so
    does the build. *)
Lemma failed_container_hides_nil :
  let statuses := [exited 7; still_running] in
  ~ Forall has_terminated statuses
  /\ (forall w, checkExitCodes statuses w = (Return (Some (BuilderFailed 7)), w))
  /\ (forall w msg w', checkExitCodes statuses w <> (Panic msg, w'))
  /\ (run_scenario (with_statuses statuses buildpack_scenario) "on-cluster" ∅).1
     = Returned (Some (BuilderFailed 7)).
Proof.
  intros statuses. subst statuses. split; [|split; [|split]].
  - intros H. apply Forall_cons_1 in H as [_ H]. apply Forall_cons_1 in H as [[t Ht] _].
    discriminate Ht.
  - intros w. reflexivity.
  - intros w msg w' H. discriminate H.
  - vm_compute. reflexivity.
Qed.

(** C10, amended: the loop over the container statuses reads
    [State.Terminated.ExitCode] of each status it comes to, with no nil
    check, and it comes to the statuses in order, up to and including the
    first one with a non-zero exit code. When every status carries a
    [Terminated] state it does not panic. A status without one, met before
    any non-zero exit code, is a nil pointer dereference, in the loop and in
    the build that runs it. When no container has failed, which is the only
    case in which the build can go on, the loop is free of the nil
    dereference only if every status carries a [Terminated] state. In
    general the loop panics if and only if a status without a [Terminated]
    state comes after statuses that all have exit code 0: it is free of the
    nil dereference exactly when every status up to and including the first
    with a non-zero exit code, or every status when there is none, carries a
    [Terminated] state. The statuses after the first one that has not exit
    code 0 are not read: they have no say in what the loop does. *)
Theorem terminated_nil_dereference (statuses : list ContainerStatus) (w : World) :
  (Forall has_terminated statuses ->
   forall msg w', checkExitCodes statuses w <> (Panic msg, w'))
  /\ (forall pre s post,
        statuses = pre ++ s :: post -> Forall exits_zero pre ->
        Terminated (State s) = None ->
        checkExitCodes statuses w = (Panic nil_dereference, w)
        /\ forall env conf key raw w0 l stack image,
             before_checkExitCodes env conf raw (start w0)
             = (Next (l, stack, image, statuses), w) ->
             (build env conf key raw w0).1 = Panicked nil_dereference
             /\ builds (build env conf key raw w0).2 = builds w0)
  /\ ((forall s code, s ∈ statuses -> exits_with code s -> code = 0) ->
      (forall msg w', checkExitCodes statuses w <> (Panic msg, w')) ->
      Forall has_terminated statuses)
  /\ ((exists msg w', checkExitCodes statuses w = (Panic msg, w'))
      <-> (exists pre s post,
             statuses = pre ++ s :: post /\ Forall exits_zero pre
             /\ Terminated (State s) = None))
  /\ (forall pre s post post',
        statuses = pre ++ s :: post -> Forall exits_zero pre -> ~ exits_zero s ->
        checkExitCodes (pre ++ s :: post') w = checkExitCodes statuses w).
Proof.
  assert (Hnil : forall pre s post,
            Forall exits_zero pre -> Terminated (State s) = None ->
            checkExitCodes (pre ++ s :: post) w = (Panic nil_dereference, w)).
  { intros pre s post Hpre Hs. induction Hpre as [|s0 pre (t & Ht & Hz) _ IH]; simpl.
    - rewrite Hs. reflexivity.
    - rewrite Ht. destruct (decide (ExitCode t <> 0)); [contradiction | exact IH]. }
  split; [|split; [|split; [|split]]].
  - intros Hterm msg w' Hpanic.
    destruct (checkExitCodes_cases statuses w)
      as [[_ Heq]
         | [(? & ? & ? & ? & _ & _ & _ & _ & Heq)
           | (pre & s & post & -> & _ & Hs & _)]].
    + congruence.
    + congruence.
    + rewrite Forall_forall in Hterm.
      assert (Hin : s ∈ pre ++ s :: post)
        by (apply elem_of_app; right; apply elem_of_cons; left; reflexivity).
      destruct (Hterm s Hin) as [t Ht]. congruence.
  - intros pre s post -> Hpre Hs.
    pose proof (Hnil pre s post Hpre Hs) as Hpanic.
    split; [exact Hpanic|].
    intros env conf key raw w0 l stack image Hrun.
    destruct (build_at_inspection env conf key raw w0 l stack image _ w Hrun)
      as [_ Hbuild].
    rewrite (Hbuild _ Hpanic). simpl. split; [reflexivity|].
    destruct (silent_before_checkExitCodes _ _ _ _ _ _ Hrun) as [(Hb & _ & _) _].
    destruct (run_defers_spec env (defers w) (start w)) as (-> & _). exact Hb.
  - intros Hzero Hsafe.
    destruct (checkExitCodes_cases statuses w)
      as [[Hall _]
         | [(pre & s & post & code & -> & _ & Hs & Hc & _)
           | (? & ? & ? & _ & _ & _ & Heq)]].
    + eapply Forall_impl; [exact Hall | apply exits_zero_has_terminated].
    + exfalso. apply Hc. apply (Hzero s); [|exact Hs].
      apply elem_of_app; right; apply elem_of_cons; left; reflexivity.
    + exfalso. exact (Hsafe _ _ Heq).
  - split.
    + intros (msg & w' & Hpanic).
      destruct (checkExitCodes_cases statuses w)
        as [[_ Heq]
           | [(? & ? & ? & ? & _ & _ & _ & _ & Heq)
             | (pre & s & post & -> & Hpre & Hs & _)]].
      * congruence.
      * congruence.
      * exists pre, s, post. auto.
    + intros (pre & s & post & -> & Hpre & Hs).
      exists nil_dereference, w. exact (Hnil pre s post Hpre Hs).
  - intros pre s post post' -> Hpre Hs.
    induction Hpre as [|s0 pre (t & Ht & Hz) _ IH]; simpl.
    + destruct (Terminated (State s)) as [t|] eqn:Ht; [|reflexivity].
      destruct (decide (ExitCode t <> 0)) as [Hc|Hc]; [reflexivity|].
      exfalso. apply Hs. exists t. split; [exact Ht|].
      destruct (decide (ExitCode t = 0)); [assumption | contradiction].
    + rewrite Ht. destruct (decide (ExitCode t <> 0)); [contradiction | exact IH].
Qed.

(** A pod whose second container carries no [Terminated] state: the loop
    panics, and so does the build; with both containers terminated with
    code 0 it does not. *)
Lemma terminated_nil_dereference_witness :
  let sc := with_statuses [exited 0; still_running] buildpack_scenario in
  (forall msg w', checkExitCodes [exited 0; exited 0] (world_with ∅) <> (Panic msg, w'))
  /\ checkExitCodes [exited 0; still_running] (world_with ∅)
     = (Panic nil_dereference, world_with ∅)
  /\ (run_scenario sc "on-cluster" ∅).1 = Panicked nil_dereference
  /\ builds (run_scenario sc "on-cluster" ∅).2 = [].
Proof.
  intros sc.
  assert (Hzero : exits_zero (exited 0)) by (eexists; split; reflexivity).
  assert (Hterm : has_terminated (exited 0)) by (eexists; reflexivity).
  split; [|split].
  - apply (terminated_nil_dereference [exited 0; exited 0] (world_with ∅)).
    repeat constructor; exact Hterm.
  - destruct (terminated_nil_dereference [exited 0; still_running] (world_with ∅))
      as (_ & Hnil & _).
    apply (Hnil [exited 0] still_running [] eq_refl).
    + constructor; [exact Hzero | constructor].
    + reflexivity.
  - assert (Hrun : exists l stack image w1,
               before_checkExitCodes (scenario_env sc) (foo_conf "on-cluster") foo_sha
                 (start (world_with ∅))
               = (Next (l, stack, image, [exited 0; still_running]), w1))
      by (vm_compute; do 4 eexists; reflexivity).
    destruct Hrun as (l & stack & image & w1 & Hrun).
    destruct (terminated_nil_dereference [exited 0; still_running] w1)
      as (_ & Hnil & _).
    destruct (Hnil [exited 0] still_running [] eq_refl) as [_ Hbuild].
    + constructor; [exact Hzero | constructor].
    + reflexivity.
    + exact (Hbuild _ _ "builder-key" _ _ _ _ _ Hrun).
Defined.

(** ** A broken log stream *)

Lemma run_deferred_cleanup env d w :
  exists t, trace (run_deferred env d w).2 = trace w ++ t
            /\ forallb (fun e => negb (inspects_pod e)) t = true.
Proof.
  destruct (run_deferred env d w) as [r w'] eqn:H.
  destruct w as [o s p b ds t df]. destruct d.
  all: exec H; cbv [trace snd]; rewrite <- ?app_assoc.
  all: eexists; split; reflexivity.
Qed.

Lemma run_defers_cleanup env ds w :
  exists t, trace (run_defers env ds w) = trace w ++ t
            /\ forallb (fun e => negb (inspects_pod e)) t = true.
Proof.
  revert w. induction ds as [|d ds IH]; intros w; simpl.
  - exists []. split; [symmetry; apply app_nil_r | reflexivity].
  - destruct (run_deferred_cleanup env d w) as (t1 & Ht1 & Hc1).
    destruct (IH (run_deferred env d w).2) as (t2 & Ht2 & Hc2).
    exists (t1 ++ t2). split.
    + rewrite Ht2, Ht1. symmetry. apply app_assoc.
    + rewrite forallb_app, Hc1, Hc2. reflexivity.
Qed.

(** The copy of a stream that ends in an error: the bytes are written, and
    the wrapped error is returned. *)
Lemma copyLogs_broken env w bytes e :
  logStream env = (bytes, Some e) ->
  copyLogs env w
  = (Return (Some (Errorf ("fetching builder logs (" +:+ Error e +:+ ")"))),
     with_trace (fun t => t ++ [Stdout bytes]) w).
Proof. intros H. unfold copyLogs. rewrite H. reflexivity. Qed.

(** C2, as stated, fails: the buildpack build whose pod exits with code 0
    succeeds when the log stream is copied to its end, and fails with the
    error of the copy, without any release, when the stream breaks. *)
Lemma broken_stream_fails_build :
  (run_scenario buildpack_scenario "on-cluster" ∅).1 = Returned None
  /\ getPod (scenario_env broken_stream_scenario) "drycc" "slug-foo-abc12345"
     = Ok [exited 0]
  /\ (run_scenario broken_stream_scenario "on-cluster" ∅).1
     = Returned (Some (ErrorString "fetching builder logs (unexpected EOF)"))
  /\ builds (run_scenario broken_stream_scenario "on-cluster" ∅).2 = [].
Proof. compute_each. Qed.

(** C2, amended: when the build has opened the log stream and the copy of
    the stream to the standard output ends in an error, the build returns
    that error, wrapped as [fetching builder logs (...)]; it requests no
    release, and after the bytes of the stream it does nothing but run its
    deferred calls: the end of the pod is not awaited and the pod is not
    fetched, so the exit codes have no say. *)
Theorem broken_log_stream env conf key raw w vars w1 bytes e :
  before_copyLogs env conf raw (start w) = (Next vars, w1) ->
  logStream env = (bytes, Some e) ->
  (build env conf key raw w).1
  = Returned (Some (Errorf ("fetching builder logs (" +:+ Error e +:+ ")")))
  /\ builds (build env conf key raw w).2 = builds w
  /\ exists t,
       trace (build env conf key raw w).2 = trace w1 ++ Stdout bytes :: t
       /\ forallb (fun ev => negb (inspects_pod ev)) t = true.
Proof.
  intros Hrun Hlog.
  destruct vars as [[[[l stack] image] namespace] name].
  remember (with_trace (fun t => t ++ [Stdout bytes]) w1) as w2 eqn:Hw2.
  pose (err := Some (Errorf ("fetching builder logs (" +:+ Error e +:+ ")"))).
  assert (Hcheck : before_checkExitCodes env conf raw (start w) = (Return err, w2)).
  { unfold before_checkExitCodes. rewrite (bind_next _ _ _ _ _ Hrun). simpl.
    apply bind_return. rewrite Hw2. apply copyLogs_broken. exact Hlog. }
  assert (Hpub : before_publish env conf raw (start w) = (Return err, w2)).
  { unfold before_publish. apply bind_return. exact Hcheck. }
  unfold build, build_body. rewrite (bind_return _ _ _ _ _ Hpub).
  cbn [fst snd outcome].
  split; [reflexivity|].
  destruct (run_defers_spec env (defers w2) (start w2)) as (Hb & _).
  destruct (run_defers_cleanup env (defers w2) (start w2)) as (t & Ht & Hc).
  destruct (silent_before_copyLogs _ _ _ _ _ _ Hrun) as [(Hb1 & _ & _) _].
  split.
  - rewrite Hb, Hw2. exact Hb1.
  - exists t. split; [|exact Hc]. rewrite Ht, Hw2. simpl.
    rewrite <- app_assoc. reflexivity.
Qed.

Lemma broken_log_stream_witness :
  (run_scenario broken_stream_scenario "on-cluster" ∅).1
  = Returned (Some (Errorf ("fetching builder logs ("
                            +:+ Error (ErrorString "unexpected EOF") +:+ ")")))
  /\ builds (run_scenario broken_stream_scenario "on-cluster" ∅).2
     = builds (world_with ∅).
Proof.
  assert (Hrun : exists vars w1,
             before_copyLogs (scenario_env broken_stream_scenario)
               (foo_conf "on-cluster") foo_sha (start (world_with ∅))
             = (Next vars, w1))
    by (vm_compute; do 2 eexists; reflexivity).
  destruct Hrun as (vars & w1 & Hrun).
  destruct (broken_log_stream _ _ "builder-key" _ _ _ _ "-----> Compiled"
              (ErrorString "unexpected EOF") Hrun eq_refl) as (Hout & Hb & _).
  split; assumption.
Defined.

(** ** The API version mismatch *)

(** A build whose preparation returns ends with what it returns, after
    the deferred calls, and has requested no release. *)
Lemma build_prepare_return env conf key raw w err w1 :
  prepare env conf raw (start w) = (Return err, w1) ->
  build env conf key raw w = (Returned err, run_defers env (defers w1) (start w1))
  /\ builds (build env conf key raw w).2 = builds w.
Proof.
  intros H.
  assert (H1 : before_podSpec env conf raw (start w) = (Return err, w1))
    by (unfold before_podSpec; apply bind_return; exact H).
  assert (H2 : before_copyLogs env conf raw (start w) = (Return err, w1))
    by (unfold before_copyLogs; apply bind_return; exact H1).
  assert (H3 : before_checkExitCodes env conf raw (start w) = (Return err, w1))
    by (unfold before_checkExitCodes; apply bind_return; exact H2).
  assert (H4 : before_publish env conf raw (start w) = (Return err, w1))
    by (unfold before_publish; apply bind_return; exact H3).
  split.
  - unfold build, build_body. rewrite (bind_return _ _ _ _ _ H4). reflexivity.
  - apply (unpublished_build _ _ _ _ _ _ _ H4). discriminate.
Qed.

Lemma app_singleton_neq {A} (l : list A) (x : A) : l ++ [x] <> l.
Proof.
  intros H. apply (f_equal length) in H. rewrite length_app in H. simpl in H. lia.
Qed.

(** A build that has requested the release [request] ends with the
    controller's answer to it, as [publish] returns it. *)
Lemma build_published env conf key raw w out w' request :
  build env conf key raw w = (out, w') ->
  builds w' = builds w ++ [request] ->
  out = Returned (publish_result (CreateBuild env request).2).
Proof.
  intros Hbuild Hb.
  destruct (before_publish env conf raw (start w)) as [r w8] eqn:Hpre.
  destruct r as [[[l stack] image]|err|msg].
  - unfold build, build_body in Hbuild. rewrite (bind_next _ _ _ _ _ Hpre) in Hbuild.
    simpl in Hbuild.
    destruct (publish env conf l stack image w8) as [flow w9] eqn:Hpub.
    injection Hbuild as <- <-.
    destruct (silent_before_publish _ _ _ _ _ _ Hpre) as [(Hb8 & _ & _) _].
    destruct (run_defers_spec env (defers w9) (start w9)) as (Hb9 & _).
    apply publish_spec in Hpub as (_ & _ & _ & _ & _ & Hrel).
    destruct Hrel as [[Hsame _] | [procType [Hreq ->]]].
    + exfalso. apply (app_singleton_neq (builds w) request).
      rewrite <- Hb, Hb9. change (builds (start w9)) with (builds w9).
      rewrite Hsame. exact Hb8.
    + assert (Heq : builds w ++ [request]
                    = builds w ++ [release_request conf l stack
                                     (published_image l stack image) procType]).
      { rewrite <- Hb, Hb9. change (builds (start w9)) with (builds w9).
        rewrite Hreq, Hb8. reflexivity. }
      apply app_inv_head in Heq. injection Heq as ->. reflexivity.
  - exfalso. apply (app_singleton_neq (builds w) request). rewrite <- Hb.
    replace w' with (build env conf key raw w).2 by (rewrite Hbuild; reflexivity).
    apply (unpublished_build _ _ _ _ _ _ _ Hpre). discriminate.
  - exfalso. apply (app_singleton_neq (builds w) request). rewrite <- Hb.
    replace w' with (build env conf key raw w).2 by (rewrite Hbuild; reflexivity).
    apply (unpublished_build _ _ _ _ _ _ _ Hpre). discriminate.
Qed.

(** [publish], once it has requested the release [request]: the request is
    followed by the end of the progress dots and then by what the response
    asks for. *)
Lemma publish_response env conf l stack image w r w' request :
  publish env conf l stack image w = (r, w') ->
  builds w' = builds w ++ [request] ->
  exists t1 t2,
    trace w' = trace w ++ t1 ++ [HookCreateBuild request; ProgressQuit] ++ t2
    /\ release_response env (client l) (appName l) (CreateBuild env request)
         (outcome r) t2.
Proof.
  intros H Hb. destruct w as [o s p b d t df].
  destruct l as [dp sp sha an rd td sn cl ac]. cbv [appName client].
  exec H.
  all: cbv [builds] in Hb.
  all: try (exfalso; apply (app_singleton_neq b request); symmetry; exact Hb).
  all: apply app_inv_head in Hb; injection Hb as Hb.
  all: cbv [release_request gitSha] in *; rewrite Hb in *.
  all: match goal with H : CreateBuild _ _ = _ |- _ => rewrite H end.
  all: cbv [trace release_response outcome done_line api_warning]; rewrite <- ?app_assoc.
  all: subst.
  all: repeat match goal with
         | |- context [decide (?a = ?b)] => destruct (decide (a = b)); try congruence
         end.
  all: cbn [app].
  all: lazymatch goal with
       | |- exists t1 t2, _ ++ ?l = @?r t1 t2 /\ @?P t1 t2 =>
           let rec go pre l :=
             lazymatch l with
             | HookCreateBuild _ :: ProgressQuit :: ?rest => exists pre, rest
             | ?a :: ?l' => go constr:(pre ++ [a]) l'
             end in
           go constr:(@nil Event) l
       end.
  all: split; [cbn [app]; reflexivity|].
  all: try (split; [reflexivity|]; eexists; reflexivity).
  all: try reflexivity.
Qed.

(** C5: [CheckAPICompat] turns the mismatch sentinel into [nil] after
    logging the warning, and returns every other error as it is. In
    [build], when [GetAppConfig] is reached: with [nil] or the sentinel the
    build goes on with the configuration of the response (after the
    warning, for the sentinel), and any other error is returned by the
    build, which requests no release. When [CreateBuild] has been called:
    with [nil] or the sentinel the build returns [nil], and any other error
    fails the build; and the call is followed, for [nil], by the line that
    announces the release number of the response, for the sentinel, by the
    warning and then by that line, so that the build goes on with the
    response there too. *)
Theorem api_mismatch_tolerated env conf key raw w :
  (forall c w0,
     controller.CheckAPICompat env c (Some ErrAPIMismatch) w0
     = (Next None, with_trace (fun t => t ++ [api_warning env c]) w0)
     /\ forall err, err <> Some ErrAPIMismatch ->
          controller.CheckAPICompat env c err w0 = (Next err, w0))
  /\ (forall vars w1 cfg err,
        setup env conf raw (start w) = (Next vars, w1) ->
        GetAppConfig env (Username conf) (App conf) = (cfg, err) ->
        let called :=
          with_trace (fun t => t ++ [HookGetAppConfig (Username conf) (App conf)]) w1 in
        match err with
        | None =>
            prepare env conf raw (start w) = (Next (locals conf vars cfg), called)
        | Some e =>
            if decide (e = ErrAPIMismatch)
            then prepare env conf raw (start w)
                 = (Next (locals conf vars cfg),
                    with_trace (fun t => t ++ [api_warning env vars.2]) called)
            else (build env conf key raw w).1 = Returned (Some e)
                 /\ builds (build env conf key raw w).2 = builds w
        end)
  /\ (forall out w' request,
        build env conf key raw w = (out, w') ->
        builds w' = builds w ++ [request] ->
        out = Returned
                match (CreateBuild env request).2 with
                | None => None
                | Some e =>
                    if decide (e = ErrAPIMismatch) then None
                    else Some (Errorf
                                 ("The controller returned an error when publishing the release: "
                                  +:+ Error e))
                end)
  /\ (forall out w' request,
        build env conf key raw w = (out, w') ->
        builds w' = builds w ++ [request] ->
        exists l stack image w8 t1 t2,
          before_publish env conf raw (start w) = (Next (l, stack, image), w8)
          /\ appName l = App conf
          /\ trace w' = trace w ++ t1 ++ [HookCreateBuild request; ProgressQuit] ++ t2
          /\ release_response env (client l) (App conf) (CreateBuild env request) out t2).
Proof.
  split; [|split; [|split]].
  - intros c w0. split.
    + reflexivity.
    + intros err Hne. unfold controller.CheckAPICompat.
      destruct (decide (err = Some ErrAPIMismatch)); [contradiction | reflexivity].
  - intros vars w1 cfg err Hsetup Hget called.
    assert (Hprep : prepare env conf raw (start w) = fetchAppConfig env conf vars w1)
      by (unfold prepare; apply bind_next; exact Hsetup).
    assert (Hfetch : fetchAppConfig env conf vars w1
                     = match err with
                       | None => (Next (locals conf vars cfg), called)
                       | Some e =>
                           if decide (e = ErrAPIMismatch)
                           then (Next (locals conf vars cfg),
                                 with_trace (fun t => t ++ [api_warning env vars.2]) called)
                           else (Return (Some e), called)
                       end).
    { unfold fetchAppConfig, controller.CheckAPICompat, mbind, M_bind, emit, modify.
      rewrite Hget. destruct err as [e|].
      - destruct (decide (e = ErrAPIMismatch)) as [->|Hne].
        + reflexivity.
        + destruct (decide (Some e = Some ErrAPIMismatch)) as [Heq|_];
            [congruence | reflexivity].
      - reflexivity. }
    rewrite Hfetch in Hprep. destruct err as [e|]; [|exact Hprep].
    destruct (decide (e = ErrAPIMismatch)); [exact Hprep|].
    destruct (build_prepare_return env conf key raw w _ _ Hprep) as [-> Hb].
    split; [reflexivity | exact Hb].
  - intros out w' request Hbuild Hb.
    exact (build_published env conf key raw w out w' request Hbuild Hb).
  - intros out w' request Hbuild Hb.
    destruct (before_publish env conf raw (start w)) as [r w8] eqn:Hpre.
    destruct r as [[[l stack] image]|err|msg].
    2,3: exfalso; apply (app_singleton_neq (builds w) request); rewrite <- Hb;
         replace w' with (build env conf key raw w).2 by (rewrite Hbuild; reflexivity);
         apply (unpublished_build _ _ _ _ _ _ _ Hpre); discriminate.
    unfold build, build_body in Hbuild. rewrite (bind_next _ _ _ _ _ Hpre) in Hbuild.
    simpl in Hbuild.
    destruct (publish env conf l stack image w8) as [flow w9] eqn:Hpub.
    injection Hbuild as <- <-.
    destruct (silent_before_publish _ _ _ _ _ _ Hpre) as [(Hb8 & _ & t8 & Ht8) _].
    change (trace (start w)) with (trace w) in Ht8.
    destruct (run_defers_spec env (defers w9) (start w9)) as (Hb9 & _ & _ & t9 & Ht9).
    change (trace (start w9)) with (trace w9) in Ht9.
    assert (Hb' : builds w9 = builds w8 ++ [request]).
    { rewrite Hb8. change (builds (start w)) with (builds w). rewrite <- Hb, Hb9.
      reflexivity. }
    destruct (publish_response _ _ _ _ _ _ _ _ _ Hpub Hb') as (t1 & t2 & Ht & Hresp).
    assert (Happ : appName l = App conf).
    { pose proof Hpre as Hq. apply before_publish_inv in Hq as (statuses & Hq & _).
      apply before_checkExitCodes_inv in Hq as (namespace & name & w5 & w6 & Hq & _).
      apply before_copyLogs_inv in Hq as (w3 & pod & n & w4 & Hq & _).
      apply before_podSpec_inv in Hq as (w1 & w2 & Hq & _).
      apply prepare_spec in Hq as (_ & _ & _ & _ & _ & _ & _ & Hq).
      exact (proj1 (Hq l eq_refl)). }
    exists l, stack, image, w8, (t8 ++ t1), (t2 ++ t9).
    split; [reflexivity|]. split; [exact Happ|]. split.
    + rewrite Ht9, Ht, Ht8, <- !app_assoc. reflexivity.
    + rewrite <- Happ. unfold release_response in *.
      destruct (CreateBuild env request) as [release err].
      destruct err as [e|].
      * destruct (decide (e = ErrAPIMismatch)).
        -- destruct Hresp as (Hr & t' & ->). split; [exact Hr|].
           exists (t' ++ t9). reflexivity.
        -- exact Hresp.
      * destruct Hresp as (Hr & t' & ->). split; [exact Hr|].
        exists (t' ++ t9). reflexivity.
Qed.

(** The API mismatch scenario, a rejected release and an unknown
    application: the first build succeeds although both calls answer with
    the sentinel, and after [CreateBuild] it logs the warning and then
    announces the release 1 of the response; the other two fail with the
    controller's error. *)
Lemma api_mismatch_tolerated_witness :
  (exists vars w1 w2,
     setup (scenario_env api_mismatch_scenario) (foo_conf "on-cluster") foo_sha
       (start (world_with ∅)) = (Next vars, w1)
     /\ prepare (scenario_env api_mismatch_scenario) (foo_conf "on-cluster") foo_sha
          (start (world_with ∅))
        = (Next (locals (foo_conf "on-cluster") vars {| Values := ∅ |}), w2))
  /\ (run_scenario api_mismatch_scenario "on-cluster" ∅).1 = Returned None
  /\ (run_scenario rejected_release_scenario "on-cluster" ∅).1
     = Returned (Some (ErrorString
          "The controller returned an error when publishing the release: 409 Conflict"))
  /\ ((run_scenario unknown_app_scenario "on-cluster" ∅).1
      = Returned (Some (ErrorString "404 Not Found"))
      /\ builds (run_scenario unknown_app_scenario "on-cluster" ∅).2 = [])
  /\ (exists request c t1 t3,
        trace (run_scenario api_mismatch_scenario "on-cluster" ∅).2
        = t1 ++ [HookCreateBuild request; ProgressQuit;
                 api_warning (scenario_env api_mismatch_scenario) c;
                 done_line "foo" 1] ++ t3).
Proof.
  split; [|split; [|split; [|split]]].
  - assert (Hs : exists vars w1,
               setup (scenario_env api_mismatch_scenario) (foo_conf "on-cluster") foo_sha
                 (start (world_with ∅)) = (Next vars, w1))
      by (vm_compute; do 2 eexists; reflexivity).
    destruct Hs as (vars & w1 & Hs).
    destruct (api_mismatch_tolerated (scenario_env api_mismatch_scenario)
                (foo_conf "on-cluster") "builder-key" foo_sha (world_with ∅))
      as (_ & Hconfig & _).
    specialize (Hconfig vars w1 {| Values := ∅ |} (Some ErrAPIMismatch) Hs eq_refl).
    cbv beta iota zeta in Hconfig.
    destruct (decide (ErrAPIMismatch = ErrAPIMismatch)) as [_|Hne];
      [| destruct (Hne eq_refl)].
    eauto.
  - assert (Hb : exists request,
               builds (build (scenario_env api_mismatch_scenario) (foo_conf "on-cluster")
                         "builder-key" foo_sha (world_with ∅)).2
               = builds (world_with ∅) ++ [request])
      by (vm_compute; eexists; reflexivity).
    destruct Hb as [request Hb].
    destruct (api_mismatch_tolerated (scenario_env api_mismatch_scenario)
                (foo_conf "on-cluster") "builder-key" foo_sha (world_with ∅))
      as (_ & _ & Hrelease & _).
    exact (Hrelease _ _ request (surjective_pairing _) Hb).
  - assert (Hb : exists request,
               builds (build (scenario_env rejected_release_scenario)
                         (foo_conf "on-cluster") "builder-key" foo_sha (world_with ∅)).2
               = builds (world_with ∅) ++ [request])
      by (vm_compute; eexists; reflexivity).
    destruct Hb as [request Hb].
    destruct (api_mismatch_tolerated (scenario_env rejected_release_scenario)
                (foo_conf "on-cluster") "builder-key" foo_sha (world_with ∅))
      as (_ & _ & Hrelease & _).
    exact (Hrelease _ _ request (surjective_pairing _) Hb).
  - assert (Hs : exists vars w1,
               setup (scenario_env unknown_app_scenario) (foo_conf "on-cluster") foo_sha
                 (start (world_with ∅)) = (Next vars, w1))
      by (vm_compute; do 2 eexists; reflexivity).
    destruct Hs as (vars & w1 & Hs).
    destruct (api_mismatch_tolerated (scenario_env unknown_app_scenario)
                (foo_conf "on-cluster") "builder-key" foo_sha (world_with ∅))
      as (_ & Hconfig & _).
    exact (Hconfig vars w1 {| Values := ∅ |} (Some (ErrorString "404 Not Found"))
             Hs eq_refl).
  - assert (Hb : exists request,
               builds (build (scenario_env api_mismatch_scenario) (foo_conf "on-cluster")
                         "builder-key" foo_sha (world_with ∅)).2
               = builds (world_with ∅) ++ [request])
      by (vm_compute; eexists; reflexivity).
    destruct Hb as [request Hb].
    destruct (api_mismatch_tolerated (scenario_env api_mismatch_scenario)
                (foo_conf "on-cluster") "builder-key" foo_sha (world_with ∅))
      as (_ & _ & _ & Hresponse).
    destruct (Hresponse _ _ request (surjective_pairing _) Hb)
      as (l & stack & image & w8 & t1 & t2 & _ & _ & Ht & Hcase).
    unfold release_response in Hcase.
    change (CreateBuild (scenario_env api_mismatch_scenario) request)
      with (1, Some ErrAPIMismatch) in Hcase.
    cbv beta iota in Hcase.
    destruct (decide (ErrAPIMismatch = ErrAPIMismatch)) as [_|Hne];
      [| destruct (Hne eq_refl)].
    destruct Hcase as (_ & t3 & Ht2).
    exists request, (client l), t1, t3.
    unfold run_scenario. rewrite Ht, Ht2. reflexivity.
Defined.

(** ** Procfile resolution *)

(** C6: the Procfile is resolved in this order. If [{dirName}/Procfile]
    can be stat'ed it is read and decoded, a file that does not decode (or
    cannot be read) being an error, and neither the stack nor the object
    store is looked at. Otherwise, for the stack [container], the mapping is
    empty and the object store is not asked. Otherwise the object at
    [procfileKey] is fetched from the store and decoded; an object that is
    missing, cannot be fetched or does not decode is an error. *)
Theorem procfile_resolution env dirName procfileKey stack w :
  let onDisk := dirName +:+ "/Procfile" in
  let getter := storagedriver.GetContent env in
  let asked :=
    with_trace (fun t => t ++ [Log Debugging
                                 "Procfile not present. Getting it from the buildpack";
                               StorGetContent procfileKey]) w in
  (osStat env onDisk = None ->
   forall any_getter,
     (forall raw procType,
        ioReadFile env onDisk = Ok raw -> yamlUnmarshal env raw = Ok procType ->
        getProcFile env any_getter dirName procfileKey stack w = (Next (Ok procType), w))
     /\ (forall raw err,
           ioReadFile env onDisk = Ok raw -> yamlUnmarshal env raw = Err err ->
           getProcFile env any_getter dirName procfileKey stack w
           = (Next (Err (Errorf ("procfile " +:+ dirName +:+ "/ProcFile is malformed ("
                                 +:+ Error err +:+ ")"))), w))
     /\ (forall err,
           ioReadFile env onDisk = Err err ->
           getProcFile env any_getter dirName procfileKey stack w
           = (Next (Err (Errorf ("error in reading " +:+ dirName +:+ "/Procfile ("
                                 +:+ Error err +:+ ")"))), w)))
  /\ (forall statErr,
        osStat env onDisk = Some statErr ->
        (index stack "name" = "container" ->
         forall any_getter,
           getProcFile env any_getter dirName procfileKey stack w = (Next (Ok ∅), w))
        /\ (index stack "name" <> "container" ->
            (forall raw procType,
               storageFault env (OpGetContent procfileKey) = None ->
               objects w !! procfileKey = Some raw ->
               yamlUnmarshal env raw = Ok procType ->
               getProcFile env getter dirName procfileKey stack w
               = (Next (Ok procType), asked))
            /\ (storageFault env (OpGetContent procfileKey) = None ->
                objects w !! procfileKey = None ->
                getProcFile env getter dirName procfileKey stack w
                = (Next (Err (Errorf ("error in reading " +:+ procfileKey +:+ " ("
                                      +:+ Error (PathNotFoundError (driverName env)
                                                   procfileKey) +:+ ")"))),
                   asked))
            /\ (forall err,
                  storageFault env (OpGetContent procfileKey) = Some err ->
                  getProcFile env getter dirName procfileKey stack w
                  = (Next (Err (Errorf ("error in reading " +:+ procfileKey +:+ " ("
                                        +:+ Error err +:+ ")"))), asked))
            /\ (forall raw err,
                  storageFault env (OpGetContent procfileKey) = None ->
                  objects w !! procfileKey = Some raw ->
                  yamlUnmarshal env raw = Err err ->
                  getProcFile env getter dirName procfileKey stack w
                  = (Next (Err (Errorf ("procfile " +:+ procfileKey +:+ " is malformed ("
                                        +:+ Error err +:+ ")"))), asked)))).
Proof.
  intros onDisk getter asked. subst onDisk getter asked. split.
  - intros Hstat any_getter. unfold getProcFile. rewrite Hstat.
    split; [|split].
    + intros raw procType -> ->. reflexivity.
    + intros raw err -> ->. reflexivity.
    + intros err ->. reflexivity.
  - intros statErr Hstat. unfold getProcFile. rewrite Hstat. split.
    + intros Hname any_getter.
      destruct (decide (index stack "name" = "container")); [reflexivity | contradiction].
    + intros Hname.
      destruct (decide (index stack "name" = "container")); [contradiction|].
      destruct w as [o s p b d t df].
      cbv [storagedriver.GetContent mbind M_bind mret M_ret gets modify emit logDebug
           with_trace objects trace].
      rewrite <- !app_assoc. simpl.
      split; [|split; [|split]].
      * intros raw procType -> -> ->. reflexivity.
      * intros -> ->. reflexivity.
      * intros err ->. reflexivity.
      * intros raw err -> -> ->. reflexivity.
Qed.

(** The four ways of the resolution on the scenarios: the Procfile on disk,
    the container stack without one, and the Procfile of the builder in the
    object store, well formed and malformed. The last build fails with the
    error of the decoder and requests no release. *)
Lemma procfile_resolution_witness :
  getProcFile (scenario_env buildpack_scenario) (storagedriver.GetContent
      (scenario_env buildpack_scenario)) "/home/git/foo.git/build/tmp123456"
    "home/foo:git-abc12345/push/Procfile" (sc_stack buildpack_scenario) (world_with ∅)
  = (Next (Ok {[ "web" := "bundle exec" ]}), world_with ∅)
  /\ getProcFile (scenario_env container_scenario) (storagedriver.GetContent
         (scenario_env container_scenario)) "/home/git/foo.git/build/tmp123456"
       "home/foo:git-abc12345/push/Procfile" (sc_stack container_scenario) (world_with ∅)
     = (Next (Ok ∅), world_with ∅)
  /\ (getProcFile (scenario_env my_container_stack_scenario) (storagedriver.GetContent
         (scenario_env my_container_stack_scenario)) "/home/git/foo.git/build/tmp123456"
       "home/foo:git-abc12345/push/Procfile" (sc_stack my_container_stack_scenario)
       (world_with (sc_uploads my_container_stack_scenario))).1
     = Next (Ok {[ "web" := "run" ]})
  /\ (getProcFile (scenario_env malformed_procfile_scenario) (storagedriver.GetContent
         (scenario_env malformed_procfile_scenario)) "/home/git/foo.git/build/tmp123456"
       "home/foo:git-abc12345/push/Procfile" (sc_stack malformed_procfile_scenario)
       (world_with (sc_uploads malformed_procfile_scenario))).1
     = Next (Err (ErrorString
         "procfile home/foo:git-abc12345/push/Procfile is malformed (yaml: unmarshal errors)")).
Proof.
  split; [|split; [|split]].
  - destruct (procfile_resolution (scenario_env buildpack_scenario)
                "/home/git/foo.git/build/tmp123456" "home/foo:git-abc12345/push/Procfile"
                (sc_stack buildpack_scenario) (world_with ∅)) as [Hdisk _].
    destruct (Hdisk eq_refl (storagedriver.GetContent (scenario_env buildpack_scenario)))
      as [Hok _].
    apply (Hok "web: bundle exec"); vm_compute; reflexivity.
  - destruct (procfile_resolution (scenario_env container_scenario)
                "/home/git/foo.git/build/tmp123456" "home/foo:git-abc12345/push/Procfile"
                (sc_stack container_scenario) (world_with ∅)) as [_ Hmissing].
    destruct (Hmissing (ErrorString "no such file or directory") eq_refl) as [Hcontainer _].
    apply Hcontainer. vm_compute. reflexivity.
  - destruct (procfile_resolution (scenario_env my_container_stack_scenario)
                "/home/git/foo.git/build/tmp123456" "home/foo:git-abc12345/push/Procfile"
                (sc_stack my_container_stack_scenario)
                (world_with (sc_uploads my_container_stack_scenario))) as [_ Hmissing].
    destruct (Hmissing (ErrorString "no such file or directory") eq_refl) as [_ Hstore].
    destruct (Hstore ltac:(vm_compute; discriminate)) as [Hok _].
    rewrite (Hok "web: run" {[ "web" := "run" ]}); [reflexivity | reflexivity | |];
      vm_compute; reflexivity.
  - destruct (procfile_resolution (scenario_env malformed_procfile_scenario)
                "/home/git/foo.git/build/tmp123456" "home/foo:git-abc12345/push/Procfile"
                (sc_stack malformed_procfile_scenario)
                (world_with (sc_uploads malformed_procfile_scenario))) as [_ Hmissing].
    destruct (Hmissing (ErrorString "no such file or directory") eq_refl) as [_ Hstore].
    destruct (Hstore ltac:(vm_compute; discriminate)) as (_ & _ & _ & Hbad).
    rewrite (Hbad "web" (ErrorString "yaml: unmarshal errors"));
      [reflexivity | reflexivity | |]; vm_compute; reflexivity.
Defined.

Example malformed_procfile_build :
  (run_scenario malformed_procfile_scenario "on-cluster" ∅).1
  = Returned (Some (ErrorString
      "procfile home/foo:git-abc12345/push/Procfile is malformed (yaml: unmarshal errors)"))
  /\ builds (run_scenario malformed_procfile_scenario "on-cluster" ∅).2 = []
  /\ secrets (run_scenario malformed_procfile_scenario "on-cluster" ∅).2 = ∅.
Proof. compute_each. Qed.

(** ** The node selector *)

Lemma no_char_app c (s1 s2 : string) :
  no_char c s1 -> no_char c s2 -> no_char c (s1 +:+ s2).
Proof.
  induction s1 as [|x s1 IH]; simpl; [auto|]. intros [Hx H1] H2. split; auto.
Qed.

Lemma HasPrefix_empty (s : string) : strings.HasPrefix s EmptyString = true.
Proof. destruct s; reflexivity. Qed.

(** A string without the separator byte is one piece. *)
Lemma split_from_whole c (s : string) :
  no_char c s -> strings.split_from (String c EmptyString) 0 s = [s].
Proof.
  induction s as [|x s IH]; simpl; [reflexivity|]. intros [Hx Hs].
  destruct (decide (c = x)) as [->|_]; [destruct (Hx eq_refl)|].
  rewrite (IH Hs). reflexivity.
Qed.

(** The first piece of a string ends at the first separator byte. *)
Lemma split_from_first c (p rest : string) :
  no_char c p ->
  strings.split_from (String c EmptyString) 0 (p +:+ String c rest)
  = p :: strings.split_from (String c EmptyString) 0 rest.
Proof.
  induction p as [|x p IH]; simpl.
  - intros _. destruct (decide (c = c)) as [_|Hne]; [| destruct (Hne eq_refl)].
    rewrite HasPrefix_empty. reflexivity.
  - intros [Hx Hp].
    destruct (decide (c = x)) as [->|_]; [destruct (Hx eq_refl)|].
    change (String.append p (String c rest)) with (p +:+ String c rest).
    rewrite (IH Hp). reflexivity.
Qed.

(** [Split] undoes [Join] on pieces that are free of the separator. *)
Lemma Split_Join c (pieces : list string) :
  pieces <> [] -> Forall (no_char c) pieces ->
  strings.Split (strings.Join pieces (String c EmptyString)) (String c EmptyString)
  = pieces.
Proof.
  unfold strings.Split. intros Hne Hall. induction Hall as [|p rest Hp Hrest IH].
  - destruct (Hne eq_refl).
  - destruct rest as [|q rest].
    + simpl. apply split_from_whole. exact Hp.
    + change (strings.Join (p :: q :: rest) (String c EmptyString))
        with (p +:+ String c (strings.Join (q :: rest) (String c EmptyString))).
      rewrite (split_from_first c p _ Hp). f_equal. apply IH. discriminate.
Qed.

Lemma Split_pair (k v : string) :
  no_char ":" k -> no_char ":" v ->
  strings.Split (selector_pair (k, v)) ":" = [k; v].
Proof.
  intros Hk Hv. unfold strings.Split, selector_pair. simpl fst. simpl snd.
  change (k +:+ ":" +:+ v) with (k +:+ String ":" v).
  rewrite (split_from_first ":" k v Hk), (split_from_whole ":" v Hv). reflexivity.
Qed.

(** The loop over well-formed pairs binds each of them in turn. *)
Lemma selector_loop_pairs config (kvs : list (string * string)) sel :
  Forall (fun kv => no_char ":" kv.1 /\ no_char ":" kv.2) kvs ->
  selector_loop config (selector_pair <$> kvs) sel
  = Ok (foldl (fun m kv => <[strings.TrimSpace kv.1 := strings.TrimSpace kv.2]> m) sel kvs).
Proof.
  intros Hall. revert sel. induction Hall as [|[k v] kvs [Hk Hv] _ IH]; intros sel.
  - reflexivity.
  - rewrite fmap_cons. cbn [selector_loop]. rewrite (Split_pair k v Hk Hv).
    cbn [foldl fst snd]. apply IH.
Qed.

(** The loop fails on the first piece that is not a pair. *)
Lemma selector_loop_bad config (lines : list string) piece sel :
  piece ∈ lines -> length (strings.Split piece ":") <> 2%nat ->
  selector_loop config lines sel
  = Err (Errorf ("Invalid BuilderPodNodeSelector value format: " +:+ config)).
Proof.
  intros Hin Hbad. revert sel. induction lines as [|line rest IH]; intros sel.
  - apply elem_of_nil in Hin as [].
  - cbn [selector_loop].
    destruct (strings.Split line ":") as [|k [|v [|x parts]]] eqn:Hsplit;
      try reflexivity.
    apply elem_of_cons in Hin as [->|Hin].
    + rewrite Hsplit in Hbad. destruct (Hbad eq_refl).
    + apply IH. exact Hin.
Qed.

(** A blank is a white-space code point, forwards and backwards. *)
Lemma strip_blank (rest : list ascii) :
  strings.strip_space strings.space_runes (blank :: rest) = Some rest
  /\ strings.strip_space (reverse <$> strings.space_runes) (blank :: rest) = Some rest.
Proof. split; reflexivity. Qed.

(** No white-space code point starts, or ends, with a plain byte. *)
Lemma strip_plain (c : ascii) (rest : list ascii) :
  plain c = true ->
  strings.strip_space strings.space_runes (c :: rest) = None
  /\ strings.strip_space (reverse <$> strings.space_runes) (c :: rest) = None.
Proof.
  destruct c as [[] [] [] [] [] [] [] []]; intros H; vm_compute in H;
    first [ discriminate H | split; vm_compute; reflexivity ].
Qed.

(** Leading blanks are removed up to the first byte that starts no
    white-space code point. *)
Lemma trim_left_blanks runes (n fuel : nat) (l : list ascii) :
  (forall rest, strings.strip_space runes (blank :: rest) = Some rest) ->
  strings.strip_space runes l = None -> (n <= fuel)%nat ->
  strings.trim_left runes fuel (replicate n blank ++ l) = l.
Proof.
  intros Hblank Hclean. revert fuel. induction n as [|n IH]; intros fuel Hle.
  - simpl. destruct fuel; simpl; [reflexivity|]. rewrite Hclean. reflexivity.
  - destruct fuel as [|fuel]; [lia|]. simpl. rewrite Hblank. apply IH. lia.
Qed.

Lemma list_ascii_of_string_app (s1 s2 : string) :
  String.list_ascii_of_string (s1 +:+ s2)
  = String.list_ascii_of_string s1 ++ String.list_ascii_of_string s2.
Proof. induction s1 as [|c s1 IH]; simpl; [reflexivity | rewrite IH; reflexivity]. Qed.

(** [TrimSpace] removes the blanks around a string with plain ends, and
    nothing else. *)
Lemma TrimSpace_blanks (n m : nat) (s : string) :
  plain_ends s -> strings.TrimSpace (blanks n +:+ s +:+ blanks m) = s.
Proof.
  unfold plain_ends, strings.TrimSpace, blanks. intros Hends.
  rewrite !list_ascii_of_string_app, !String.list_ascii_of_string_of_list_ascii.
  rewrite <- (String.string_of_list_ascii_of_string s) at 2.
  set (l := String.list_ascii_of_string s) in *. f_equal.
  destruct l as [|c rest] eqn:Hl; [destruct Hends|].
  destruct (reverse (c :: rest)) as [|d rest'] eqn:Hrev; [destruct Hends|].
  destruct Hends as [Hc Hd].
  assert (Hleft : strings.TrimLeftSpace (replicate n blank ++ (c :: rest) ++ replicate m blank)
                  = (c :: rest) ++ replicate m blank).
  { unfold strings.TrimLeftSpace. apply trim_left_blanks.
    - intros r. exact (proj1 (strip_blank r)).
    - exact (proj1 (strip_plain c _ Hc)).
    - rewrite length_app, length_replicate. lia. }
  rewrite Hleft. unfold strings.TrimRightSpace.
  rewrite reverse_app, reverse_replicate, Hrev.
  rewrite trim_left_blanks.
  - rewrite <- Hrev. apply reverse_involutive.
  - intros r. exact (proj2 (strip_blank r)).
  - exact (proj2 (strip_plain d _ Hd)).
  - rewrite length_app, length_replicate. lia.
Qed.

(** A build whose pod cannot be specified ends with the error of
    [podSpec], after the deferred calls, and has requested no release. *)
Lemma build_podSpec_return env conf key raw w l stack w3 err w4 :
  before_podSpec env conf raw (start w) = (Next (l, stack), w3) ->
  podSpec env conf l stack w3 = (Return err, w4) ->
  build env conf key raw w = (Returned err, run_defers env (defers w4) (start w4))
  /\ builds (build env conf key raw w).2 = builds w.
Proof.
  intros H Hpod.
  assert (H2 : before_copyLogs env conf raw (start w) = (Return err, w4)).
  { unfold before_copyLogs. rewrite (bind_next _ _ _ _ _ H). simpl.
    apply bind_return. exact Hpod. }
  assert (H3 : before_checkExitCodes env conf raw (start w) = (Return err, w4))
    by (unfold before_checkExitCodes; apply bind_return; exact H2).
  assert (H4 : before_publish env conf raw (start w) = (Return err, w4))
    by (unfold before_publish; apply bind_return; exact H3).
  split.
  - unfold build, build_body. rewrite (bind_return _ _ _ _ _ H4). reflexivity.
  - apply (unpublished_build _ _ _ _ _ _ _ H4). discriminate.
Qed.

(** C7: ["a:1,b:2"] parses to [{a:1, b:2}], ["a:1,b"] is the format error,
    and the empty string is the empty selector. In general, the
    comma-separated pairs [k:v] (keys and values free of [","] and [":"])
    parse to the selector that binds each trimmed key to its trimmed value,
    where trimming removes the blanks around a string with plain ends;
    a configuration with a comma-separated piece that does not split on
    [":"] into exactly two parts is the format error, and this error,
    wrapped, is what a build that has come to specify its pod returns,
    without any release. *)
Theorem node_selector_parsing :
  buildBuilderPodNodeSelector "a:1,b:2" = Ok {[ "a" := "1"; "b" := "2" ]}
  /\ buildBuilderPodNodeSelector " a : 1 , b:2 " = Ok {[ "a" := "1"; "b" := "2" ]}
  /\ buildBuilderPodNodeSelector "a:1,b"
     = Err (Errorf "Invalid BuilderPodNodeSelector value format: a:1,b")
  /\ buildBuilderPodNodeSelector "" = Ok ∅
  /\ (forall n m s,
        plain_ends s -> strings.TrimSpace (blanks n +:+ s +:+ blanks m) = s)
  /\ (forall kvs : list (string * string),
        kvs <> [] ->
        Forall (fun kv => (no_char "," kv.1 /\ no_char ":" kv.1)
                          /\ (no_char "," kv.2 /\ no_char ":" kv.2)) kvs ->
        buildBuilderPodNodeSelector (strings.Join (selector_pair <$> kvs) ",")
        = Ok (selector_of kvs))
  /\ (forall config piece,
        config <> "" -> piece ∈ strings.Split config "," ->
        length (strings.Split piece ":") <> 2%nat ->
        let err := Errorf ("Invalid BuilderPodNodeSelector value format: " +:+ config) in
        buildBuilderPodNodeSelector config = Err err
        /\ forall env conf key raw w l stack w3,
             BuilderPodNodeSelector conf = config ->
             before_podSpec env conf raw (start w) = (Next (l, stack), w3) ->
             (build env conf key raw w).1
             = Returned (Some (Errorf ("error build builder pod node selector "
                                       +:+ Error err)))
             /\ builds (build env conf key raw w).2 = builds w).
Proof.
  split; [vm_compute; reflexivity|].
  split; [vm_compute; reflexivity|].
  split; [vm_compute; reflexivity|].
  split; [reflexivity|].
  split; [exact TrimSpace_blanks|].
  split.
  - intros kvs Hne Hall. unfold buildBuilderPodNodeSelector, selector_of.
    assert (Hpieces : Forall (no_char ",") (selector_pair <$> kvs)).
    { apply Forall_fmap. eapply Forall_impl; [exact Hall|].
      intros [k v] [[Hk _] [Hv _]]. unfold selector_pair. simpl.
      apply no_char_app; [exact Hk|]. simpl. split; [discriminate | exact Hv]. }
    assert (Hnonempty : selector_pair <$> kvs <> [])
      by (destruct kvs; [destruct (Hne eq_refl) | discriminate]).
    destruct (decide (strings.Join (selector_pair <$> kvs) "," ≠ "")) as [_|Hempty].
    + rewrite (Split_Join "," _ Hnonempty Hpieces).
      apply selector_loop_pairs. eapply Forall_impl; [exact Hall|].
      intros [k v] [[_ Hk] [_ Hv]]. split; assumption.
    + exfalso. apply Hempty. destruct kvs as [|[k v] kvs]; [destruct (Hne eq_refl)|].
      intros Hjoin. apply (f_equal String.length) in Hjoin.
      destruct kvs; simpl fmap in Hjoin; unfold selector_pair in Hjoin;
        simpl strings.Join in Hjoin; rewrite !string_length_app in Hjoin;
        simpl in Hjoin; lia.
  - intros config piece Hne Hin Hbad err.
    assert (Hparse : buildBuilderPodNodeSelector config = Err err).
    { unfold buildBuilderPodNodeSelector.
      destruct (decide (config ≠ "")); [|contradiction].
      apply (selector_loop_bad config _ piece ∅ Hin Hbad). }
    split; [exact Hparse|].
    intros env conf key raw w l stack w3 Hconf Hpre.
    assert (Hpod : podSpec env conf l stack w3
                   = (Return (Some (Errorf ("error build builder pod node selector "
                                            +:+ Error err))), w3)).
    { unfold podSpec. rewrite Hconf, Hparse. reflexivity. }
    destruct (build_podSpec_return env conf key raw w l stack w3 _ w3 Hpre Hpod)
      as [-> Hb].
    split; [reflexivity | exact Hb].
Qed.

(** Two pairs with blanks around a key and a value, and the malformed
    configuration ["a:1,b"] in a build. *)
Lemma node_selector_parsing_witness :
  strings.TrimSpace (blanks 2 +:+ "pool" +:+ blanks 1) = "pool"
  /\ buildBuilderPodNodeSelector " a :1,b: 2"
  = Ok (selector_of [(" a ", "1"); ("b", " 2")])
  /\ selector_of [(" a ", "1"); ("b", " 2")] = {[ "a" := "1"; "b" := "2" ]}
  /\ buildBuilderPodNodeSelector "a:1,b"
     = Err (Errorf "Invalid BuilderPodNodeSelector value format: a:1,b")
  /\ (build (scenario_env buildpack_scenario)
        (with_BuilderPodNodeSelector "a:1,b" (foo_conf "on-cluster"))
        "builder-key" foo_sha (world_with ∅)).1
     = Returned (Some (ErrorString
         "error build builder pod node selector Invalid BuilderPodNodeSelector value format: a:1,b")).
Proof.
  destruct node_selector_parsing as (_ & _ & _ & _ & Htrim & Hgood & Hbad).
  split; [apply (Htrim 2%nat 1%nat "pool"); vm_compute; split; reflexivity|].
  split; [|split; [vm_compute; reflexivity|]].
  - apply (Hgood [(" a ", "1"); ("b", " 2")]); [discriminate|].
    repeat constructor; simpl; intuition discriminate.
  - assert (Hin : "b" ∈ strings.Split "a:1,b" ",")
      by (vm_compute; apply elem_of_cons; right; apply elem_of_cons; left; reflexivity).
    assert (Hlen : length (strings.Split "b" ":") <> 2%nat) by (vm_compute; discriminate).
    destruct (Hbad "a:1,b" "b" ltac:(discriminate) Hin Hlen) as [Hparse Hbuild].
    split; [exact Hparse|].
    assert (Hrun : exists l stack w3,
               before_podSpec (scenario_env buildpack_scenario)
                 (with_BuilderPodNodeSelector "a:1,b" (foo_conf "on-cluster")) foo_sha
                 (start (world_with ∅)) = (Next (l, stack), w3))
      by (vm_compute; do 3 eexists; reflexivity).
    destruct Hrun as (l & stack & w3 & Hrun).
    exact (proj1 (Hbuild (scenario_env buildpack_scenario)
                    (with_BuilderPodNodeSelector "a:1,b" (foo_conf "on-cluster"))
                    "builder-key" foo_sha (world_with ∅) l stack w3 eq_refl Hrun)).
Defined.

(** ** From a point of the build to its end *)

Lemma onward_refl (w : World) : onward w w.
Proof. split; [by exists [] | exists []; symmetry; apply app_nil_r]. Qed.

Lemma onward_trans (w1 w2 w3 : World) : onward w1 w2 -> onward w2 w3 -> onward w1 w3.
Proof.
  intros ([ds1 Hd1] & [t1 Ht1]) ([ds2 Hd2] & [t2 Ht2]). split.
  - exists (ds2 ++ ds1). rewrite Hd2, Hd1. apply app_assoc.
  - exists (t1 ++ t2). rewrite Ht2, Ht1. symmetry. apply app_assoc.
Qed.

Lemma silent_steady {A} (m : M A) : silent m -> steady m.
Proof. intros Hm w r w' H. destruct (Hm _ _ _ H) as [(_ & Hd & Ht) _]. split; assumption. Qed.

Lemma steady_publish env conf l stack image : steady (publish env conf l stack image).
Proof.
  intros w r w' H. apply publish_spec in H as (_ & _ & Hd & Ht & _).
  split; [exists []; exact Hd | exact Ht].
Qed.

(** Whatever a computation has come to, what follows it only adds to the
    trace and to the deferred calls. *)
Lemma bind_onward {A B} (m : M A) (k : A -> M B) (w w1 : World) (r1 : Flow A) :
  m w = (r1, w1) -> (forall a, steady (k a)) -> onward w1 ((m ≫= k) w).2.
Proof.
  intros Hm Hk. unfold mbind, M_bind. rewrite Hm. destruct r1 as [a|err|msg].
  - destruct (k a w1) as [r w'] eqn:Hka. exact (Hk a _ _ _ Hka).
  - apply onward_refl.
  - apply onward_refl.
Qed.

Lemma onward_before_publish env conf raw w0 r w8 :
  before_publish env conf raw w0 = (r, w8) -> onward w8 (build_body env conf raw w0).2.
Proof.
  intros H. unfold build_body. apply (bind_onward _ _ _ _ _ H).
  intros [[l stack] image]. apply steady_publish.
Qed.

Lemma onward_before_checkExitCodes env conf raw w0 r w7 :
  before_checkExitCodes env conf raw w0 = (r, w7) ->
  onward w7 (build_body env conf raw w0).2.
Proof.
  intros H. destruct (before_publish env conf raw w0) as [r8 w8] eqn:H8.
  eapply onward_trans; [|exact (onward_before_publish _ _ _ _ _ _ H8)].
  replace w8 with (before_publish env conf raw w0).2 by (rewrite H8; reflexivity).
  unfold before_publish. apply (bind_onward _ _ _ _ _ H).
  intros [[[l stack] image] statuses]. apply silent_steady.
  apply silent_bind; [apply silent_checkExitCodes|]. intros _. apply silent_ret.
Qed.

Lemma onward_before_copyLogs env conf raw w0 r w5 :
  before_copyLogs env conf raw w0 = (r, w5) ->
  onward w5 (build_body env conf raw w0).2.
Proof.
  intros H. destruct (before_checkExitCodes env conf raw w0) as [r7 w7] eqn:H7.
  eapply onward_trans; [|exact (onward_before_checkExitCodes _ _ _ _ _ _ H7)].
  replace w7 with (before_checkExitCodes env conf raw w0).2 by (rewrite H7; reflexivity).
  unfold before_checkExitCodes. apply (bind_onward _ _ _ _ _ H).
  intros [[[[l stack] image] namespace] name]. apply silent_steady.
  apply silent_bind; [apply silent_copyLogs|]. intros _.
  apply silent_bind; [apply silent_awaitEnd|]. intros statuses. apply silent_ret.
Qed.

Lemma onward_before_podSpec env conf raw w0 r w3 :
  before_podSpec env conf raw w0 = (r, w3) ->
  onward w3 (build_body env conf raw w0).2.
Proof.
  intros H. destruct (before_copyLogs env conf raw w0) as [r5 w5] eqn:H5.
  eapply onward_trans; [|exact (onward_before_copyLogs _ _ _ _ _ _ H5)].
  replace w5 with (before_copyLogs env conf raw w0).2 by (rewrite H5; reflexivity).
  unfold before_copyLogs. apply (bind_onward _ _ _ _ _ H).
  intros [l stack]. apply silent_steady.
  apply silent_bind; [apply silent_podSpec|]. intros [[pod n] image].
  apply silent_bind; [apply silent_launch|]. intros [namespace name]. apply silent_ret.
Qed.

(** The world in which [build] ends: the deferred calls run from the world
    in which the body ends. *)
Lemma build_end env conf key raw w :
  (build env conf key raw w).2
  = run_defers env (defers (build_body env conf raw (start w)).2)
      (start (build_body env conf raw (start w)).2).
Proof.
  unfold build. destruct (build_body env conf raw (start w)) as [flow w9]. reflexivity.
Qed.

(** ** The environment secret of a slug build *)




(** ** The cache of an application that has disabled caching *)

(** A build that returns before its pod is specified ends with what was
    returned, after the deferred calls; it has created no pod and requested
    no release. *)
Lemma build_before_podSpec_return env conf key raw w err w3 :
  before_podSpec env conf raw (start w) = (Return err, w3) ->
  (build env conf key raw w).1 = Returned err
  /\ builds (build env conf key raw w).2 = builds w
  /\ pods (build env conf key raw w).2 = pods w.
Proof.
  intros H.
  assert (H2 : before_copyLogs env conf raw (start w) = (Return err, w3))
    by (unfold before_copyLogs; apply bind_return; exact H).
  assert (H3 : before_checkExitCodes env conf raw (start w) = (Return err, w3))
    by (unfold before_checkExitCodes; apply bind_return; exact H2).
  assert (H4 : before_publish env conf raw (start w) = (Return err, w3))
    by (unfold before_publish; apply bind_return; exact H3).
  assert (Hbuild : build env conf key raw w
                   = (Returned err, run_defers env (defers w3) (start w3)))
    by (unfold build, build_body; rewrite (bind_return _ _ _ _ _ H4); reflexivity).
  split; [rewrite Hbuild; reflexivity|].
  split; [apply (unpublished_build _ _ _ _ _ _ _ H4); discriminate|].
  rewrite Hbuild. simpl.
  destruct (run_defers_spec env (defers w3) (start w3)) as (_ & -> & _).
  change (pods (start w3)) with (pods w3).
  assert (Hstart : pods (start w) = pods w) by reflexivity.
  unfold before_podSpec in H.
  apply bind_inv in H as [(l & w1 & Hprep & H) | [(e & Hprep & _) | (? & _ & ?)]];
    [| | discriminate].
  - apply prepare_spec in Hprep as (_ & Hp1 & _).
    apply bind_inv in H as [([] & w2 & Hinv & H) | [(e & Hinv & _) | (? & _ & ?)]];
      [| | discriminate].
    + apply invalidateCache_spec in Hinv as (_ & Hp2 & _).
      apply bind_inv in H as [(stack & w2' & Hsnap & H) | [(e & Hsnap & _) | (? & _ & ?)]];
        [discriminate | | discriminate].
      apply snapshot_spec in Hsnap as (_ & Hp3 & _). congruence.
    + apply invalidateCache_spec in Hinv as (_ & Hp2 & _). congruence.
  - apply prepare_spec in Hprep as (_ & Hp1 & _). congruence.
Qed.

(** What [invalidateCache] does when caching is disabled, by the answers
    of the store. *)
Lemma invalidateCache_cases env l w :
  DisableCaching (slugBuilderInfo l) = true ->
  let cacheKey := CacheKey (slugBuilderInfo l) in
  let stated :=
    with_trace (fun t => t ++ [Log Debugging ("caching disabled for app " +:+ appName l);
                               StorStat cacheKey]) w in
  let deleting :=
    with_trace (fun t => t ++ [Log Debugging ("deleting cache " +:+ cacheKey
                                              +:+ " for app " +:+ appName l);
                               StorDelete cacheKey]) stated in
  invalidateCache env l w
  = match storageFault env (OpStat cacheKey) with
    | Some _ => (Next tt, stated)
    | None =>
        match objects w !! cacheKey with
        | None => (Next tt, stated)
        | Some _ =>
            match storageFault env (OpDelete cacheKey) with
            | Some e => (Return (Some e), deleting)
            | None => (Next tt, with_objects (delete cacheKey) deleting)
            end
        end
    end.
Proof.
  intros Hdis cacheKey stated deleting. subst cacheKey stated deleting.
  unfold invalidateCache. rewrite Hdis. destruct w as [o s p b d t df].
  cbv [storagedriver.Stat storagedriver.Delete mbind M_bind mret M_ret gets modify emit
       logDebug check return_ with_trace with_objects objects secrets pods builds dirs
       trace defers id].
  destruct (storageFault env (OpStat (CacheKey (slugBuilderInfo l))));
    [rewrite <- ?app_assoc; reflexivity|].
  destruct (o !! CacheKey (slugBuilderInfo l)); [|rewrite <- ?app_assoc; reflexivity].
  destruct (storageFault env (OpDelete (CacheKey (slugBuilderInfo l))));
    rewrite <- ?app_assoc; reflexivity.
Qed.

(** C3, as stated, fails: with caching disabled and a store whose [Stat]
    fails with an error that is not "not found", the build goes on and
    succeeds, and the cache is still in the store. *)
Lemma stat_error_is_not_fatal :
  let sc := with_storageFault stat_unavailable no_cache_scenario in
  storageFault (scenario_env sc) (OpStat "home/foo/cache")
  = Some (ErrorString "storage unavailable")
  /\ (run_scenario sc "on-cluster" {[ "home/foo/cache" := "old cache" ]}).1 = Returned None
  /\ objects (run_scenario sc "on-cluster" {[ "home/foo/cache" := "old cache" ]}).2
       !! "home/foo/cache" = Some "old cache"
  /\ length (pods (run_scenario sc "on-cluster" {[ "home/foo/cache" := "old cache" ]}).2)
     = 1%nat.
Proof. intros sc. compute_each. Qed.

(** C3, amended: in a build that has fetched a configuration with the key
    [DRYCC_DISABLE_CACHE], the cache key is stat'ed. When [Stat] reports
    that the cache exists, [Delete] is invoked before any pod is created
    and the cache is gone when the build goes on; an error of [Delete] is
    returned by the build, which creates no pod. When [Stat] reports "not
    found", or fails with any other error, nothing is deleted and the build
    goes on. *)
Theorem cache_invalidation env conf key raw w l w1 :
  prepare env conf raw (start w) = (Next l, w1) ->
  is_Some (Values (appConf l) !! "DRYCC_DISABLE_CACHE") ->
  let cacheKey := CacheKey (slugBuilderInfo l) in
  let stated :=
    with_trace (fun t => t ++ [Log Debugging ("caching disabled for app " +:+ appName l);
                               StorStat cacheKey]) w1 in
  (storageFault env (OpStat cacheKey) = None -> is_Some (objects w1 !! cacheKey) ->
   (storageFault env (OpDelete cacheKey) = None ->
    (exists w2, invalidateCache env l w1 = (Next tt, w2)
                /\ objects w2 !! cacheKey = None)
    /\ exists t0 t,
         trace (build env conf key raw w).2 = trace w ++ t0 ++ StorDelete cacheKey :: t
         /\ forallb (fun e => negb (creates_pod e)) t0 = true)
   /\ (forall e, storageFault env (OpDelete cacheKey) = Some e ->
       (build env conf key raw w).1 = Returned (Some e)
       /\ builds (build env conf key raw w).2 = builds w
       /\ pods (build env conf key raw w).2 = pods w))
  /\ (storageFault env (OpStat cacheKey) = None -> objects w1 !! cacheKey = None ->
      invalidateCache env l w1 = (Next tt, stated))
  /\ (forall e, storageFault env (OpStat cacheKey) = Some e ->
      invalidateCache env l w1 = (Next tt, stated)).
Proof.
  intros Hprep Hkey cacheKey stated.
  assert (Hdis : DisableCaching (slugBuilderInfo l) = true)
    by (apply bool_decide_eq_true; exact Hkey).
  pose proof (invalidateCache_cases env l w1 Hdis) as Hcases. cbv zeta in Hcases.
  fold cacheKey in Hcases. fold stated in Hcases.
  split; [|split].
  - intros Hstat [content Hobj]. rewrite Hstat, Hobj in Hcases. split.
    + intros Hdel. rewrite Hdel in Hcases. split.
      * eexists. split; [exact Hcases|]. apply lookup_delete_eq.
      * (* the trace: prepare, then the deletion, then the rest of the build *)
        pose proof Hprep as Hp.
        apply prepare_spec in Hp as (_ & _ & _ & _ & _ & _ & (tp & Htp & Hquiet) & _).
        match type of Hcases with _ = (_, ?x) => set (w2 := x) in * end.
        assert (Hon : onward w2 (build_body env conf raw (start w)).2).
        { destruct (before_podSpec env conf raw (start w)) as [r3 w3] eqn:H3.
          eapply onward_trans; [|exact (onward_before_podSpec _ _ _ _ _ _ H3)].
          replace w3 with (before_podSpec env conf raw (start w)).2
            by (rewrite H3; reflexivity).
          unfold before_podSpec. rewrite (bind_next _ _ _ _ _ Hprep).
          apply (bind_onward _ _ _ _ _ Hcases).
          intros _. apply silent_steady.
          apply silent_bind; [apply silent_snapshot|]. intros stack. apply silent_ret. }
        destruct Hon as (_ & [t Ht]).
        rewrite build_end.
        set (w9 := (build_body env conf raw (start w)).2) in *.
        destruct (run_defers_spec env (defers w9) (start w9)) as (_ & _ & _ & [td Htd]).
        exists (tp ++ [Log Debugging ("caching disabled for app " +:+ appName l);
                       StorStat cacheKey;
                       Log Debugging ("deleting cache " +:+ cacheKey +:+ " for app "
                                      +:+ appName l)]), (t ++ td).
        split.
        -- rewrite Htd. change (trace (start w9)) with (trace w9). rewrite Ht.
           subst w2 stated. simpl trace. rewrite Htp.
           change (trace (start w)) with (trace w).
           rewrite <- !app_assoc. reflexivity.
        -- rewrite forallb_app, Hquiet. reflexivity.
    + intros e Hdel. rewrite Hdel in Hcases.
      match type of Hcases with _ = (_, ?x) => set (w2 := x) in * end.
      assert (H3 : before_podSpec env conf raw (start w) = (Return (Some e), w2)).
      { unfold before_podSpec. rewrite (bind_next _ _ _ _ _ Hprep).
        apply bind_return. exact Hcases. }
      exact (build_before_podSpec_return env conf key raw w _ _ H3).
  - intros Hstat Hobj. rewrite Hstat, Hobj in Hcases. exact Hcases.
  - intros e Hstat. rewrite Hstat in Hcases. exact Hcases.
Qed.

(** The cache invalidation scenario: the cache of [foo] is in the store
    and the application has disabled caching. The deletion comes before
    the pod is created; when the store cannot delete, the build fails with
    its error and creates no pod. *)
Lemma cache_invalidation_witness :
  (exists t0 t,
     trace (build (scenario_env no_cache_scenario) (foo_conf "on-cluster") "builder-key"
              foo_sha (world_with {[ "home/foo/cache" := "old cache" ]})).2
     = t0 ++ StorDelete "home/foo/cache" :: t
     /\ forallb (fun e => negb (creates_pod e)) t0 = true)
  /\ (build (scenario_env (with_storageFault delete_unavailable no_cache_scenario))
        (foo_conf "on-cluster") "builder-key" foo_sha
        (world_with {[ "home/foo/cache" := "old cache" ]})).1
     = Returned (Some (ErrorString "storage unavailable"))
  /\ pods (build (scenario_env (with_storageFault delete_unavailable no_cache_scenario))
             (foo_conf "on-cluster") "builder-key" foo_sha
             (world_with {[ "home/foo/cache" := "old cache" ]})).2 = [].
Proof.
  assert (Hkey : forall sc : Scenario,
             sc_values sc = {[ "DRYCC_DISABLE_CACHE" := "1" ]} ->
             is_Some (sc_values sc !! "DRYCC_DISABLE_CACHE"))
    by (intros sc ->; eexists; vm_compute; reflexivity).
  split.
  - eassert (Hprep : prepare (scenario_env no_cache_scenario) (foo_conf "on-cluster")
                       foo_sha (start (world_with {[ "home/foo/cache" := "old cache" ]}))
                     = (Next _, _))
      by (vm_compute; reflexivity).
    destruct (cache_invalidation _ _ "builder-key" _ _ _ _ Hprep
                (Hkey no_cache_scenario eq_refl)) as (Hexists & _ & _).
    destruct (Hexists eq_refl ltac:(eexists; vm_compute; reflexivity)) as [Hdeleted _].
    destruct (Hdeleted eq_refl) as (_ & t0 & t & Htrace & Hquiet).
    exists t0, t. split; [exact Htrace | exact Hquiet].
  - eassert (Hprep : prepare
                       (scenario_env (with_storageFault delete_unavailable no_cache_scenario))
                       (foo_conf "on-cluster") foo_sha
                       (start (world_with {[ "home/foo/cache" := "old cache" ]}))
                     = (Next _, _))
      by (vm_compute; reflexivity).
    destruct (cache_invalidation _ _ "builder-key" _ _ _ _ Hprep
                (Hkey no_cache_scenario eq_refl)) as (Hexists & _ & _).
    destruct (Hexists eq_refl ltac:(eexists; vm_compute; reflexivity)) as [_ Hfails].
    destruct (Hfails (ErrorString "storage unavailable") eq_refl) as (Hout & _ & Hpods).
    split; [exact Hout | exact Hpods].
Defined.

(** The scenario in full: the cache is deleted, and the cache key that the
    pod is given is empty. *)
Example cache_invalidation_scenario :
  (build (scenario_env no_cache_scenario) (foo_conf "on-cluster") "builder-key" foo_sha
     (world_with {[ "home/foo/cache" := "old cache" ]})).1 = Returned None
  /\ objects (build (scenario_env no_cache_scenario) (foo_conf "on-cluster") "builder-key"
                foo_sha (world_with {[ "home/foo/cache" := "old cache" ]})).2
       !! "home/foo/cache" = None
  /\ (fun p => match p.2 with
               | slugbuilderPod _ _ _ _ _ _ _ cacheKey _ _ _ _ _ => Some cacheKey
               | dockerBuilderPod _ _ _ _ _ _ _ _ _ _ _ _ _ _ => None
               end)
       <$> pods (build (scenario_env no_cache_scenario) (foo_conf "on-cluster")
                   "builder-key" foo_sha
                   (world_with {[ "home/foo/cache" := "old cache" ]})).2
     = [Some ""].
Proof. compute_each. Qed.

(** * Further properties of the orchestrator *)

(** ** The order of the calls *)

(** A list of calls occurs, in order, in an explicit trace. *)
Ltac solve_sublist :=
  cbn [app];
  repeat first [ apply sublist_nil | apply sublist_skip | apply sublist_cons ].

(** The trace that a phase has added, with the calls [calls] in it. *)
Ltac solve_calls :=
  cbv [trace]; rewrite <- ?app_assoc;
  first [ exists []; split; [symmetry; apply app_nil_r | solve_sublist]
        | eexists; split; [reflexivity | solve_sublist] ].

Lemma prepare_calls env conf raw w r w' :
  prepare env conf raw w = (r, w') ->
  forall l, r = Next l ->
  dirs w' = {[tmpDir l]} ∪ dirs w
  /\ exists t, trace w' = trace w ++ t
               /\ [MkdirAll (buildDir env conf); TempDir (buildDir env conf);
                   HookGetAppConfig (Username conf) (App conf)] `sublist_of` t.
Proof.
  intros H. destruct w as [o s p b d t df].
  exec H. all: intros l Hl; try discriminate; injection Hl as <-.
  all: cbv [buildDir]. all: split; [reflexivity | solve_calls].
Qed.

Lemma invalidateCache_defers env l w r w' :
  invalidateCache env l w = (r, w') -> defers w' = defers w /\ dirs w' = dirs w.
Proof.
  intros H. destruct w as [o s p b d t df]. exec H. all: split; reflexivity.
Qed.

Lemma snapshot_calls env l w r w' :
  snapshot env l w = (r, w') ->
  defers w' = defers w /\ dirs w' = dirs w
  /\ (forall stack, r = Next stack ->
      exists data,
        ioReadFile env (repoDir l +:+ "/" +:+ (appName l +:+ ".tar.gz")) = Ok data
        /\ objects w' = <[TarKey (slugBuilderInfo l) := data]> (objects w)
        /\ exists t, trace w' = trace w ++ t
                     /\ [Exec (gitArchiveCmd l); Exec (tarCmd l);
                         StorPutContent (TarKey (slugBuilderInfo l)) data]
                        `sublist_of` t).
Proof.
  intros H. destruct w as [o s p b d t df].
  destruct l as [dp sp sha an rd td sn cl ac].
  exec H. all: do 2 (split; [reflexivity|]).
  all: intros stack Hs; try discriminate.
  eexists. split; [eassumption|]. split; [reflexivity|]. solve_calls.
Qed.

Lemma podSpec_calls env conf l stack w r w' :
  podSpec env conf l stack w = (r, w') ->
  let slug := negb (strings.Contains (index stack "name") "container") in
  let secret := appName l +:+ "-build-env" in
  dirs w' = dirs w
  /\ (forall x, r = Next x ->
      defers w'
      = (if slug then [DeferDeleteSecret (PodNamespace conf) secret] else []) ++ defers w
      /\ exists t, trace w' = trace w ++ t
           /\ (if slug then [KubeCreateSecret (PodNamespace conf) secret] else [])
              `sublist_of` t).
Proof.
  intros H. destruct w as [o s p b d t df].
  destruct l as [dp sp sha an rd td sn cl ac].
  exec H. all: split; [reflexivity|]. all: intros x Hx; try discriminate.
  all: cbv [negb appName defers app]. all: split; [reflexivity | solve_calls].
Qed.

Lemma launch_calls env conf stack pod n w r w' :
  launch env conf stack pod n w = (r, w') ->
  dirs w' = dirs w
  /\ (forall x, r = Next x ->
      defers w' = DeferCloseStream :: DeferCloseStop :: defers w
      /\ exists t, trace w' = trace w ++ t
         /\ [KubeCreatePod (PodNamespace conf) pod; WatcherRun (PodNamespace conf);
             WaitForPod (pod_Namespace pod) (pod_Name pod);
             KubeStreamLog (pod_Namespace pod) (pod_Name pod)] `sublist_of` t).
Proof.
  intros H. destruct w as [o s p b d t df].
  exec H. all: split; [reflexivity|]. all: intros x Hx; try discriminate.
  split; [reflexivity|]. solve_calls.
Qed.

Lemma copyLogs_calls env w r w' :
  copyLogs env w = (r, w') ->
  defers w' = defers w /\ dirs w' = dirs w
  /\ exists t, trace w' = trace w ++ t /\ [Stdout (logStream env).1] `sublist_of` t.
Proof.
  intros H. destruct w as [o s p b d t df].
  exec H. all: do 2 (split; [reflexivity|]). all: cbv [fst]. all: solve_calls.
Qed.

Lemma awaitEnd_calls env conf namespace name w r w' :
  awaitEnd env conf namespace name w = (r, w') ->
  defers w' = defers w /\ dirs w' = dirs w
  /\ (forall statuses, r = Next statuses ->
      exists t, trace w' = trace w ++ t
         /\ [WaitForPodEnd namespace name; KubeGetPod namespace name] `sublist_of` t).
Proof.
  intros H. destruct w as [o s p b d t df].
  exec H. all: do 2 (split; [reflexivity|]).
  all: intros statuses Hs; try discriminate. solve_calls.
Qed.

Lemma publish_calls env conf l stack image w r w' :
  publish env conf l stack image w = (r, w') ->
  dirs w' = dirs w
  /\ (r = Return None ->
      exists procType t,
        builds w' = builds w
                    ++ [release_request conf l stack (published_image l stack image)
                          procType]
        /\ trace w' = trace w ++ t
        /\ [HookCreateBuild
              (release_request conf l stack (published_image l stack image) procType);
            Exec (gitGcCmd l)] `sublist_of` t).
Proof.
  intros H. destruct w as [o s p b d t df].
  destruct l as [dp sp sha an rd td sn cl ac].
  unfold published_image.
  exec H. all: split; [reflexivity|]. all: intros Hr; try discriminate.
  all: eexists.
  all: cbv [builds trace release_request gitSha gitGcCmd repoDir repoCmd];
    rewrite <- ?app_assoc.
  all: eexists; split; [reflexivity|]; split; [reflexivity|]; solve_sublist.
Qed.

(** A deferred call issues its call, and may log the failure after it. *)
Lemma run_deferred_call env d w :
  exists t, trace (run_deferred env d w).2 = trace w ++ deferred_call d :: t.
Proof.
  destruct (run_deferred env d w) as [r w'] eqn:H.
  destruct w as [o s p b ds t df]. destruct d.
  all: exec H; cbv [trace snd deferred_call]; rewrite <- ?app_assoc.
  all: eexists; reflexivity.
Qed.

(** The deferred calls are issued from the top of the stack down. *)
Lemma run_defers_calls env ds w :
  exists t, trace (run_defers env ds w) = trace w ++ t
            /\ (deferred_call <$> ds) `sublist_of` t.
Proof.
  revert w. induction ds as [|d ds IH]; intros w; simpl.
  - exists []. split; [symmetry; apply app_nil_r | constructor].
  - destruct (run_deferred_call env d w) as [t1 Ht1].
    destruct (IH (run_deferred env d w).2) as (t2 & Ht2 & Hsub).
    exists ((deferred_call d :: t1) ++ t2). split.
    + rewrite Ht2, Ht1, <- app_assoc. reflexivity.
    + simpl. apply sublist_skip. apply sublist_inserts_l. exact Hsub.
Qed.

(** X1: a build that returns [nil] has made its calls in the order of the
    source: the build directory and the temporary directory in it, the
    configuration of the application, [git archive], [tar],
    the upload of the tarball that was read, the secret (slug builds only),
    the pod, the watcher, the wait for the pod, the log stream and its
    copy, the wait for the end of the pod and its fetch, the release,
    [git gc]; then the deferred calls in the reverse order of their
    registration: the stream is closed, the watcher stopped, the secret
    deleted (slug builds only) and the temporary directory removed. *)
Theorem successful_build_calls env conf key raw w w' :
  build env conf key raw w = (Returned None, w') ->
  exists l stack pod data request t,
    NewSha raw = Ok (gitSha l)
    /\ stack = getStack env (tmpDir l) (appConf l)
    /\ ioReadFile env (repoDir l +:+ "/" +:+ (App conf +:+ ".tar.gz")) = Ok data
    /\ pods w' = pods w ++ [(PodNamespace conf, pod)]
    /\ builds w' = builds w ++ [request]
    /\ trace w' = trace w ++ t
    /\ calls_of_success env conf l stack pod data (logStream env).1 request `sublist_of` t.
Proof.
  unfold build. intros H.
  destruct (build_body env conf raw (start w)) as [flow w9] eqn:Hbody.
  unfold build_body in Hbody. injection H as Hout <-.
  destruct flow as [[]|err|msg]; simpl in Hout; [|discriminate].
  injection Hout as ->.
  apply bind_inv in Hbody
    as [([[l stack] image] & w8 & Hpre & Hpub) | [(err & Hpre & Herr) | (? & _ & ?)]];
    [ | | discriminate ].
  2:{ apply silent_before_publish in Hpre as [_ Hne]. congruence. }
  destruct (silent_before_publish _ _ _ _ _ _ Hpre) as [(Hbuilds & _) _].
  apply before_publish_inv in Hpre as (statuses & Hpre & _).
  apply before_checkExitCodes_inv in Hpre
    as (namespace & name & w5 & w6 & Hpre & Hcopy & Hend).
  apply before_copyLogs_inv in Hpre as (w3 & pod & n & w4 & Hpre & Hpod & Hlaunch).
  apply before_podSpec_inv in Hpre as (w1 & w2 & Hprep & Hinv & Hsnap).
  (* the pods *)
  assert (Hpods : pods (run_defers env (defers w9) (start w9))
                  = pods w ++ [(PodNamespace conf, pod)]).
  { destruct (run_defers_spec env (defers w9) (start w9)) as (_ & -> & _).
    change (pods (start w9)) with (pods w9).
    pose proof Hpub as Hq. apply publish_spec in Hq as (-> & _).
    pose proof Hend as Hq. apply awaitEnd_spec in Hq as (_ & -> & _).
    pose proof Hcopy as Hq. apply copyLogs_spec in Hq as (_ & -> & _).
    pose proof Hlaunch as Hq. apply launch_spec in Hq as (_ & _ & _ & _ & Hq).
    destruct (Hq _ _ eq_refl) as (_ & _ & ->).
    pose proof Hpod as Hq'. apply podSpec_spec in Hq' as (_ & -> & _).
    pose proof Hsnap as Hq'. apply snapshot_spec in Hq' as (_ & -> & _).
    pose proof Hinv as Hq'. apply invalidateCache_spec in Hq' as (_ & -> & _).
    pose proof Hprep as Hq'. apply prepare_spec in Hq' as (_ & -> & _). reflexivity. }
  (* the calls of each phase *)
  pose proof Hprep as Hl.
  apply prepare_spec in Hl as (_ & _ & _ & _ & _ & _ & _ & Hl).
  destruct (Hl l eq_refl) as (Happ & Hsha & _ & Hd1).
  destruct (prepare_calls _ _ _ _ _ _ Hprep l eq_refl) as (_ & t1 & Ht1 & Hs1).
  pose proof Hinv as Hq2. apply invalidateCache_spec in Hq2 as ((_ & _ & [t2 Ht2]) & _).
  apply invalidateCache_defers in Hinv as (Hd2 & _).
  pose proof Hsnap as Hst. apply snapshot_spec in Hst as (_ & _ & _ & _ & _ & Hst).
  apply snapshot_calls in Hsnap as (Hd3 & _ & Hc3).
  destruct (Hc3 _ eq_refl) as (data & Hread & _ & t3 & Ht3 & Hs3).
  pose proof Hpod as Hns. apply podSpec_spec in Hns as (_ & _ & _ & _ & Hns).
  destruct (Hns _ _ _ eq_refl) as (_ & Hns' & _).
  apply podSpec_calls in Hpod as (_ & Hc4). cbv zeta in Hc4.
  destruct (Hc4 _ eq_refl) as (Hd4 & t4 & Ht4 & Hs4).
  pose proof Hlaunch as Hnm. apply launch_spec in Hnm as (_ & _ & _ & _ & Hnm).
  destruct (Hnm _ _ eq_refl) as (-> & -> & _).
  apply launch_calls in Hlaunch as (_ & Hc5).
  destruct (Hc5 _ eq_refl) as (Hd5 & t5 & Ht5 & Hs5).
  apply copyLogs_calls in Hcopy as (Hd6 & _ & t6 & Ht6 & Hs6).
  apply awaitEnd_calls in Hend as (Hd7 & _ & Hc7).
  destruct (Hc7 _ eq_refl) as (t7 & Ht7 & Hs7).
  pose proof Hpub as Hd8. apply publish_spec in Hd8 as (_ & _ & Hd8 & _).
  apply publish_calls in Hpub as (_ & Hc8).
  destruct (Hc8 eq_refl) as (procType & t8 & Hb8 & Ht8 & Hs8).
  destruct (run_defers_calls env (defers w9) (start w9)) as (t9 & Ht9 & Hs9).
  exists l, stack, pod, data,
    (release_request conf l stack (published_image l stack image) procType),
    (t1 ++ t2 ++ t3 ++ t4 ++ t5 ++ t6 ++ t7 ++ t8 ++ t9).
  split; [exact Hsha|]. split; [apply Hst; reflexivity|].
  split; [rewrite <- Happ; exact Hread|].
  split; [exact Hpods|].
  split.
  { destruct (run_defers_spec env (defers w9) (start w9)) as (-> & _).
    change (builds (start w9)) with (builds w9). rewrite Hb8, Hbuilds. reflexivity. }
  split.
  { rewrite Ht9. change (trace (start w9)) with (trace w9).
    rewrite Ht8, Ht7, Ht6, Ht5, Ht4, Ht3, Ht2, Ht1.
    change (trace (start w)) with (trace w). rewrite <- !app_assoc. reflexivity. }
  assert (Hds : defers w9
                = [DeferCloseStream; DeferCloseStop]
                  ++ (if negb (strings.Contains (index stack "name") "container")
                      then [DeferDeleteSecret (PodNamespace conf)
                              (App conf +:+ "-build-env")]
                      else [])
                  ++ [DeferRemoveTmp (tmpDir l)]).
  { rewrite Hd8, Hd7, Hd6, Hd5, Hd4, Hd3, Hd2, Hd1, Happ. reflexivity. }
  rewrite Hds in Hs9. rewrite Happ in Hs4. rewrite Hns' in Hs5, Hs7.
  unfold calls_of_success.
  assert (Hnil : ([] : list Event) `sublist_of` t2) by apply sublist_nil_l.
  pose proof (sublist_app _ _ _ _ Hs1
               (sublist_app _ _ _ _ Hnil
               (sublist_app _ _ _ _ Hs3
               (sublist_app _ _ _ _ Hs4
               (sublist_app _ _ _ _ Hs5
               (sublist_app _ _ _ _ Hs6
               (sublist_app _ _ _ _ Hs7
               (sublist_app _ _ _ _ Hs8 Hs9)))))))) as Hall.
  destruct (negb (strings.Contains (index stack "name") "container")).
  all: exact Hall.
Qed.

Lemma successful_build_calls_witness :
  exists l stack pod data request t,
    trace (run_scenario buildpack_scenario "on-cluster" ∅).2 = t
    /\ calls_of_success (scenario_env buildpack_scenario) (foo_conf "on-cluster") l stack
         pod data "-----> Compiled" request
       `sublist_of` t.
Proof.
  assert (Hrun : build (scenario_env buildpack_scenario) (foo_conf "on-cluster")
                   "builder-key" foo_sha (world_with ∅)
                 = (Returned None, (run_scenario buildpack_scenario "on-cluster" ∅).2))
    by (vm_compute; reflexivity).
  destruct (successful_build_calls _ _ _ _ _ _ Hrun)
    as (l & stack & pod & data & request & t & _ & _ & _ & _ & _ & Ht & Hsub).
  exists l, stack, pod, data, request, t. split; [exact Ht | exact Hsub].
Defined.

(** ** The start of a build *)

(** [setup], by the answers it gets. *)
Lemma setup_cases env conf raw w :
  let dir := buildDir env conf in
  let assigned := with_trace (fun t => t ++ [SetPathRegexp pathRegexp]) w in
  let made := with_trace (fun t => t ++ [SetPathRegexp pathRegexp; MkdirAll dir]) w in
  let asked :=
    with_trace (fun t => t ++ [SetPathRegexp pathRegexp; MkdirAll dir; TempDir dir]) w in
  setup env conf raw w
  = match PullPolicyFromString (DockerBuilderImagePullPolicy conf) with
    | Err e => (Return (Some e), assigned)
    | Ok dockerPP =>
    match PullPolicyFromString (SlugBuilderImagePullPolicy conf) with
    | Err e => (Return (Some e), assigned)
    | Ok slugPP =>
    match NewSha raw with
    | Err e => (Return (Some e), assigned)
    | Ok sha =>
    match osMkdirAll env dir with
    | Some e =>
        (Return (Some (Errorf ("making the build directory " +:+ dir +:+ " ("
                               +:+ Error e +:+ ")"))), made)
    | None =>
    match ioTempDir env dir "tmp" with
    | Err e =>
        (Return (Some (Errorf ("unable to create tmpdir " +:+ dir +:+ " ("
                               +:+ Error e +:+ ")"))), asked)
    | Ok tmp =>
        let w2 := with_defers (cons (DeferRemoveTmp tmp))
                    (with_dirs (union {[tmp]}) asked) in
        match controller.New env (ControllerHost conf) (ControllerPort conf) with
        | Err e => (Return (Some e), w2)
        | Ok client =>
            (Next (dockerPP, slugPP, sha,
                   filepathJoin env (GitHome conf) (Repository conf), tmp, client), w2)
        end
    end end end end end.
Proof.
  intros dir assigned made asked. subst dir assigned made asked. unfold setup, buildDir.
  destruct w as [o s p b d t df].
  cbv [mbind M_bind mret M_ret return_ modify emit defer check attempt
       with_trace with_dirs with_defers objects secrets pods builds dirs trace defers id].
  destruct (PullPolicyFromString (DockerBuilderImagePullPolicy conf)); [|reflexivity].
  destruct (PullPolicyFromString (SlugBuilderImagePullPolicy conf)); [|reflexivity].
  destruct (NewSha raw); [|reflexivity].
  destruct (osMkdirAll env _); [rewrite <- ?app_assoc; reflexivity|].
  destruct (ioTempDir env _ "tmp"); [|rewrite <- ?app_assoc; reflexivity].
  destruct (controller.New env _ _); rewrite <- ?app_assoc; reflexivity.
Qed.

(** A build whose [setup] returns ends with what it returns, after the
    deferred calls. *)
Lemma build_setup_return env conf key raw w err w1 :
  setup env conf raw (start w) = (Return err, w1) ->
  build env conf key raw w = (Returned err, cleanup env w1).
Proof.
  intros H.
  assert (Hprep : prepare env conf raw (start w) = (Return err, w1))
    by (unfold prepare; apply bind_return; exact H).
  apply (build_prepare_return env conf key raw w err w1 Hprep).
Qed.

(** X4: after the assignment to [storagedriver.PathRegexp] of line 63,
    the two pull policies and the SHA are checked, in this order, before
    anything else is done: when one of them is invalid the build returns
    its error as it is, and the assignment is all it has done: it has
    touched neither the disk nor the controller, the store or the cluster,
    and has logged nothing. *)
Theorem invalid_input_fails_first env conf key raw w e :
  PullPolicyFromString (DockerBuilderImagePullPolicy conf) = Err e
  \/ ((exists p, PullPolicyFromString (DockerBuilderImagePullPolicy conf) = Ok p)
      /\ (PullPolicyFromString (SlugBuilderImagePullPolicy conf) = Err e
          \/ ((exists p, PullPolicyFromString (SlugBuilderImagePullPolicy conf) = Ok p)
              /\ NewSha raw = Err e))) ->
  build env conf key raw w
  = (Returned (Some e), with_trace (fun t => t ++ [SetPathRegexp pathRegexp]) (start w)).
Proof.
  intros H.
  assert (Hsetup : setup env conf raw (start w)
                   = (Return (Some e),
                      with_trace (fun t => t ++ [SetPathRegexp pathRegexp]) (start w))).
  { rewrite setup_cases. cbv zeta.
    destruct H as [-> | [[p ->] [-> | [[q ->] ->]]]]; reflexivity. }
  rewrite (build_setup_return env conf key raw w _ _ Hsetup).
  destruct w as [o s p b d t df]; reflexivity.
Qed.

Lemma invalid_input_fails_first_witness :
  build (scenario_env buildpack_scenario) (foo_conf "on-cluster") "builder-key"
    "abc1234" (world_with ∅)
  = (Returned (Some (ErrorString "git sha abc1234 was invalid")),
     with_trace (fun t => t ++ [SetPathRegexp pathRegexp]) (world_with ∅)).
Proof.
  apply (invalid_input_fails_first (scenario_env buildpack_scenario)
           (foo_conf "on-cluster") "builder-key" "abc1234" (world_with ∅)).
  right. split; [eexists; vm_compute; reflexivity|].
  right. split; [eexists; vm_compute; reflexivity|].
  vm_compute; reflexivity.
Defined.

(** X5: when the build directory cannot be made, or the temporary
    directory cannot be created in it, the build returns the error,
    wrapped with the path of the build directory; after the assignment of
    line 63 it has made no other call, and since no temporary directory is
    there, none is removed. *)
Theorem build_directory_failure env conf key raw w dockerPP slugPP sha :
  PullPolicyFromString (DockerBuilderImagePullPolicy conf) = Ok dockerPP ->
  PullPolicyFromString (SlugBuilderImagePullPolicy conf) = Ok slugPP ->
  NewSha raw = Ok sha ->
  let dir := buildDir env conf in
  (forall e, osMkdirAll env dir = Some e ->
     build env conf key raw w
     = (Returned (Some (Errorf ("making the build directory " +:+ dir +:+ " ("
                                +:+ Error e +:+ ")"))),
        with_trace (fun t => t ++ [SetPathRegexp pathRegexp; MkdirAll dir]) (start w)))
  /\ (forall e, osMkdirAll env dir = None -> ioTempDir env dir "tmp" = Err e ->
     build env conf key raw w
     = (Returned (Some (Errorf ("unable to create tmpdir " +:+ dir +:+ " ("
                                +:+ Error e +:+ ")"))),
        with_trace (fun t => t ++ [SetPathRegexp pathRegexp; MkdirAll dir; TempDir dir])
          (start w))).
Proof.
  intros Hd Hs Hsha dir.
  pose proof (setup_cases env conf raw (start w)) as Hsetup. cbv zeta in Hsetup.
  rewrite Hd, Hs, Hsha in Hsetup. fold dir in Hsetup.
  split.
  - intros e He. rewrite He in Hsetup.
    rewrite (build_setup_return env conf key raw w _ _ Hsetup).
    destruct w as [o s p b d t df]; reflexivity.
  - intros e Hmk He. rewrite Hmk, He in Hsetup.
    rewrite (build_setup_return env conf key raw w _ _ Hsetup).
    destruct w as [o s p b d t df]; reflexivity.
Qed.

Lemma build_directory_failure_witness :
  let denied := fun _ : string => Some (ErrorString "permission denied") in
  let full := fun _ _ : string => Err (ErrorString "no space left on device") in
  build (with_osMkdirAll denied (scenario_env buildpack_scenario)) (foo_conf "on-cluster")
    "builder-key" foo_sha (world_with ∅)
  = (Returned (Some (Errorf ("making the build directory /home/git/foo.git/build "
                             +:+ "(permission denied)"))),
     with_trace (fun t => t ++ [SetPathRegexp pathRegexp;
                                MkdirAll "/home/git/foo.git/build"]) (world_with ∅))
  /\ build (with_ioTempDir full (scenario_env buildpack_scenario)) (foo_conf "on-cluster")
       "builder-key" foo_sha (world_with ∅)
     = (Returned (Some (Errorf ("unable to create tmpdir /home/git/foo.git/build "
                                +:+ "(no space left on device)"))),
        with_trace (fun t => t ++ [SetPathRegexp pathRegexp;
                                   MkdirAll "/home/git/foo.git/build";
                                   TempDir "/home/git/foo.git/build"]) (world_with ∅)).
Proof.
  intros denied full. split.
  - exact (proj1 (build_directory_failure
                    (with_osMkdirAll denied (scenario_env buildpack_scenario))
                    (foo_conf "on-cluster") "builder-key" foo_sha (world_with ∅)
                    PullAlways PullIfNotPresent _
                    ltac:(vm_compute; reflexivity) ltac:(vm_compute; reflexivity)
                    ltac:(vm_compute; reflexivity))
             (ErrorString "permission denied") ltac:(vm_compute; reflexivity)).
  - exact (proj2 (build_directory_failure
                    (with_ioTempDir full (scenario_env buildpack_scenario))
                    (foo_conf "on-cluster") "builder-key" foo_sha (world_with ∅)
                    PullAlways PullIfNotPresent _
                    ltac:(vm_compute; reflexivity) ltac:(vm_compute; reflexivity)
                    ltac:(vm_compute; reflexivity))
             (ErrorString "no space left on device")
             ltac:(vm_compute; reflexivity) ltac:(vm_compute; reflexivity)).
Defined.

(** The deferred removal of the temporary directory, alone on the stack. *)
Lemma run_defers_removal env tmp w :
  trace (run_defers env [DeferRemoveTmp tmp] w) = trace w ++ removal env tmp
  /\ (osRemoveAll env tmp = None ->
      dirs (run_defers env [DeferRemoveTmp tmp] w) = dirs w ∖ {[tmp]})
  /\ (forall e, osRemoveAll env tmp = Some e ->
      dirs (run_defers env [DeferRemoveTmp tmp] w) = dirs w).
Proof.
  destruct w as [o s p b d t df]. unfold removal.
  cbv [run_defers run_deferred mbind M_bind mret M_ret modify emit logInfo
       with_trace with_dirs objects secrets pods builds dirs trace defers snd].
  destruct (osRemoveAll env tmp); cbv [snd trace dirs]; rewrite <- ?app_assoc.
  - split; [reflexivity|]. split; [discriminate | reflexivity].
  - split; [reflexivity|]. split; [reflexivity | discriminate].
Qed.

(** X6: the client of the controller is made once the temporary directory
    is there. When it cannot be made, because the SDK refuses the URL
    [http://{host}:{port}/] or the builder key cannot be read, the build
    returns that error as it is; the controller has not been called, and
    the temporary directory is removed before the build returns. When it
    is made, it is the builder's: the user agent is [drycc-builder] and
    the hooks token is the builder key that was read. *)
Theorem controller_client env conf key raw w dockerPP slugPP sha tmp :
  PullPolicyFromString (DockerBuilderImagePullPolicy conf) = Ok dockerPP ->
  PullPolicyFromString (SlugBuilderImagePullPolicy conf) = Ok slugPP ->
  NewSha raw = Ok sha ->
  let dir := buildDir env conf in
  let url := "http://" +:+ ControllerHost conf +:+ ":" +:+ ControllerPort conf +:+ "/" in
  osMkdirAll env dir = None ->
  ioTempDir env dir "tmp" = Ok tmp ->
  (forall e,
     sdkNew env url = Some e \/ (sdkNew env url = None /\ GetBuilderKey env = Err e) ->
     (build env conf key raw w).1 = Returned (Some e)
     /\ trace (build env conf key raw w).2
        = trace w ++ [SetPathRegexp pathRegexp; MkdirAll dir; TempDir dir]
          ++ removal env tmp
     /\ (osRemoveAll env tmp = None -> tmp ∉ dirs (build env conf key raw w).2))
  /\ (forall l w1,
       prepare env conf raw (start w) = (Next l, w1) ->
       sdkNew env url = None
       /\ UserAgent (client l) = "drycc-builder"
       /\ GetBuilderKey env = Ok (HooksToken (client l))
       /\ tmpDir l = tmp).
Proof.
  intros Hd Hs Hsha dir url Hmk Htmp.
  pose proof (setup_cases env conf raw (start w)) as Hsetup. cbv zeta in Hsetup.
  rewrite Hd, Hs, Hsha in Hsetup. fold dir in Hsetup. rewrite Hmk, Htmp in Hsetup.
  split.
  - intros e He.
    assert (Hnew : controller.New env (ControllerHost conf) (ControllerPort conf) = Err e).
    { unfold controller.New. fold url. destruct He as [-> | [-> ->]]; reflexivity. }
    rewrite Hnew in Hsetup.
    rewrite (build_setup_return env conf key raw w _ _ Hsetup).
    split; [reflexivity|]. unfold cleanup. cbn [fst snd].
    match goal with
    | |- context [run_defers env ?ds ?w0] =>
        change ds with [DeferRemoveTmp tmp];
        destruct (run_defers_removal env tmp w0) as (Ht & Hgone & _)
    end.
    split.
    + rewrite Ht. destruct w as [o s p b d t df].
      cbv [trace start with_trace with_dirs with_defers].
      rewrite <- app_assoc. reflexivity.
    + intros Hrm. rewrite (Hgone Hrm). intros Hin.
      apply elem_of_difference in Hin as [_ Hn]. apply Hn.
      apply elem_of_singleton. reflexivity.
  - intros l w1 Hprep. unfold prepare in Hprep.
    apply bind_inv in Hprep
      as [(vars & w0 & Hset & Hfetch) | [(? & _ & ?) | (? & _ & ?)]];
      [ | discriminate | discriminate ].
    rewrite Hsetup in Hset.
    unfold controller.New in Hset. fold url in Hset.
    destruct (sdkNew env url); [discriminate|].
    destruct (GetBuilderKey env) as [k|]; [|discriminate].
    injection Hset as <- <-.
    unfold fetchAppConfig in Hfetch.
    cbv [mbind M_bind mret M_ret return_ emit modify controller.CheckAPICompat logInfo]
      in Hfetch.
    destruct (GetAppConfig env (Username conf) (App conf)) as [cfg err].
    destruct (decide (err = Some ErrAPIMismatch)); cbv beta iota in Hfetch.
    + injection Hfetch as <- _. repeat split; reflexivity.
    + destruct err; [discriminate|]. injection Hfetch as <- _. repeat split; reflexivity.
Qed.

Lemma controller_client_witness :
  ((build refused_url_env (foo_conf "on-cluster") "builder-key" foo_sha (world_with ∅)).1
   = Returned (Some (ErrorString "invalid URL"))
   /\ trace (build refused_url_env (foo_conf "on-cluster") "builder-key" foo_sha
               (world_with ∅)).2
      = [SetPathRegexp pathRegexp; MkdirAll "/home/git/foo.git/build";
         TempDir "/home/git/foo.git/build";
         RemoveAll "/home/git/foo.git/build/tmp123456"])
  /\ exists l w1,
       prepare (scenario_env buildpack_scenario) (foo_conf "on-cluster") foo_sha
         (start (world_with ∅)) = (Next l, w1)
       /\ HooksToken (client l) = "builder-key".
Proof.
  split.
  - destruct (proj1 (controller_client refused_url_env (foo_conf "on-cluster")
                       "builder-key" foo_sha
                       (world_with ∅) PullAlways PullIfNotPresent _
                       "/home/git/foo.git/build/tmp123456"
                       ltac:(vm_compute; reflexivity) ltac:(vm_compute; reflexivity)
                       ltac:(vm_compute; reflexivity) ltac:(vm_compute; reflexivity)
                       ltac:(vm_compute; reflexivity))
                (ErrorString "invalid URL") ltac:(left; vm_compute; reflexivity))
      as (Hout & Htrace & _).
    split; [exact Hout | exact Htrace].
  - eassert (Hprep : prepare (scenario_env buildpack_scenario) (foo_conf "on-cluster")
                       foo_sha (start (world_with ∅)) = (Next _, _))
      by (vm_compute; reflexivity).
    destruct (proj2 (controller_client (scenario_env buildpack_scenario)
                       (foo_conf "on-cluster") "builder-key" foo_sha
                       (world_with ∅) PullAlways PullIfNotPresent _
                       "/home/git/foo.git/build/tmp123456"
                       ltac:(vm_compute; reflexivity) ltac:(vm_compute; reflexivity)
                       ltac:(vm_compute; reflexivity) ltac:(vm_compute; reflexivity)
                       ltac:(vm_compute; reflexivity))
                _ _ Hprep) as (_ & _ & Hkey & _).
    eexists _, _. split; [exact Hprep|].
    exact (f_equal (fun r => match r with Ok k => k | Err _ => "" end) (eq_sym Hkey)).
Defined.

(** ** Relations kept by the phases *)

Lemma keeps_bind {A B} (R : World -> World -> Prop) (m : M A) (k : A -> M B) :
  (forall w1 w2 w3, R w1 w2 -> R w2 w3 -> R w1 w3) ->
  keeps R m -> (forall a, keeps R (k a)) -> keeps R (m ≫= k).
Proof.
  intros Htrans Hm Hk w r w' H.
  apply bind_inv in H as [(a & w1 & H1 & H2) | [(err & H1 & ->) | (msg & H1 & ->)]].
  - eapply Htrans; [exact (Hm _ _ _ H1) | exact (Hk a _ _ _ H2)].
  - exact (Hm _ _ _ H1).
  - exact (Hm _ _ _ H1).
Qed.

Lemma keeps_ret {A} (R : World -> World -> Prop) (a : A) :
  (forall w, R w w) -> keeps R (mret a : M A).
Proof. intros Hrefl w r w' H. injection H as _ <-. apply Hrefl. Qed.

Lemma keeps_checkExitCodes (R : World -> World -> Prop) statuses :
  (forall w, R w w) -> keeps R (checkExitCodes statuses).
Proof.
  intros Hrefl w r w' H. apply checkExitCodes_world in H as [-> _]. apply Hrefl.
Qed.

(** Whatever a computation has come to, what follows keeps the relation. *)
Lemma bind_after {A B} (R : World -> World -> Prop) (m : M A) (k : A -> M B)
  (w w1 : World) (r1 : Flow A) :
  (forall w, R w w) ->
  m w = (r1, w1) -> (forall a, keeps R (k a)) -> R w1 ((m ≫= k) w).2.
Proof.
  intros Hrefl Hm Hk. unfold mbind, M_bind. rewrite Hm. destruct r1 as [a|err|msg].
  - destruct (k a w1) as [r w'] eqn:Hka. exact (Hk a _ _ _ Hka).
  - apply Hrefl.
  - apply Hrefl.
Qed.

(** A reflexive and transitive relation that the phases keep holds from
    each point of the body of [build] to its end. *)
Section rest.

Context (R : World -> World -> Prop).
Hypothesis R_refl : forall w, R w w.
Hypothesis R_trans : forall w1 w2 w3, R w1 w2 -> R w2 w3 -> R w1 w3.
Context (env : Env) (conf : Config) (raw : string).

Hypothesis R_publish : forall l stack image, keeps R (publish env conf l stack image).

Lemma after_before_publish w0 r w8 :
  before_publish env conf raw w0 = (r, w8) -> R w8 (build_body env conf raw w0).2.
Proof.
  intros H. unfold build_body. apply (bind_after R _ _ _ _ _ R_refl H).
  intros [[l stack] image]. apply R_publish.
Qed.

Lemma after_before_checkExitCodes w0 r w7 :
  before_checkExitCodes env conf raw w0 = (r, w7) ->
  R w7 (build_body env conf raw w0).2.
Proof.
  intros H. destruct (before_publish env conf raw w0) as [r8 w8] eqn:H8.
  eapply R_trans; [|exact (after_before_publish _ _ _ H8)].
  replace w8 with (before_publish env conf raw w0).2 by (rewrite H8; reflexivity).
  unfold before_publish. apply (bind_after R _ _ _ _ _ R_refl H).
  intros [[[l stack] image] statuses].
  apply keeps_bind; [exact R_trans | apply keeps_checkExitCodes; exact R_refl |].
  intros _. apply keeps_ret. exact R_refl.
Qed.

Hypothesis R_copyLogs : keeps R (copyLogs env).
Hypothesis R_awaitEnd : forall namespace name, keeps R (awaitEnd env conf namespace name).

Lemma after_before_copyLogs w0 r w5 :
  before_copyLogs env conf raw w0 = (r, w5) -> R w5 (build_body env conf raw w0).2.
Proof.
  intros H. destruct (before_checkExitCodes env conf raw w0) as [r7 w7] eqn:H7.
  eapply R_trans; [|exact (after_before_checkExitCodes _ _ _ H7)].
  replace w7 with (before_checkExitCodes env conf raw w0).2 by (rewrite H7; reflexivity).
  unfold before_checkExitCodes. apply (bind_after R _ _ _ _ _ R_refl H).
  intros [[[[l stack] image] namespace] name].
  apply keeps_bind; [exact R_trans | exact R_copyLogs |]. intros _.
  apply keeps_bind; [exact R_trans | apply R_awaitEnd |]. intros statuses.
  apply keeps_ret. exact R_refl.
Qed.

Hypothesis R_launch : forall stack pod n, keeps R (launch env conf stack pod n).

Lemma after_podSpec w0 l stack w3 r w4 :
  before_podSpec env conf raw w0 = (Next (l, stack), w3) ->
  podSpec env conf l stack w3 = (r, w4) ->
  R w4 (build_body env conf raw w0).2.
Proof.
  intros H Hpod. destruct (before_copyLogs env conf raw w0) as [r5 w5] eqn:H5.
  eapply R_trans; [|exact (after_before_copyLogs _ _ _ H5)].
  replace w5 with (before_copyLogs env conf raw w0).2 by (rewrite H5; reflexivity).
  unfold before_copyLogs. rewrite (bind_next _ _ _ _ _ H). cbv beta iota.
  apply (bind_after R _ _ _ _ _ R_refl Hpod).
  intros [[pod n] image].
  apply keeps_bind; [exact R_trans | apply R_launch |]. intros [namespace name].
  apply keeps_ret. exact R_refl.
Qed.

Hypothesis R_podSpec : forall l stack, keeps R (podSpec env conf l stack).

Lemma after_before_podSpec w0 r w3 :
  before_podSpec env conf raw w0 = (r, w3) -> R w3 (build_body env conf raw w0).2.
Proof.
  intros H. destruct (before_copyLogs env conf raw w0) as [r5 w5] eqn:H5.
  eapply R_trans; [|exact (after_before_copyLogs _ _ _ H5)].
  replace w5 with (before_copyLogs env conf raw w0).2 by (rewrite H5; reflexivity).
  unfold before_copyLogs. apply (bind_after R _ _ _ _ _ R_refl H).
  intros [l stack].
  apply keeps_bind; [exact R_trans | apply R_podSpec |]. intros [[pod n] image].
  apply keeps_bind; [exact R_trans | apply R_launch |]. intros [namespace name].
  apply keeps_ret. exact R_refl.
Qed.

Hypothesis R_invalidateCache : forall l, keeps R (invalidateCache env l).
Hypothesis R_snapshot : forall l, keeps R (snapshot env l).

Lemma after_prepare w0 r w1 :
  prepare env conf raw w0 = (r, w1) -> R w1 (build_body env conf raw w0).2.
Proof.
  intros H. destruct (before_podSpec env conf raw w0) as [r3 w3] eqn:H3.
  eapply R_trans; [|exact (after_before_podSpec _ _ _ H3)].
  replace w3 with (before_podSpec env conf raw w0).2 by (rewrite H3; reflexivity).
  unfold before_podSpec. apply (bind_after R _ _ _ _ _ R_refl H).
  intros l.
  apply keeps_bind; [exact R_trans | apply R_invalidateCache |]. intros _.
  apply keeps_bind; [exact R_trans | apply R_snapshot |]. intros stack.
  apply keeps_ret. exact R_refl.
Qed.

Hypothesis R_fetchAppConfig : forall vars, keeps R (fetchAppConfig env conf vars).

Lemma after_setup w0 r w1 :
  setup env conf raw w0 = (r, w1) -> R w1 (build_body env conf raw w0).2.
Proof.
  intros H. destruct (prepare env conf raw w0) as [r2 w2] eqn:H2.
  eapply R_trans; [|exact (after_prepare _ _ _ H2)].
  replace w2 with (prepare env conf raw w0).2 by (rewrite H2; reflexivity).
  unfold prepare. apply (bind_after R _ _ _ _ _ R_refl H).
  intros vars. apply R_fetchAppConfig.
Qed.

End rest.

(** ** The temporary directory *)

Lemma settled_refl (w : World) : settled w w.
Proof. split; [reflexivity | apply onward_refl]. Qed.

Lemma settled_trans (w1 w2 w3 : World) : settled w1 w2 -> settled w2 w3 -> settled w1 w3.
Proof.
  intros [Hd1 Ho1] [Hd2 Ho2]. split; [congruence | eapply onward_trans; eassumption].
Qed.

Lemma fetchAppConfig_settled env conf vars : keeps settled (fetchAppConfig env conf vars).
Proof.
  intros w r w' H. destruct w as [o s p b d t df].
  destruct vars as [[[[[dp sp] sha] rd] td] cl].
  exec H. all: split; [reflexivity|]. all: unfold onward; cbv [defers trace].
  all: split; [by exists [] | solve_suffix].
Qed.

(** After [setup], no phase makes or removes a directory. *)
Lemma after_setup_settled env conf raw w0 r w1 :
  setup env conf raw w0 = (r, w1) -> settled w1 (build_body env conf raw w0).2.
Proof.
  apply (after_setup settled settled_refl settled_trans).
  - intros l stack image w r' w' H. split.
    + apply publish_calls in H as [Hd _]. exact Hd.
    + exact (steady_publish _ _ _ _ _ _ _ _ H).
  - intros w r' w' H. split.
    + apply copyLogs_calls in H as (_ & Hd & _). exact Hd.
    + exact (silent_steady _ (silent_copyLogs env) _ _ _ H).
  - intros namespace name w r' w' H. split.
    + apply awaitEnd_calls in H as (_ & Hd & _). exact Hd.
    + exact (silent_steady _ (silent_awaitEnd env conf namespace name) _ _ _ H).
  - intros stack pod n w r' w' H. split.
    + apply launch_calls in H as (Hd & _). exact Hd.
    + exact (silent_steady _ (silent_launch env conf stack pod n) _ _ _ H).
  - intros l stack w r' w' H. split.
    + apply podSpec_calls in H as (Hd & _). exact Hd.
    + exact (silent_steady _ (silent_podSpec env conf l stack) _ _ _ H).
  - intros l w r' w' H. split.
    + apply invalidateCache_defers in H as (_ & Hd). exact Hd.
    + exact (silent_steady _ (silent_invalidateCache env l) _ _ _ H).
  - intros l w r' w' H. split.
    + apply snapshot_calls in H as (_ & Hd & _). exact Hd.
    + exact (silent_steady _ (silent_snapshot env l) _ _ _ H).
  - apply fetchAppConfig_settled.
Qed.

Lemma run_defers_app env ds1 ds2 w :
  run_defers env (ds1 ++ ds2) w = run_defers env ds2 (run_defers env ds1 w).
Proof.
  revert w. induction ds1 as [|d ds1 IH]; intros w; [reflexivity|]. simpl. apply IH.
Qed.

(** The deferred calls make no directory. *)
Lemma run_defers_dirs env ds w d :
  d ∈ dirs (run_defers env ds w) -> d ∈ dirs w.
Proof.
  revert w. induction ds as [|x ds IH]; intros w; simpl; [auto|].
  intros Hin. apply IH in Hin.
  destruct (run_deferred env x w) as [r w'] eqn:H.
  destruct w as [o s p b dd t df]. destruct x.
  all: exec H; cbv [dirs snd] in *; try assumption.
  apply elem_of_difference in Hin as [Hin _]. exact Hin.
Qed.

(** X2: once the temporary directory has been created, its removal is
    the last call of the build, however the build ends, with [nil], with an
    error or with a panic; when the removal succeeds the temporary
    directory is gone. *)
Theorem tmpdir_removed_last env conf key raw w dockerPP slugPP sha tmp :
  PullPolicyFromString (DockerBuilderImagePullPolicy conf) = Ok dockerPP ->
  PullPolicyFromString (SlugBuilderImagePullPolicy conf) = Ok slugPP ->
  NewSha raw = Ok sha ->
  let dir := buildDir env conf in
  osMkdirAll env dir = None ->
  ioTempDir env dir "tmp" = Ok tmp ->
  (exists t, trace (build env conf key raw w).2
             = trace w ++ [SetPathRegexp pathRegexp; MkdirAll dir; TempDir dir]
               ++ t ++ removal env tmp)
  /\ (osRemoveAll env tmp = None -> tmp ∉ dirs (build env conf key raw w).2).
Proof.
  intros Hd Hs Hsha dir Hmk Htmp.
  pose proof (setup_cases env conf raw (start w)) as Hsetup. cbv zeta in Hsetup.
  rewrite Hd, Hs, Hsha in Hsetup. fold dir in Hsetup. rewrite Hmk, Htmp in Hsetup.
  match type of Hsetup with
  | _ = match _ with Ok _ => (_, ?x) | Err _ => _ end => set (w2 := x) in *
  end.
  assert (Hset : exists r, setup env conf raw (start w) = (r, w2)).
  { rewrite Hsetup. destruct (controller.New env _ _); eexists; reflexivity. }
  destruct Hset as [r Hset].
  destruct (after_setup_settled env conf raw (start w) r w2 Hset)
    as (Hdirs & [ds Hds] & [t Ht]).
  rewrite build_end. set (w9 := (build_body env conf raw (start w)).2) in *.
  assert (Hd2 : defers w2 = [DeferRemoveTmp tmp])
    by (subst w2; destruct w as [o s p b d t0 df]; reflexivity).
  assert (Ht2 : trace w2 = trace w ++ [SetPathRegexp pathRegexp; MkdirAll dir; TempDir dir])
    by (subst w2; destruct w as [o s p b d t0 df]; reflexivity).
  rewrite Hds, Hd2, run_defers_app.
  set (w10 := run_defers env ds (start w9)).
  destruct (run_defers_removal env tmp w10) as (Hrm & Hgone & _).
  destruct (run_defers_spec env ds (start w9)) as (_ & _ & _ & [t' Ht']).
  fold w10 in Ht'.
  split.
  - exists (t ++ t'). rewrite Hrm, Ht'. change (trace (start w9)) with (trace w9).
    rewrite Ht, Ht2, <- !app_assoc. reflexivity.
  - intros Hnone. rewrite (Hgone Hnone). intros Hin.
    apply elem_of_difference in Hin as [_ Hn]. apply Hn.
    apply elem_of_singleton. reflexivity.
Qed.

Lemma tmpdir_removed_last_witness :
  let sc := with_statuses [still_running] buildpack_scenario in
  (run_scenario sc "on-cluster" ∅).1 = Panicked nil_dereference
  /\ (exists t, trace (run_scenario sc "on-cluster" ∅).2
                = [SetPathRegexp pathRegexp; MkdirAll "/home/git/foo.git/build";
                   TempDir "/home/git/foo.git/build"]
                  ++ t ++ [RemoveAll "/home/git/foo.git/build/tmp123456"])
  /\ "/home/git/foo.git/build/tmp123456" ∉ dirs (run_scenario sc "on-cluster" ∅).2.
Proof.
  intros sc. split; [vm_compute; reflexivity|].
  destruct (tmpdir_removed_last (scenario_env sc) (foo_conf "on-cluster") "builder-key"
              foo_sha (world_with ∅) PullAlways PullIfNotPresent _
              "/home/git/foo.git/build/tmp123456"
              ltac:(vm_compute; reflexivity) ltac:(vm_compute; reflexivity)
              ltac:(vm_compute; reflexivity) ltac:(vm_compute; reflexivity)
              ltac:(vm_compute; reflexivity)) as ([t Ht] & Hgone).
  split; [exists t; exact Ht | exact (Hgone eq_refl)].
Defined.

(** ** The pods and the releases of a build *)

Lemma launch_pods env conf stack pod n w r w' :
  launch env conf stack pod n w = (r, w') ->
  pods w' = pods w \/ pods w' = pods w ++ [(PodNamespace conf, pod)].
Proof.
  intros H. destruct w as [o s p b d t df].
  exec H. all: cbv [pods]; auto.
Qed.

(** Up to the copy of the log, at most one pod is created, and exactly
    one when the build gets that far. *)
Lemma before_copyLogs_pods env conf raw w0 r w5 :
  before_copyLogs env conf raw w0 = (r, w5) ->
  exists ps, pods w5 = pods w0 ++ ps /\ (length ps <= 1)%nat
             /\ (forall x, r = Next x -> length ps = 1%nat).
Proof.
  unfold before_copyLogs. intros H.
  assert (Hpre : forall r3 w3, before_podSpec env conf raw w0 = (r3, w3) ->
                               pods w3 = pods w0).
  { intros r3 w3. unfold before_podSpec.
    apply (keeps_bind (fun w w' => pods w' = pods w)); [congruence | |].
    - intros w r' w' Hp. apply prepare_spec in Hp as (_ & Hp & _). exact Hp.
    - intros l. apply keeps_bind; [congruence | |].
      + intros w r' w' Hp. apply invalidateCache_spec in Hp as (_ & Hp & _). exact Hp.
      + intros _. apply keeps_bind; [congruence | |].
        * intros w r' w' Hp. apply snapshot_spec in Hp as (_ & Hp & _). exact Hp.
        * intros stack. apply keeps_ret. reflexivity. }
  apply bind_inv in H as [([l stack] & w3 & H3 & H) | [(err & H3 & ->) | (msg & H3 & ->)]].
  2,3: exists []; rewrite app_nil_r; split; [exact (Hpre _ _ H3)|];
       split; [simpl; lia | discriminate].
  apply Hpre in H3.
  apply bind_inv in H
    as [([[pod n] image] & w4 & H4 & H) | [(err & H4 & ->) | (msg & H4 & ->)]].
  2,3: exists []; rewrite app_nil_r; apply podSpec_spec in H4 as (_ & H4 & _);
       split; [congruence|]; split; [simpl; lia | discriminate].
  apply podSpec_spec in H4 as (_ & H4 & _).
  apply bind_inv in H
    as [([namespace name] & w5' & H5 & H) | [(err & H5 & ->) | (msg & H5 & ->)]].
  - injection H as <- <-. apply launch_spec in H5 as (_ & _ & _ & _ & H5).
    destruct (H5 _ _ eq_refl) as (_ & _ & Hp).
    exists [(PodNamespace conf, pod)]. split; [congruence|]. split; [simpl; lia | auto].
  - apply launch_pods in H5 as [H5|H5].
    + exists []. rewrite app_nil_r. split; [congruence|]. split; [simpl; lia | discriminate].
    + exists [(PodNamespace conf, pod)]. split; [congruence|].
      split; [simpl; lia | discriminate].
  - apply launch_pods in H5 as [H5|H5].
    + exists []. rewrite app_nil_r. split; [congruence|]. split; [simpl; lia | discriminate].
    + exists [(PodNamespace conf, pod)]. split; [congruence|].
      split; [simpl; lia | discriminate].
Qed.

(** Once the log is to be copied, no pod is created any more. *)
Lemma after_before_copyLogs_pods env conf raw w0 r w5 :
  before_copyLogs env conf raw w0 = (r, w5) ->
  pods (build_body env conf raw w0).2 = pods w5.
Proof.
  apply (after_before_copyLogs (fun w w' => pods w' = pods w)).
  - reflexivity.
  - congruence.
  - intros l stack image w r' w' H. apply publish_spec in H as (H & _). exact H.
  - intros w r' w' H. apply copyLogs_spec in H as (_ & H & _). exact H.
  - intros namespace name w r' w' H. apply awaitEnd_spec in H as (_ & H & _). exact H.
Qed.

(** X3: whatever its outcome, a build creates at most one pod and
    requests at most one release, and a release only when it has created
    its pod; it deletes no pod, so that the pod it has created is still
    there when it returns. *)
Theorem one_pod_one_release env conf key raw w :
  exists ps bs,
    pods (build env conf key raw w).2 = pods w ++ ps
    /\ builds (build env conf key raw w).2 = builds w ++ bs
    /\ (length bs <= length ps <= 1)%nat.
Proof.
  rewrite build_end. set (w9 := (build_body env conf raw (start w)).2).
  destruct (run_defers_spec env (defers w9) (start w9)) as (-> & -> & _).
  change (pods (start w9)) with (pods w9). change (builds (start w9)) with (builds w9).
  destruct (before_copyLogs env conf raw (start w)) as [r5 w5] eqn:H5.
  pose proof (after_before_copyLogs_pods _ _ _ _ _ _ H5) as Hp9. fold w9 in Hp9.
  destruct (before_copyLogs_pods _ _ _ _ _ _ H5) as (ps & Hps & Hle & Hone).
  change (pods (start w)) with (pods w) in Hps.
  exists ps. rewrite Hp9, Hps.
  destruct (before_publish env conf raw (start w)) as [r8 w8] eqn:H8.
  destruct (silent_before_publish _ _ _ _ _ _ H8) as [(Hb8 & _) _].
  change (builds (start w)) with (builds w) in Hb8.
  assert (Hbody : build_body env conf raw (start w) = (before_publish env conf raw ≫=
                    (fun '(l, stack, image) => publish env conf l stack image)) (start w))
    by reflexivity.
  destruct r8 as [[[l stack] image]|err|msg].
  - (* the build has come to publish: its pod is there *)
    assert (Hlen : length ps = 1%nat).
    { pose proof H8 as Hinv.
      apply before_publish_inv in Hinv as (statuses & Hinv & _).
      apply before_checkExitCodes_inv in Hinv as (namespace & name & w5' & w6 & Hinv & _).
      rewrite H5 in Hinv. injection Hinv as -> _. eapply Hone. reflexivity. }
    rewrite (bind_next _ _ _ _ _ H8) in Hbody.
    destruct (publish env conf l stack image w8) as [r w'] eqn:Hpub.
    assert (Hw9 : w9 = w') by (unfold w9; rewrite Hbody; reflexivity).
    apply publish_spec in Hpub as (_ & _ & _ & _ & _ & Hrel).
    destruct Hrel as [[Hsame _] | [procType [Hreq _]]].
    + exists []. rewrite app_nil_r, Hw9, Hsame, Hb8.
      split; [reflexivity|]. split; [reflexivity | simpl; lia].
    + eexists [_]. rewrite Hw9, Hreq, Hb8.
      split; [reflexivity|]. split; [reflexivity | simpl; lia].
  - rewrite (bind_return _ _ _ _ _ H8) in Hbody.
    assert (Hw9 : w9 = w8) by (unfold w9; rewrite Hbody; reflexivity).
    exists []. rewrite app_nil_r, Hw9, Hb8.
    split; [reflexivity|]. split; [reflexivity | simpl; lia].
  - rewrite (bind_panic _ _ _ _ _ H8) in Hbody.
    assert (Hw9 : w9 = w8) by (unfold w9; rewrite Hbody; reflexivity).
    exists []. rewrite app_nil_r, Hw9, Hb8.
    split; [reflexivity|]. split; [reflexivity | simpl; lia].
Qed.

(** ** Builds that fail *)

Lemma calls_app (t1 t2 : list Event) : calls (t1 ++ t2) = calls t1 ++ calls t2.
Proof. apply List.filter_app. Qed.

(** The calls of the deferred calls are those that were deferred, from the
    top of the stack down; the rest is their log. *)
Lemma run_defers_exact env ds w :
  exists t, trace (run_defers env ds w) = trace w ++ t
            /\ calls t = deferred_call <$> ds.
Proof.
  revert w. induction ds as [|d ds IH]; intros w; simpl.
  - exists []. split; [symmetry; apply app_nil_r | reflexivity].
  - destruct (IH (run_deferred env d w).2) as (t2 & Ht2 & Hc2).
    destruct (run_deferred env d w) as [r w'] eqn:H.
    destruct w as [o s p b dd t df]. destruct d.
    all: exec H; cbv [snd trace] in *.
    all: rewrite Ht2, <- ?app_assoc; eexists; split; [reflexivity|].
    all: rewrite !calls_app, Hc2; reflexivity.
Qed.

(** A build whose body returns before the end returns the same, after the
    deferred calls. *)
Lemma build_return_before_publish env conf key raw w err w1 :
  before_publish env conf raw (start w) = (Return err, w1) ->
  build env conf key raw w = (Returned err, cleanup env w1).
Proof.
  intros H. unfold build, build_body. rewrite (bind_return _ _ _ _ _ H). reflexivity.
Qed.

Lemma build_return_before_checkExitCodes env conf key raw w err w1 :
  before_checkExitCodes env conf raw (start w) = (Return err, w1) ->
  build env conf key raw w = (Returned err, cleanup env w1).
Proof.
  intros H. apply build_return_before_publish.
  unfold before_publish. apply bind_return. exact H.
Qed.

Lemma build_return_before_copyLogs env conf key raw w err w1 :
  before_copyLogs env conf raw (start w) = (Return err, w1) ->
  build env conf key raw w = (Returned err, cleanup env w1).
Proof.
  intros H. apply build_return_before_checkExitCodes.
  unfold before_checkExitCodes. apply bind_return. exact H.
Qed.

Lemma build_return_before_podSpec env conf key raw w err w1 :
  before_podSpec env conf raw (start w) = (Return err, w1) ->
  build env conf key raw w = (Returned err, cleanup env w1).
Proof.
  intros H. apply build_return_before_copyLogs.
  unfold before_copyLogs. apply bind_return. exact H.
Qed.

(** What the deferred calls leave of the world [w1] in which the body has
    ended, when the stack of deferred calls is known. *)
Lemma cleanup_spec env w1 ds :
  defers w1 = ds ->
  pods (cleanup env w1) = pods w1 /\ builds (cleanup env w1) = builds w1
  /\ objects (cleanup env w1) = objects w1
  /\ exists t, trace (cleanup env w1) = trace w1 ++ t
               /\ calls t = deferred_call <$> ds.
Proof.
  intros <-. unfold cleanup.
  destruct (run_defers_spec env (defers w1) (start w1)) as (Hb & Hp & Ho & _).
  destruct (run_defers_exact env (defers w1) (start w1)) as (t & Ht & Hc).
  repeat split; try assumption. exists t. split; assumption.
Qed.

(** The deferred calls when the pod is to be specified, and once it has
    been. *)
Lemma defers_before_podSpec env conf raw w l stack w3 :
  before_podSpec env conf raw (start w) = (Next (l, stack), w3) ->
  appName l = App conf /\ defers w3 = [DeferRemoveTmp (tmpDir l)]
  /\ pods w3 = pods w /\ builds w3 = builds w /\ secrets w3 = secrets w.
Proof.
  intros H. destruct (silent_before_podSpec _ _ _ _ _ _ H) as [(Hb & _) _].
  apply before_podSpec_inv in H as (w1 & w2 & Hprep & Hinv & Hsnap).
  apply prepare_spec in Hprep as (_ & Hp1 & Hs1 & _ & _ & _ & _ & Hl).
  destruct (Hl l eq_refl) as (Happ & _ & _ & Hd1).
  pose proof Hinv as Hq. apply invalidateCache_spec in Hq as (_ & Hp2 & Hs2 & _).
  apply invalidateCache_defers in Hinv as (Hd2 & _).
  pose proof Hsnap as Hq. apply snapshot_spec in Hq as (_ & Hp3 & Hs3 & _).
  apply snapshot_calls in Hsnap as (Hd3 & _).
  destruct (start_fields w) as (Hb0 & Hp0 & Hs0 & _).
  split; [exact Happ|]. split; [rewrite Hd3, Hd2, Hd1; reflexivity|].
  split; [congruence|]. split; [congruence | congruence].
Qed.

Lemma deferred_cleanup_calls env conf raw w l stack w3 pod n image w4 :
  before_podSpec env conf raw (start w) = (Next (l, stack), w3) ->
  podSpec env conf l stack w3 = (Next (pod, n, image), w4) ->
  deferred_call <$> defers w4 = cleanup_calls conf l stack
  /\ pod_Namespace pod = PodNamespace conf /\ pod_Name pod = n
  /\ pods w4 = pods w /\ builds w4 = builds w.
Proof.
  intros H Hpod. apply defers_before_podSpec in H as (Happ & Hd3 & Hp3 & Hb3 & _).
  pose proof Hpod as Hq. apply podSpec_spec in Hq as ((Hb4 & _) & Hp4 & _ & _ & Hq).
  destruct (Hq _ _ _ eq_refl) as (Hn & Hns & _).
  apply podSpec_calls in Hpod as (_ & Hc). cbv zeta in Hc.
  destruct (Hc _ eq_refl) as (Hd4 & _).
  split; [|repeat split; congruence].
  rewrite Hd4, Hd3, Happ. unfold cleanup_calls.
  destruct (negb (strings.Contains (index stack "name") "container")); reflexivity.
Qed.

(** [launch], when the pod cannot be created, does not start, or its log
    cannot be opened. *)
Lemma launch_failures env conf stack pod n w r w' :
  launch env conf stack pod n w = (r, w') ->
  let ns := PodNamespace conf in
  (forall e, createPodFault env pod = Some e ->
     r = Return (Some (Errorf ("creating builder pod (" +:+ Error e +:+ ")")))
     /\ pods w' = pods w /\ defers w' = defers w
     /\ exists t, trace w' = trace w ++ t /\ calls t = [KubeCreatePod ns pod])
  /\ (forall e, createPodFault env pod = None ->
        waitForPod env (pod_Namespace pod) (pod_Name pod) = Some e ->
        r = Return (Some (Errorf ("watching events for builder pod startup ("
                                  +:+ Error e +:+ ")")))
        /\ pods w' = pods w ++ [(ns, pod)] /\ defers w' = DeferCloseStop :: defers w
        /\ exists t, trace w' = trace w ++ t
             /\ calls t = [KubeCreatePod ns pod; WatcherRun ns;
                           WaitForPod (pod_Namespace pod) (pod_Name pod)])
  /\ (forall e, createPodFault env pod = None ->
        waitForPod env (pod_Namespace pod) (pod_Name pod) = None ->
        openLogStream env (pod_Namespace pod) (pod_Name pod) = Some e ->
        r = Return (Some (Errorf ("attempting to stream logs (" +:+ Error e +:+ ")")))
        /\ pods w' = pods w ++ [(ns, pod)] /\ defers w' = DeferCloseStop :: defers w
        /\ exists t, trace w' = trace w ++ t
             /\ calls t = [KubeCreatePod ns pod; WatcherRun ns;
                           WaitForPod (pod_Namespace pod) (pod_Name pod);
                           KubeStreamLog (pod_Namespace pod) (pod_Name pod)]).
Proof.
  intros H ns. subst ns. destruct w as [o s p b d t df].
  exec H.
  all: split; [|split].
  all: intros; try congruence; simplify_eq.
  all: split; [reflexivity|]. all: split; [reflexivity|]. all: split; [reflexivity|].
  all: cbv [trace]; rewrite <- ?app_assoc; eexists; split; reflexivity.
Qed.

(** X8: a build whose pod has been specified fails when the pod cannot
    be created, does not start in time, or has a log that cannot be opened,
    with the error wrapped accordingly, and requests no release. The
    watcher is stopped only if it was started, that is once the pod is
    created; the log stream that was not opened is not closed; the pod,
    once created, is left in the cluster; the secret of a slug build is
    deleted and the temporary directory removed in every case. *)
Theorem pod_start_failure env conf key raw w l stack w3 pod n image w4 :
  before_podSpec env conf raw (start w) = (Next (l, stack), w3) ->
  podSpec env conf l stack w3 = (Next (pod, n, image), w4) ->
  let ns := PodNamespace conf in
  let name := pod_Name pod in
  let out := build env conf key raw w in
  (forall e, createPodFault env pod = Some e ->
        out.1 = Returned (Some (Errorf ("creating builder pod (" +:+ Error e +:+ ")")))
        /\ pods out.2 = pods w /\ builds out.2 = builds w
        /\ exists t, trace out.2 = trace w4 ++ t
             /\ calls t = [KubeCreatePod ns pod] ++ cleanup_calls conf l stack)
  /\ (forall e, createPodFault env pod = None -> waitForPod env ns name = Some e ->
        out.1 = Returned (Some (Errorf ("watching events for builder pod startup ("
                                        +:+ Error e +:+ ")")))
        /\ pods out.2 = pods w ++ [(ns, pod)] /\ builds out.2 = builds w
        /\ exists t, trace out.2 = trace w4 ++ t
             /\ calls t = [KubeCreatePod ns pod; WatcherRun ns; WaitForPod ns name;
                           WatcherStop] ++ cleanup_calls conf l stack)
  /\ (forall e, createPodFault env pod = None -> waitForPod env ns name = None ->
        openLogStream env ns name = Some e ->
        out.1 = Returned (Some (Errorf ("attempting to stream logs (" +:+ Error e +:+ ")")))
        /\ pods out.2 = pods w ++ [(ns, pod)] /\ builds out.2 = builds w
        /\ exists t, trace out.2 = trace w4 ++ t
             /\ calls t = [KubeCreatePod ns pod; WatcherRun ns; WaitForPod ns name;
                           KubeStreamLog ns name; WatcherStop]
                          ++ cleanup_calls conf l stack).
Proof.
  intros Hpre Hpod ns name out. subst ns name out.
  destruct (deferred_cleanup_calls _ _ _ _ _ _ _ _ _ _ _ Hpre Hpod)
    as (Hclean & Hns & Hname & Hp4 & Hb4).
  destruct (launch env conf stack pod n w4) as [r w5] eqn:Hlaunch.
  assert (Hfail : forall err, r = Return err ->
            build env conf key raw w = (Returned err, cleanup env w5)
            /\ builds w5 = builds w).
  { intros err ->. split.
    - apply build_return_before_copyLogs.
      unfold before_copyLogs. rewrite (bind_next _ _ _ _ _ Hpre). cbv beta iota.
      rewrite (bind_next _ _ _ _ _ Hpod). cbv beta iota.
      apply bind_return. exact Hlaunch.
    - apply launch_spec in Hlaunch as ((Hb & _) & _). congruence. }
  pose proof (launch_failures _ _ _ _ _ _ _ _ Hlaunch) as (Hcreate & Hwait & Hopen).
  rewrite Hns in Hwait, Hopen.
  split; [|split].
  - intros e He. destruct (Hcreate e He) as (-> & Hp & Hd & t & Ht & Hc).
    destruct (Hfail _ eq_refl) as [-> Hb5]. cbn [fst snd].
    destruct (cleanup_spec env w5 _ eq_refl) as (Hp9 & Hb9 & _ & t9 & Ht9 & Hc9).
    split; [reflexivity|]. split; [congruence|]. split; [congruence|].
    exists (t ++ t9). split; [rewrite Ht9, Ht, <- app_assoc; reflexivity|].
    rewrite calls_app, Hc, Hc9, Hd, Hclean. reflexivity.
  - intros e Hc0 He. destruct (Hwait e Hc0 He) as (-> & Hp & Hd & t & Ht & Hc).
    destruct (Hfail _ eq_refl) as [-> Hb5]. cbn [fst snd].
    destruct (cleanup_spec env w5 _ eq_refl) as (Hp9 & Hb9 & _ & t9 & Ht9 & Hc9).
    split; [reflexivity|]. split; [congruence|]. split; [congruence|].
    exists (t ++ t9). split; [rewrite Ht9, Ht, <- app_assoc; reflexivity|].
    rewrite calls_app, Hc, Hc9, Hd, fmap_cons, Hclean. reflexivity.
  - intros e Hc0 Hw0 He. destruct (Hopen e Hc0 Hw0 He) as (-> & Hp & Hd & t & Ht & Hc).
    destruct (Hfail _ eq_refl) as [-> Hb5]. cbn [fst snd].
    destruct (cleanup_spec env w5 _ eq_refl) as (Hp9 & Hb9 & _ & t9 & Ht9 & Hc9).
    split; [reflexivity|]. split; [congruence|]. split; [congruence|].
    exists (t ++ t9). split; [rewrite Ht9, Ht, <- app_assoc; reflexivity|].
    rewrite calls_app, Hc, Hc9, Hd, fmap_cons, Hclean. reflexivity.
Qed.

(** The build of a scenario, run up to the specification of the pod, and
    then through it: the variables and the worlds are named, so that they
    are evaluated once. *)
Ltac reach_podSpec env conf raw w :=
  let r := eval vm_compute in (before_podSpec env conf raw (start w)) in
  lazymatch r with
  | (Next (?l, ?stack), ?w') =>
      let l0 := fresh "l0" in
      let stack0 := fresh "stack0" in
      let w3 := fresh "w3" in
      let Hpre := fresh "Hpre" in
      pose (l0 := l); pose (stack0 := stack); pose (w3 := w');
      assert (Hpre : before_podSpec env conf raw (start w) = (Next (l0, stack0), w3))
        by (vm_compute; reflexivity)
  end.

Ltac reach_launch :=
  lazymatch goal with
  | Hpre : before_podSpec ?env ?conf _ _ = (Next (?l0, ?stack0), ?w3) |- _ =>
      let r := eval vm_compute in (podSpec env conf l0 stack0 w3) in
      lazymatch r with
      | (Next (?pod, ?n, ?image), ?w') =>
          let pod0 := fresh "pod0" in
          let w4 := fresh "w4" in
          let Hpod := fresh "Hpod" in
          pose (pod0 := pod); pose (w4 := w');
          assert (Hpod : podSpec env conf l0 stack0 w3 = (Next (pod0, n, image), w4))
            by (vm_compute; reflexivity)
      end
  end.

Lemma pod_start_failure_witness :
  (build pod_timeout_env (foo_conf "on-cluster") "builder-key" foo_sha (world_with ∅)).1
  = Returned (Some (Errorf "watching events for builder pod startup (timed out)"))
  /\ exists pod t1 t,
       pods (build pod_timeout_env (foo_conf "on-cluster") "builder-key" foo_sha
               (world_with ∅)).2 = [("drycc", pod)]
       /\ trace (build pod_timeout_env (foo_conf "on-cluster") "builder-key" foo_sha
                   (world_with ∅)).2 = t1 ++ t
       /\ calls t = [KubeCreatePod "drycc" pod; WatcherRun "drycc";
                     WaitForPod "drycc" "slug-foo-abc12345"; WatcherStop;
                     KubeDeleteSecret "drycc" "foo-build-env";
                     RemoveAll "/home/git/foo.git/build/tmp123456"].
Proof.
  reach_podSpec pod_timeout_env (foo_conf "on-cluster") foo_sha (world_with ∅).
  reach_launch.
  destruct (pod_start_failure pod_timeout_env (foo_conf "on-cluster") "builder-key"
              foo_sha (world_with ∅) _ _ _ _ _ _ _ Hpre Hpod) as (_ & Hwait & _).
  destruct (Hwait (ErrorString "timed out") ltac:(vm_compute; reflexivity)
              ltac:(vm_compute; reflexivity))
    as (Hout & Hpods & _ & t & Ht & Hc).
  split; [exact Hout|].
  exists pod0, (trace w4), t. split; [exact Hpods|]. split; [exact Ht | exact Hc].
Defined.

(** A build that returns [err] from the world [w'] of its body: what it
    leaves, and its calls since the world [w0]. *)
Lemma build_fails env conf key raw w err w' w0 t :
  build env conf key raw w = (Returned err, cleanup env w') ->
  trace w' = trace w0 ++ t ->
  (build env conf key raw w).1 = Returned err
  /\ pods (build env conf key raw w).2 = pods w'
  /\ builds (build env conf key raw w).2 = builds w'
  /\ objects (build env conf key raw w).2 = objects w'
  /\ exists t', trace (build env conf key raw w).2 = trace w0 ++ t'
                /\ calls t' = calls t ++ (deferred_call <$> defers w').
Proof.
  intros -> Ht. cbn [fst snd].
  destruct (cleanup_spec env w' _ eq_refl) as (Hp & Hb & Ho & t9 & Ht9 & Hc9).
  repeat split; try assumption.
  exists (t ++ t9). split; [rewrite Ht9, Ht, <- app_assoc; reflexivity|].
  rewrite calls_app, Hc9. reflexivity.
Qed.

(** [snapshot], when one of its four steps fails. *)
Lemma snapshot_failures env l w r w' :
  snapshot env l w = (r, w') ->
  let appTgz := appName l +:+ ".tar.gz" in
  let absAppTgz := repoDir l +:+ "/" +:+ appTgz in
  let tarKey := TarKey (slugBuilderInfo l) in
  (forall e, cmdRun env (gitArchiveCmd l) = Some e ->
     r = Return (Some (Errorf ("running " +:+ strings.Join (Args (gitArchiveCmd l)) " "
                               +:+ " (" +:+ Error e +:+ ")")))
     /\ objects w' = objects w
     /\ exists t, trace w' = trace w ++ t /\ calls t = [Exec (gitArchiveCmd l)])
  /\ (forall e, cmdRun env (gitArchiveCmd l) = None -> cmdRun env (tarCmd l) = Some e ->
        r = Return (Some (Errorf ("running " +:+ strings.Join (Args (tarCmd l)) " "
                                  +:+ " (" +:+ Error e +:+ ")")))
        /\ objects w' = objects w
        /\ exists t, trace w' = trace w ++ t
             /\ calls t = [Exec (gitArchiveCmd l); Exec (tarCmd l)])
  /\ (forall e, cmdRun env (gitArchiveCmd l) = None -> cmdRun env (tarCmd l) = None ->
        ioReadFile env absAppTgz = Err e ->
        r = Return (Some (Errorf ("error while reading file " +:+ appTgz +:+ ": ("
                                  +:+ Error e +:+ ")")))
        /\ objects w' = objects w
        /\ exists t, trace w' = trace w ++ t
             /\ calls t = [Exec (gitArchiveCmd l); Exec (tarCmd l)])
  /\ (forall data e,
        cmdRun env (gitArchiveCmd l) = None -> cmdRun env (tarCmd l) = None ->
        ioReadFile env absAppTgz = Ok data ->
        storageFault env (OpPutContent tarKey) = Some e ->
        r = Return (Some (Errorf ("uploading " +:+ absAppTgz +:+ " to " +:+ tarKey
                                  +:+ " (" +:+ Error e +:+ ")")))
        /\ objects w' = objects w
        /\ exists t, trace w' = trace w ++ t
             /\ calls t = [Exec (gitArchiveCmd l); Exec (tarCmd l);
                           StorPutContent tarKey data]).
Proof.
  intros H appTgz absAppTgz tarKey. subst appTgz absAppTgz tarKey.
  destruct w as [o s p b d t df].
  destruct l as [dp sp sha an rd td sn cl ac].
  cbv [gitArchiveCmd tarCmd repoCmd repoDir appName tmpDir gitSha Args].
  exec H.
  all: split; [|split; [|split]].
  all: intros; try congruence; simplify_eq.
  all: split; [reflexivity|]. all: split; [reflexivity|].
  all: cbv [trace]; rewrite <- ?app_assoc; eexists; split; reflexivity.
Qed.

(** X9: a build that has its configuration fails when [git archive] or
    [tar] fails, when the tarball cannot be read, or when it cannot be
    uploaded; the error names the command (or the file, or the file and
    its key) and carries the cause. The later steps are not taken: no
    pod is created and no release requested, the store is as it was, and
    the temporary directory is removed. *)
Theorem snapshot_failure env conf key raw w l w1 w2 :
  prepare env conf raw (start w) = (Next l, w1) ->
  invalidateCache env l w1 = (Next tt, w2) ->
  let appTgz := App conf +:+ ".tar.gz" in
  let absAppTgz := repoDir l +:+ "/" +:+ appTgz in
  let tarKey := TarKey (slugBuilderInfo l) in
  let out := build env conf key raw w in
  let untouched := pods out.2 = pods w /\ builds out.2 = builds w
                   /\ objects out.2 = objects w2 in
  (forall e, cmdRun env (gitArchiveCmd l) = Some e ->
     out.1 = Returned
               (Some (Errorf ("running " +:+ strings.Join (Args (gitArchiveCmd l)) " "
                              +:+ " (" +:+ Error e +:+ ")")))
     /\ untouched
     /\ exists t, trace out.2 = trace w2 ++ t
          /\ calls t = [Exec (gitArchiveCmd l); RemoveAll (tmpDir l)])
  /\ (forall e, cmdRun env (gitArchiveCmd l) = None -> cmdRun env (tarCmd l) = Some e ->
        out.1 = Returned
                  (Some (Errorf ("running " +:+ strings.Join (Args (tarCmd l)) " "
                                 +:+ " (" +:+ Error e +:+ ")")))
        /\ untouched
        /\ exists t, trace out.2 = trace w2 ++ t
             /\ calls t = [Exec (gitArchiveCmd l); Exec (tarCmd l);
                           RemoveAll (tmpDir l)])
  /\ (forall e, cmdRun env (gitArchiveCmd l) = None -> cmdRun env (tarCmd l) = None ->
        ioReadFile env absAppTgz = Err e ->
        out.1 = Returned
                  (Some (Errorf ("error while reading file " +:+ appTgz +:+ ": ("
                                 +:+ Error e +:+ ")")))
        /\ untouched
        /\ exists t, trace out.2 = trace w2 ++ t
             /\ calls t = [Exec (gitArchiveCmd l); Exec (tarCmd l);
                           RemoveAll (tmpDir l)])
  /\ (forall data e,
        cmdRun env (gitArchiveCmd l) = None -> cmdRun env (tarCmd l) = None ->
        ioReadFile env absAppTgz = Ok data ->
        storageFault env (OpPutContent tarKey) = Some e ->
        out.1 = Returned
                  (Some (Errorf ("uploading " +:+ absAppTgz +:+ " to " +:+ tarKey
                                 +:+ " (" +:+ Error e +:+ ")")))
        /\ untouched
        /\ exists t, trace out.2 = trace w2 ++ t
             /\ calls t = [Exec (gitArchiveCmd l); Exec (tarCmd l);
                           StorPutContent tarKey data; RemoveAll (tmpDir l)]).
Proof.
  intros Hprep Hinv appTgz absAppTgz tarKey out untouched.
  subst appTgz absAppTgz tarKey out untouched.
  pose proof Hprep as Hq.
  apply prepare_spec in Hq as ((Hb1 & _) & Hp1 & _ & _ & _ & _ & _ & Hl).
  destruct (Hl l eq_refl) as (Happ & _ & _ & Hd1).
  pose proof Hinv as Hq. apply invalidateCache_spec in Hq as ((Hb2 & _) & Hp2 & _).
  pose proof Hinv as Hq. apply invalidateCache_defers in Hq as (Hd2 & _).
  destruct (start_fields w) as (Hb0 & Hp0 & _).
  rewrite <- Happ.
  destruct (snapshot env l w2) as [r w3] eqn:Hsnap.
  assert (Hfail : forall err, r = Return err ->
            build env conf key raw w = (Returned err, cleanup env w3)
            /\ pods w3 = pods w /\ builds w3 = builds w
            /\ deferred_call <$> defers w3 = [RemoveAll (tmpDir l)]).
  { intros err ->. split.
    - apply build_return_before_podSpec. unfold before_podSpec.
      rewrite (bind_next _ _ _ _ _ Hprep). rewrite (bind_next _ _ _ _ _ Hinv).
      apply bind_return. exact Hsnap.
    - pose proof Hsnap as Hq. apply snapshot_spec in Hq as ((Hb3 & _) & Hp3 & _).
      apply snapshot_calls in Hsnap as (Hd3 & _).
      split; [congruence|]. split; [congruence|].
      rewrite Hd3, Hd2, Hd1. reflexivity. }
  pose proof (snapshot_failures _ _ _ _ _ Hsnap) as (Harch & Htar & Hread & Hput).
  split; [|split; [|split]].
  - intros e He. destruct (Harch e He) as (-> & Ho & t & Ht & Hc).
    destruct (Hfail _ eq_refl) as (Hbuild & Hp3 & Hb3 & Hd3).
    destruct (build_fails _ _ _ _ _ _ _ _ _ Hbuild Ht) as (-> & -> & -> & -> & Htr).
    rewrite Hc, Hd3 in Htr.
    split; [reflexivity|]. split; [repeat split; congruence | exact Htr].
  - intros e Ha He. destruct (Htar e Ha He) as (-> & Ho & t & Ht & Hc).
    destruct (Hfail _ eq_refl) as (Hbuild & Hp3 & Hb3 & Hd3).
    destruct (build_fails _ _ _ _ _ _ _ _ _ Hbuild Ht) as (-> & -> & -> & -> & Htr).
    rewrite Hc, Hd3 in Htr.
    split; [reflexivity|]. split; [repeat split; congruence | exact Htr].
  - intros e Ha Htr0 He. destruct (Hread e Ha Htr0 He) as (-> & Ho & t & Ht & Hc).
    destruct (Hfail _ eq_refl) as (Hbuild & Hp3 & Hb3 & Hd3).
    destruct (build_fails _ _ _ _ _ _ _ _ _ Hbuild Ht) as (-> & -> & -> & -> & Htr).
    rewrite Hc, Hd3 in Htr.
    split; [reflexivity|]. split; [repeat split; congruence | exact Htr].
  - intros data e Ha Htr0 Hrd He.
    destruct (Hput data e Ha Htr0 Hrd He) as (-> & Ho & t & Ht & Hc).
    destruct (Hfail _ eq_refl) as (Hbuild & Hp3 & Hb3 & Hd3).
    destruct (build_fails _ _ _ _ _ _ _ _ _ Hbuild Ht) as (-> & -> & -> & -> & Htr).
    rewrite Hc, Hd3 in Htr.
    split; [reflexivity|]. split; [repeat split; congruence | exact Htr].
Qed.

(** [podSpec], when the registry details cannot be read or the secret
    cannot be made. *)
Lemma podSpec_failures env conf l stack w r w' :
  podSpec env conf l stack w = (r, w') ->
  let ns := PodNamespace conf in
  let secret := appName l +:+ "-build-env" in
  (forall sel e,
     buildBuilderPodNodeSelector (BuilderPodNodeSelector conf) = Ok sel ->
     strings.Contains (index stack "name") "container" = true ->
     RegistryLocation conf <> "on-cluster" ->
     getRegistryDetails env (appName l) (RegistryLocation conf) ns = Err e ->
     r = Return (Some (Errorf ("error getting private registry details " +:+ Error e)))
     /\ secrets w' = secrets w /\ defers w' = defers w
     /\ trace w' = trace w ++ [GetRegistryDetails (appName l) (RegistryLocation conf) ns])
  /\ (forall sel e,
        buildBuilderPodNodeSelector (BuilderPodNodeSelector conf) = Ok sel ->
        strings.Contains (index stack "name") "container" = false ->
        createSecretFault env ns secret = Some e ->
        r = Return (Some (Errorf ("error creating/updating secret " +:+ secret +:+ ": ("
                                  +:+ Error e +:+ ")")))
        /\ secrets w' = secrets w /\ defers w' = defers w
        /\ trace w' = trace w ++ [KubeCreateSecret ns secret]).
Proof.
  intros H ns secret. subst ns secret. destruct w as [o s p b d t df].
  destruct l as [dp sp sha an rd td sn cl ac]. cbv [appName].
  exec H.
  all: split.
  all: intros; try congruence; try contradiction; simplify_eq.
  all: repeat split; reflexivity.
Qed.

(** X10: a build that has uploaded its tarball and parsed its node
    selector fails when, for a stack whose name contains [container] and a
    registry off the cluster, the registry details cannot be read (the
    call of [getRegistryDetails] of line 171 is then the last one before
    the clean-up), and when, for any other stack, the environment secret
    cannot be made. In both cases nothing was deferred by then but the
    removal of the temporary directory: no deletion of the secret is
    attempted, no pod is created and no release requested. *)
Theorem pod_spec_failure env conf key raw w l stack w3 sel :
  before_podSpec env conf raw (start w) = (Next (l, stack), w3) ->
  buildBuilderPodNodeSelector (BuilderPodNodeSelector conf) = Ok sel ->
  let ns := PodNamespace conf in
  let secret := App conf +:+ "-build-env" in
  let out := build env conf key raw w in
  let untouched := pods out.2 = pods w /\ builds out.2 = builds w in
  (forall e,
     strings.Contains (index stack "name") "container" = true ->
     RegistryLocation conf <> "on-cluster" ->
     getRegistryDetails env (App conf) (RegistryLocation conf) ns = Err e ->
     out.1 = Returned (Some (Errorf ("error getting private registry details "
                                     +:+ Error e)))
     /\ untouched
     /\ exists t, trace out.2 = trace w3 ++ t
          /\ calls t = [GetRegistryDetails (App conf) (RegistryLocation conf) ns;
                        RemoveAll (tmpDir l)])
  /\ (forall e,
        strings.Contains (index stack "name") "container" = false ->
        createSecretFault env ns secret = Some e ->
        out.1 = Returned (Some (Errorf ("error creating/updating secret " +:+ secret
                                        +:+ ": (" +:+ Error e +:+ ")")))
        /\ untouched
        /\ exists t, trace out.2 = trace w3 ++ t
             /\ calls t = [KubeCreateSecret ns secret; RemoveAll (tmpDir l)]).
Proof.
  intros Hpre Hsel ns secret out untouched. subst ns secret out untouched.
  destruct (defers_before_podSpec _ _ _ _ _ _ _ Hpre) as (Happ & Hd3 & Hp3 & Hb3 & _).
  rewrite <- Happ.
  destruct (podSpec env conf l stack w3) as [r w4] eqn:Hpod.
  assert (Hfail : forall err, r = Return err ->
            build env conf key raw w = (Returned err, cleanup env w4)
            /\ pods w4 = pods w /\ builds w4 = builds w).
  { intros err ->. split.
    - apply build_return_before_copyLogs. unfold before_copyLogs.
      rewrite (bind_next _ _ _ _ _ Hpre). cbv beta iota.
      apply bind_return. exact Hpod.
    - apply podSpec_spec in Hpod as ((Hb4 & _) & Hp4 & _). split; congruence. }
  pose proof (podSpec_failures _ _ _ _ _ _ _ Hpod) as (Hreg & Hsec).
  split.
  - intros e Hc Hloc He. destruct (Hreg sel e Hsel Hc Hloc He) as (-> & _ & Hd & Ht).
    destruct (Hfail _ eq_refl) as (Hbuild & Hp4 & Hb4).
    destruct (build_fails _ _ _ _ _ _ _ _ _ Hbuild Ht) as (-> & -> & -> & _ & Htr).
    rewrite Hd, Hd3 in Htr.
    split; [reflexivity|]. split; [split; congruence | exact Htr].
  - intros e Hc He. destruct (Hsec sel e Hsel Hc He) as (-> & _ & Hd & Ht).
    destruct (Hfail _ eq_refl) as (Hbuild & Hp4 & Hb4).
    destruct (build_fails _ _ _ _ _ _ _ _ _ Hbuild Ht) as (-> & -> & -> & _ & Htr).
    rewrite Hd, Hd3 in Htr.
    split; [reflexivity|]. split; [split; congruence | exact Htr].
Qed.

(** ** A stack name that contains [container] without being it *)

(** For a stack whose name contains [container], [podSpec] makes at most
    one call: that of [getRegistryDetails], for a registry off the
    cluster. *)
Lemma podSpec_container_calls env conf l stack w r w' :
  strings.Contains (index stack "name") "container" = true ->
  podSpec env conf l stack w = (r, w') ->
  secrets w' = secrets w /\ defers w' = defers w
  /\ (trace w' = trace w
      \/ (RegistryLocation conf <> "on-cluster"
          /\ trace w' = trace w ++ [GetRegistryDetails (appName l) (RegistryLocation conf)
                                      (PodNamespace conf)])).
Proof.
  intros Hc H. destruct w as [o s p b d t df].
  destruct l as [dp sp sha an rd td sn cl ac]. cbv [appName].
  exec H. all: try congruence.
  all: cbv [secrets defers trace]; split; [reflexivity|]; split; [reflexivity|]; auto.
Qed.

(** [launch] posts the pod whatever comes after, and the pod is there once
    the API has accepted it. *)
Lemma launch_posts env conf stack pod n w r w' :
  launch env conf stack pod n w = (r, w') ->
  (exists t1 t2, trace w' = trace w ++ t1 ++ [KubeCreatePod (PodNamespace conf) pod] ++ t2)
  /\ (createPodFault env pod = None -> pods w' = pods w ++ [(PodNamespace conf, pod)]).
Proof.
  intros H. destruct w as [o s p b d t df].
  exec H.
  all: split; [|intros Hf; try congruence; reflexivity].
  all: cbv [trace]; rewrite <- ?app_assoc; cbn [app].
  all: lazymatch goal with
       | |- exists t1 t2, _ ++ ?l = @?rhs t1 t2 =>
           let rec go pre l :=
             lazymatch l with
             | KubeCreatePod _ _ :: ?rest => exists pre, rest
             | ?a :: ?l' => go constr:(pre ++ [a]) l'
             end in
           go constr:(@nil Event) l
       end.
  all: cbn [app]; reflexivity.
Qed.

(** C9: a build whose stack name contains [container] but is not
    [container] takes the docker builder's branch whenever it comes to
    specify its pod: it makes no environment secret and defers no deletion
    of one; when the pod cannot be specified the build returns that error
    and creates no pod; otherwise the pod is the docker builder's pod
    [docker-{app}-{shortSha}], with the registry location in its registry
    environment, that pod is posted to the cluster however the build ends,
    it is the only pod the build can have created, and it has been created
    once the API has accepted it. Yet a release that such a build requests
    has the slug object key as its image and [isContainer] false. In
    particular a successful build of such a stack has created exactly one
    pod, the docker builder's, and requested a slug release. *)
Theorem container_substring_mismatch env conf key raw w :
  let out := build env conf key raw w in
  (forall l stack w3 r w4,
     before_podSpec env conf raw (start w) = (Next (l, stack), w3) ->
     strings.Contains (index stack "name") "container" = true ->
     index stack "name" ≠ "container" ->
     podSpec env conf l stack w3 = (r, w4) ->
     secrets w4 = secrets w3 /\ defers w4 = defers w3
     /\ (forall err, r = Return err ->
           out.1 = Returned err /\ pods out.2 = pods w /\ builds out.2 = builds w)
     /\ (forall pod n image, r = Next (pod, n, image) ->
           n = dockerBuilderPodName (App conf) (Short (gitSha l))
           /\ pod_Name pod = n
           /\ (exists registryEnv,
                 pod_registryEnv pod = Some registryEnv
                 /\ registryEnv !! "DRYCC_REGISTRY_LOCATION" = Some (RegistryLocation conf))
           /\ (exists t1 t2,
                 trace out.2
                 = trace w ++ t1 ++ [KubeCreatePod (PodNamespace conf) pod] ++ t2)
           /\ (pods out.2 = pods w \/ pods out.2 = pods w ++ [(PodNamespace conf, pod)])
           /\ (createPodFault env pod = None ->
               pods out.2 = pods w ++ [(PodNamespace conf, pod)])
           /\ (forall request, builds out.2 = builds w ++ [request] ->
                 cb_stack request = index stack "name"
                 /\ cb_image request = AbsoluteSlugObjectKey (slugBuilderInfo l)
                 /\ cb_isContainer request = false)))
  /\ (forall w', out = (Returned None, w') ->
      exists request pod sha,
        NewSha raw = Ok sha
        /\ builds w' = builds w ++ [request]
        /\ pods w' = pods w ++ [(PodNamespace conf, pod)]
        /\ (strings.Contains (cb_stack request) "container" = true ->
            cb_stack request ≠ "container" ->
            pod_Name pod = dockerBuilderPodName (App conf) (Short sha)
            /\ (exists registryEnv,
                  pod_registryEnv pod = Some registryEnv
                  /\ registryEnv !! "DRYCC_REGISTRY_LOCATION" = Some (RegistryLocation conf))
            /\ (exists disableCaching,
                  cb_image request
                  = AbsoluteSlugObjectKey
                      (NewSlugBuilderInfo (App conf) (Short sha) disableCaching))
            /\ cb_isContainer request = false)).
Proof.
  intros out. subst out. split.
  - intros l stack w3 r w4 Hpre Hsub Hne Hpod.
    destruct (defers_before_podSpec _ _ _ _ _ _ _ Hpre) as (Happ & _ & Hp3 & Hb3 & _).
    destruct (podSpec_container_calls _ _ _ _ _ _ _ Hsub Hpod) as (Hs4 & Hd4 & _).
    pose proof Hpod as Hq. apply podSpec_spec in Hq as ((Hb4 & _) & Hp4 & _ & _ & Hspec).
    split; [exact Hs4|]. split; [exact Hd4|]. split.
    + intros err ->.
      assert (Hbuild : build env conf key raw w = (Returned err, cleanup env w4)).
      { apply build_return_before_copyLogs. unfold before_copyLogs.
        rewrite (bind_next _ _ _ _ _ Hpre). cbv beta iota.
        apply bind_return. exact Hpod. }
      destruct (build_fails _ _ _ _ _ _ _ w4 [] Hbuild) as (-> & -> & -> & _);
        [symmetry; apply app_nil_r|].
      split; [reflexivity|]. split; congruence.
    + intros pod n image ->.
      destruct (Hspec _ _ _ eq_refl) as (Hn & _ & sel & _ & Hbranch).
      rewrite Hsub in Hbranch.
      destruct Hbranch as (_ & _ & Hname & registryEnv & -> & _).
      rewrite Happ in Hname.
      split; [exact Hname|]. split; [exact Hn|]. split.
      { eexists. split; [reflexivity|]. apply lookup_insert_eq. }
      set (pod := dockerBuilderPod _ _ _ _ _ _ _ _ _ _ _ _ _ _) in *.
      destruct (launch env conf stack pod n w4) as [r5 w5] eqn:Hlaunch.
      assert (H5 : exists r5', before_copyLogs env conf raw (start w) = (r5', w5)).
      { unfold before_copyLogs. rewrite (bind_next _ _ _ _ _ Hpre). cbv beta iota.
        rewrite (bind_next _ _ _ _ _ Hpod). cbv beta iota.
        unfold mbind, M_bind. rewrite Hlaunch.
        destruct r5 as [[namespace name]|err|msg]; eexists; reflexivity. }
      destruct H5 as [r5' H5].
      pose proof (after_before_copyLogs_pods _ _ _ _ _ _ H5) as Hp9.
      pose proof (after_before_copyLogs onward onward_refl onward_trans env conf raw
                    (steady_publish env conf)
                    (silent_steady _ (silent_copyLogs env))
                    (fun namespace name =>
                       silent_steady _ (silent_awaitEnd env conf namespace name))
                    _ _ _ H5) as (_ & t9 & Ht9).
      destruct (silent_before_podSpec _ _ _ _ _ _ Hpre) as [(_ & _ & t3 & Ht3) _].
      change (trace (start w)) with (trace w) in Ht3.
      destruct (silent_podSpec _ _ _ _ _ _ _ Hpod) as [(_ & _ & t4 & Ht4) _].
      destruct (launch_posts _ _ _ _ _ _ _ _ Hlaunch) as ((t1 & t2 & Ht5) & Hposted).
      rewrite build_end.
      set (w9 := (build_body env conf raw (start w)).2) in *.
      destruct (run_defers_spec env (defers w9) (start w9)) as (Hb10 & Hp10 & _ & t10 & Ht10).
      change (trace (start w9)) with (trace w9) in Ht10.
      change (pods (start w9)) with (pods w9) in Hp10.
      change (builds (start w9)) with (builds w9) in Hb10.
      rewrite Hp10, Hp9.
      split; [|split; [|split]].
      * exists (t3 ++ t4 ++ t1), (t2 ++ t9 ++ t10).
        rewrite Ht10, Ht9, Ht5, Ht4, Ht3, <- !app_assoc. reflexivity.
      * apply launch_pods in Hlaunch as [Hl|Hl]; [left | right]; congruence.
      * intros Hok. rewrite (Hposted Hok). congruence.
      * intros request Hb. rewrite Hb10 in Hb. subst w9.
        destruct (before_publish env conf raw (start w)) as [r8 w8] eqn:H8.
        destruct (silent_before_publish _ _ _ _ _ _ H8) as [(Hb8 & _) _].
        change (builds (start w)) with (builds w) in Hb8.
        unfold build_body in Hb.
        destruct r8 as [[[l' stack'] image']|err|msg].
        2:{ rewrite (bind_return _ _ _ _ _ H8) in Hb. cbn [snd] in Hb.
            exfalso. apply (app_singleton_neq (builds w) request). congruence. }
        2:{ rewrite (bind_panic _ _ _ _ _ H8) in Hb. cbn [snd] in Hb.
            exfalso. apply (app_singleton_neq (builds w) request). congruence. }
        rewrite (bind_next _ _ _ _ _ H8) in Hb. cbv beta iota in Hb.
        pose proof H8 as Hq. apply before_publish_inv in Hq as (statuses & Hq & _).
        apply before_checkExitCodes_inv in Hq as (namespace & name & w5' & w6 & Hq & _).
        apply before_copyLogs_inv in Hq as (w3' & pod' & n' & w4' & Hq & _).
        rewrite Hpre in Hq. injection Hq as <- <- _.
        destruct (publish env conf l stack image' w8) as [flow w9] eqn:Hpub.
        cbn [snd] in Hb.
        apply publish_spec in Hpub as (_ & _ & _ & _ & _ & Hrel).
        destruct Hrel as [[Hsame _] | [procType [Hreq _]]].
        -- exfalso. apply (app_singleton_neq (builds w) request). congruence.
        -- rewrite Hreq, Hb8 in Hb. apply app_inv_head in Hb. injection Hb as <-.
           cbn [cb_stack cb_image cb_isContainer release_request].
           unfold published_image.
           split; [reflexivity|]. split.
           ++ destruct (decide (index stack "name" ≠ "container")) as [_|Hc];
                [reflexivity | contradiction].
           ++ apply bool_decide_eq_false. exact Hne.
  - intros w' H.
    apply build_success in H
      as (l & stack & pod & n & image & namespace & name & statuses & procType & w3 & w4
          & Happ & Hsha & _ & _ & _ & Hpod & _ & Hpods & _ & _ & _ & _ & Hb & _).
    eexists. exists pod, (gitSha l).
    split; [exact Hsha|]. split; [exact Hb|]. split; [exact Hpods|].
    cbn [cb_stack cb_image cb_isContainer release_request]. unfold published_image.
    intros Hsub Hne.
    apply podSpec_spec in Hpod as (_ & _ & _ & _ & Hspec).
    destruct (Hspec _ _ _ eq_refl) as (Hn & _ & sel & _ & Hbranch).
    rewrite Hsub in Hbranch.
    destruct Hbranch as (_ & _ & Hname & registryEnv & -> & _).
    rewrite Happ in Hname.
    split; [exact Hname|]. split.
    + eexists. split; [reflexivity|]. apply lookup_insert_eq.
    + split.
      * destruct (decide (index stack "name" ≠ "container")) as [_|Hc]; [|contradiction].
        eexists. unfold slugBuilderInfo. rewrite Happ. reflexivity.
      * apply bool_decide_eq_false. exact Hne.
Qed.

(** The build of the stack [my-container-stack]: when it succeeds, and
    when its builder fails with exit code 7, in which case no release is
    requested: in both the pod is the docker builder's. *)
Lemma container_substring_mismatch_witness :
  (exists request pod sha registryEnv disableCaching,
     NewSha foo_sha = Ok sha
     /\ builds (run_scenario my_container_stack_scenario "on-cluster" ∅).2 = [request]
     /\ pods (run_scenario my_container_stack_scenario "on-cluster" ∅).2 = [("drycc", pod)]
     /\ cb_stack request = "my-container-stack"
     /\ pod_Name pod = dockerBuilderPodName "foo" (Short sha)
     /\ pod_registryEnv pod = Some registryEnv
     /\ registryEnv !! "DRYCC_REGISTRY_LOCATION" = Some "on-cluster"
     /\ cb_image request
        = AbsoluteSlugObjectKey (NewSlugBuilderInfo "foo" (Short sha) disableCaching)
     /\ cb_isContainer request = false)
  /\ (run_scenario failing_container_stack_scenario "on-cluster" ∅).1
     = Returned (Some (BuilderFailed 7))
  /\ (exists pod,
        pods (run_scenario failing_container_stack_scenario "on-cluster" ∅).2
        = [("drycc", pod)]
        /\ pod_Name pod = "docker-foo-abc12345"
        /\ secrets (run_scenario failing_container_stack_scenario "on-cluster" ∅).2 = ∅).
Proof.
  split; [|split].
  - assert (Hrun : build (scenario_env my_container_stack_scenario)
                     (foo_conf "on-cluster") "builder-key" foo_sha (world_with ∅)
                   = (Returned None,
                      (run_scenario my_container_stack_scenario "on-cluster" ∅).2))
      by (vm_compute; reflexivity).
    destruct (container_substring_mismatch (scenario_env my_container_stack_scenario)
                (foo_conf "on-cluster") "builder-key" foo_sha (world_with ∅))
      as (_ & Hsuccess).
    destruct (Hsuccess _ Hrun) as (request & pod & sha & Hsha & Hb & Hp & Hc).
    assert (Hreq : cb_stack request = "my-container-stack").
    { vm_compute in Hb. injection Hb as <-. reflexivity. }
    rewrite Hreq in Hc.
    destruct (Hc eq_refl ltac:(discriminate))
      as (Hname & (registryEnv & Hre & Hloc) & (disableCaching & Himg) & Hfalse).
    exists request, pod, sha, registryEnv, disableCaching. auto 10.
  - vm_compute. reflexivity.
  - reach_podSpec (scenario_env failing_container_stack_scenario) (foo_conf "on-cluster")
      foo_sha (world_with ∅).
    reach_launch.
    destruct (container_substring_mismatch (scenario_env failing_container_stack_scenario)
                (foo_conf "on-cluster") "builder-key" foo_sha (world_with ∅))
      as (Hkind & _).
    destruct (Hkind _ _ _ _ _ Hpre ltac:(vm_compute; reflexivity)
                ltac:(vm_compute; discriminate) Hpod) as (_ & _ & _ & Hpod').
    destruct (Hpod' _ _ _ eq_refl) as (Hn & Hname & _ & _ & _ & Hposted & _).
    exists pod0. split; [exact (Hposted eq_refl)|].
    split; [rewrite Hname, Hn; vm_compute; reflexivity | vm_compute; reflexivity].
Defined.

(** The build of the stack [my-container-stack]: the pod is the docker
    builder's, the release is a slug release. *)
Example my_container_stack_build :
  (run_scenario my_container_stack_scenario "on-cluster" ∅).1 = Returned None
  /\ (pod_Name ∘ snd) <$> pods (run_scenario my_container_stack_scenario "on-cluster" ∅).2
     = ["docker-foo-abc12345"]
  /\ (fun r => (cb_stack r, cb_image r, cb_isContainer r))
       <$> builds (run_scenario my_container_stack_scenario "on-cluster" ∅).2
     = [("my-container-stack", "home/foo:git-abc12345/push/slug.tgz", false)].
Proof. compute_each. Qed.

(** The deferred calls once the log stream is open. *)
Lemma deferred_after_launch env conf raw w l stack image namespace name w5 :
  before_copyLogs env conf raw (start w) = (Next (l, stack, image, namespace, name), w5) ->
  deferred_call <$> defers w5 = [CloseStream; WatcherStop] ++ cleanup_calls conf l stack
  /\ namespace = PodNamespace conf /\ builds w5 = builds w.
Proof.
  intros H. destruct (silent_before_copyLogs _ _ _ _ _ _ H) as [(Hb & _) _].
  apply before_copyLogs_inv in H as (w3 & pod & n & w4 & Hpre & Hpod & Hlaunch).
  destruct (deferred_cleanup_calls _ _ _ _ _ _ _ _ _ _ _ Hpre Hpod)
    as (Hclean & Hns & _).
  pose proof Hlaunch as Hq. apply launch_spec in Hq as (_ & _ & _ & _ & Hq).
  destruct (Hq _ _ eq_refl) as (-> & _).
  apply launch_calls in Hlaunch as (_ & Hc). destruct (Hc _ eq_refl) as (Hd5 & _).
  split; [rewrite Hd5, !fmap_cons, Hclean; reflexivity|].
  split; [exact Hns | exact Hb].
Qed.

(** [awaitEnd], when the wait or the fetch of the pod fails. *)
Lemma awaitEnd_failures env conf namespace name w r w' :
  awaitEnd env conf namespace name w = (r, w') ->
  (forall e, waitForPodEnd env namespace name = Some e ->
     r = Return (Some (Errorf ("error getting builder pod status ("
                               +:+ Error e +:+ ")")))
     /\ exists t, trace w' = trace w ++ t /\ calls t = [WaitForPodEnd namespace name])
  /\ (forall e, waitForPodEnd env namespace name = None ->
        getPod env namespace name = Err e ->
        r = Return (Some (Errorf ("error getting builder pod status ("
                                  +:+ Error e +:+ ")")))
        /\ exists t, trace w' = trace w ++ t
             /\ calls t = [WaitForPodEnd namespace name; KubeGetPod namespace name]).
Proof.
  intros H. destruct w as [o s p b d t df].
  exec H.
  all: split.
  all: intros; try congruence; simplify_eq.
  all: split; [reflexivity|].
  all: cbv [trace]; rewrite <- ?app_assoc; eexists; split; reflexivity.
Qed.

(** X11: once the log has been copied, a failure of the wait for the
    end of the pod and a failure of the fetch of the pod both fail the
    build with the same message, [error getting builder pod status]; after
    a failed wait the pod is not fetched. No release is requested; the
    stream is closed, the watcher stopped, the secret of a slug build
    deleted and the temporary directory removed. *)
Theorem pod_end_failure env conf key raw w l stack image namespace name w5 w6 :
  before_copyLogs env conf raw (start w) = (Next (l, stack, image, namespace, name), w5) ->
  copyLogs env w5 = (Next tt, w6) ->
  let out := build env conf key raw w in
  (forall e, waitForPodEnd env namespace name = Some e ->
     out.1 = Returned (Some (Errorf ("error getting builder pod status ("
                                     +:+ Error e +:+ ")")))
     /\ builds out.2 = builds w
     /\ exists t, trace out.2 = trace w6 ++ t
          /\ calls t = [WaitForPodEnd namespace name; CloseStream; WatcherStop]
                       ++ cleanup_calls conf l stack)
  /\ (forall e, waitForPodEnd env namespace name = None ->
        getPod env namespace name = Err e ->
        out.1 = Returned (Some (Errorf ("error getting builder pod status ("
                                        +:+ Error e +:+ ")")))
        /\ builds out.2 = builds w
        /\ exists t, trace out.2 = trace w6 ++ t
             /\ calls t = [WaitForPodEnd namespace name; KubeGetPod namespace name;
                           CloseStream; WatcherStop]
                          ++ cleanup_calls conf l stack).
Proof.
  intros Hpre Hcopy out. subst out.
  destruct (deferred_after_launch _ _ _ _ _ _ _ _ _ _ Hpre) as (Hd5 & _ & Hb5).
  pose proof Hcopy as Hq. apply copyLogs_spec in Hq as ((Hb6 & _) & _).
  pose proof Hcopy as Hq. apply copyLogs_calls in Hq as (Hd6 & _).
  destruct (awaitEnd env conf namespace name w6) as [r w7] eqn:Hend.
  assert (Hfail : forall err, r = Return err ->
            build env conf key raw w = (Returned err, cleanup env w7)
            /\ builds w7 = builds w
            /\ deferred_call <$> defers w7
               = [CloseStream; WatcherStop] ++ cleanup_calls conf l stack).
  { intros err ->. split.
    - apply build_return_before_checkExitCodes. unfold before_checkExitCodes.
      rewrite (bind_next _ _ _ _ _ Hpre). cbv beta iota.
      rewrite (bind_next _ _ _ _ _ Hcopy).
      apply bind_return. exact Hend.
    - pose proof Hend as Hq. apply awaitEnd_spec in Hq as ((Hb7 & _) & _).
      apply awaitEnd_calls in Hend as (Hd7 & _).
      split; [congruence|]. rewrite Hd7, Hd6. exact Hd5. }
  pose proof (awaitEnd_failures _ _ _ _ _ _ _ Hend) as (Hwait & Hget).
  split.
  - intros e He. destruct (Hwait e He) as (-> & t & Ht & Hc).
    destruct (Hfail _ eq_refl) as (Hbuild & Hb7 & Hd7).
    destruct (build_fails _ _ _ _ _ _ _ _ _ Hbuild Ht) as (-> & _ & -> & _ & Htr).
    rewrite Hc, Hd7 in Htr. split; [reflexivity|]. split; [exact Hb7 | exact Htr].
  - intros e Hw He. destruct (Hget e Hw He) as (-> & t & Ht & Hc).
    destruct (Hfail _ eq_refl) as (Hbuild & Hb7 & Hd7).
    destruct (build_fails _ _ _ _ _ _ _ _ _ Hbuild Ht) as (-> & _ & -> & _ & Htr).
    rewrite Hc, Hd7 in Htr. split; [reflexivity|]. split; [exact Hb7 | exact Htr].
Qed.

Ltac reach_snapshot env conf raw w :=
  let r := eval vm_compute in (prepare env conf raw (start w)) in
  lazymatch r with
  | (Next ?l, ?w') =>
      let l0 := fresh "l0" in
      let w1 := fresh "w1" in
      let Hprep := fresh "Hprep" in
      pose (l0 := l); pose (w1 := w');
      assert (Hprep : prepare env conf raw (start w) = (Next l0, w1))
        by (vm_compute; reflexivity);
      let r2 := eval vm_compute in (invalidateCache env l0 w1) in
      lazymatch r2 with
      | (Next tt, ?w'') =>
          let w2 := fresh "w2" in
          let Hinv := fresh "Hinv" in
          pose (w2 := w'');
          assert (Hinv : invalidateCache env l0 w1 = (Next tt, w2))
            by (vm_compute; reflexivity)
      end
  end.

Ltac reach_awaitEnd env conf raw w :=
  let r := eval vm_compute in (before_copyLogs env conf raw (start w)) in
  lazymatch r with
  | (Next (?l, ?stack, ?image, ?namespace, ?name), ?w') =>
      let l0 := fresh "l0" in
      let stack0 := fresh "stack0" in
      let w5 := fresh "w5" in
      let Hpre := fresh "Hpre" in
      pose (l0 := l); pose (stack0 := stack); pose (w5 := w');
      assert (Hpre : before_copyLogs env conf raw (start w)
                     = (Next (l0, stack0, image, namespace, name), w5))
        by (vm_compute; reflexivity);
      let r2 := eval vm_compute in (copyLogs env w5) in
      lazymatch r2 with
      | (Next tt, ?w'') =>
          let w6 := fresh "w6" in
          let Hcopy := fresh "Hcopy" in
          pose (w6 := w'');
          assert (Hcopy : copyLogs env w5 = (Next tt, w6)) by (vm_compute; reflexivity)
      end
  end.

Lemma snapshot_failure_witness :
  (build tar_failure_env (foo_conf "on-cluster") "builder-key" foo_sha (world_with ∅)).1
  = Returned (Some (Errorf ("running tar -xzf foo.tar.gz -C "
                            +:+ "/home/git/foo.git/build/tmp123456/ (exit status 2)")))
  /\ pods (build tar_failure_env (foo_conf "on-cluster") "builder-key" foo_sha
             (world_with ∅)).2 = []
  /\ objects (build tar_failure_env (foo_conf "on-cluster") "builder-key" foo_sha
                (world_with ∅)).2 = ∅.
Proof.
  reach_snapshot tar_failure_env (foo_conf "on-cluster") foo_sha (world_with ∅).
  destruct (snapshot_failure tar_failure_env (foo_conf "on-cluster") "builder-key"
              foo_sha (world_with ∅) _ _ _ Hprep Hinv) as (_ & Htar & _).
  destruct (Htar (ErrorString "exit status 2") ltac:(vm_compute; reflexivity)
              ltac:(vm_compute; reflexivity)) as (Hout & (Hp & _ & Ho) & _).
  split; [exact Hout|]. split; [exact Hp | exact Ho].
Defined.

Lemma pod_spec_failure_witness :
  (build no_secret_env (foo_conf "on-cluster") "builder-key" foo_sha (world_with ∅)).1
  = Returned (Some (Errorf ("error creating/updating secret foo-build-env: "
                            +:+ "(secrets is forbidden)")))
  /\ exists t1 t,
       trace (build no_secret_env (foo_conf "on-cluster") "builder-key" foo_sha
                (world_with ∅)).2 = t1 ++ t
       /\ calls t = [KubeCreateSecret "drycc" "foo-build-env";
                     RemoveAll "/home/git/foo.git/build/tmp123456"].
Proof.
  reach_podSpec no_secret_env (foo_conf "on-cluster") foo_sha (world_with ∅).
  destruct (pod_spec_failure no_secret_env (foo_conf "on-cluster") "builder-key"
              foo_sha (world_with ∅) _ _ _ _ Hpre
              ltac:(vm_compute; reflexivity)) as (_ & Hsec).
  destruct (Hsec (ErrorString "secrets is forbidden") ltac:(vm_compute; reflexivity)
              ltac:(vm_compute; reflexivity)) as (Hout & _ & t & Ht & Hc).
  split; [exact Hout|]. exists (trace w3), t. split; [exact Ht | exact Hc].
Defined.

Lemma pod_end_failure_witness :
  (build pod_gone_env (foo_conf "on-cluster") "builder-key" foo_sha (world_with ∅)).1
  = Returned (Some (Errorf "error getting builder pod status (pods not found)"))
  /\ builds (build pod_gone_env (foo_conf "on-cluster") "builder-key" foo_sha
               (world_with ∅)).2 = []
  /\ exists t1 t,
       trace (build pod_gone_env (foo_conf "on-cluster") "builder-key" foo_sha
                (world_with ∅)).2 = t1 ++ t
       /\ calls t = [WaitForPodEnd "drycc" "slug-foo-abc12345";
                     KubeGetPod "drycc" "slug-foo-abc12345"; CloseStream; WatcherStop;
                     KubeDeleteSecret "drycc" "foo-build-env";
                     RemoveAll "/home/git/foo.git/build/tmp123456"].
Proof.
  reach_awaitEnd pod_gone_env (foo_conf "on-cluster") foo_sha (world_with ∅).
  destruct (pod_end_failure pod_gone_env (foo_conf "on-cluster") "builder-key"
              foo_sha (world_with ∅) _ _ _ _ _ _ _ Hpre Hcopy) as (_ & Hget).
  destruct (Hget (ErrorString "pods not found") ltac:(vm_compute; reflexivity)
              ltac:(vm_compute; reflexivity)) as (Hout & Hb & t & Ht & Hc).
  split; [exact Hout|]. split; [exact Hb|].
  exists (trace w6), t. split; [exact Ht | exact Hc].
Defined.

(** The deferred calls when the release is to be published. *)
Lemma deferred_before_publish env conf raw w l stack image w8 :
  before_publish env conf raw (start w) = (Next (l, stack, image), w8) ->
  deferred_call <$> defers w8 = [CloseStream; WatcherStop] ++ cleanup_calls conf l stack
  /\ builds w8 = builds w.
Proof.
  intros H. destruct (silent_before_publish _ _ _ _ _ _ H) as [(Hb & _) _].
  apply before_publish_inv in H as (statuses & H & _).
  apply before_checkExitCodes_inv in H as (namespace & name & w5 & w6 & H & Hcopy & Hend).
  destruct (deferred_after_launch _ _ _ _ _ _ _ _ _ _ H) as (Hd5 & _).
  apply copyLogs_calls in Hcopy as (Hd6 & _).
  apply awaitEnd_calls in Hend as (Hd7 & _).
  split; [rewrite Hd7, Hd6; exact Hd5 | exact Hb].
Qed.

(** The resolution of the Procfile only reads. *)
Lemma getProcFile_world env dirName procfileKey stack w r w' :
  getProcFile env (storagedriver.GetContent env) dirName procfileKey stack w = (r, w') ->
  builds w' = builds w /\ defers w' = defers w /\ pods w' = pods w
  /\ secrets w' = secrets w /\ objects w' = objects w.
Proof.
  intros H. destruct w as [o s p b d t df].
  exec H. all: repeat split; reflexivity.
Qed.

(** X12: when every container of the pod has exited with code 0 but the
    Procfile cannot be resolved, the build returns the error of
    [getProcFile] as it is. The controller is not asked for a release and
    the progress indicator is not started: after the resolution the build
    only runs its deferred calls. *)
Theorem procfile_failure env conf key raw w l stack image w8 e w9 :
  before_publish env conf raw (start w) = (Next (l, stack, image), w8) ->
  getProcFile env (storagedriver.GetContent env) (tmpDir l)
    (AbsoluteProcfileKey (slugBuilderInfo l)) stack
    (with_trace (fun t => t ++ [Log Debugging "Done"]) w8) = (Next (Err e), w9) ->
  (build env conf key raw w).1 = Returned (Some e)
  /\ builds (build env conf key raw w).2 = builds w
  /\ exists t, trace (build env conf key raw w).2 = trace w9 ++ t
       /\ calls t = [CloseStream; WatcherStop] ++ cleanup_calls conf l stack.
Proof.
  intros Hpre Hget.
  destruct (deferred_before_publish _ _ _ _ _ _ _ _ Hpre) as (Hd8 & Hb8).
  assert (Hpub : publish env conf l stack image w8 = (Return (Some e), w9)).
  { unfold publish. cbv [mbind M_bind logDebug emit modify].
    rewrite Hget. reflexivity. }
  assert (Hbuild : build env conf key raw w = (Returned (Some e), cleanup env w9)).
  { unfold build, build_body. rewrite (bind_next _ _ _ _ _ Hpre). cbv beta iota.
    rewrite Hpub. reflexivity. }
  apply getProcFile_world in Hget as (Hb9 & Hd9 & _).
  destruct (build_fails _ _ _ _ _ _ _ w9 [] Hbuild) as (-> & _ & -> & _ & Htr);
    [symmetry; apply app_nil_r|].
  rewrite Hd9 in Htr.
  assert (Hd : defers (with_trace (fun t => t ++ [Log Debugging "Done"]) w8) = defers w8)
    by (destruct w8; reflexivity).
  assert (Hb : builds (with_trace (fun t => t ++ [Log Debugging "Done"]) w8) = builds w8)
    by (destruct w8; reflexivity).
  rewrite Hd, Hd8 in Htr.
  split; [reflexivity|]. split; [congruence | exact Htr].
Qed.

Ltac reach_publish env conf raw w :=
  let r := eval vm_compute in (before_publish env conf raw (start w)) in
  lazymatch r with
  | (Next (?l, ?stack, ?image), ?w') =>
      let l0 := fresh "l0" in
      let stack0 := fresh "stack0" in
      let w8 := fresh "w8" in
      let Hpre := fresh "Hpre" in
      pose (l0 := l); pose (stack0 := stack); pose (w8 := w');
      assert (Hpre : before_publish env conf raw (start w) = (Next (l0, stack0, image), w8))
        by (vm_compute; reflexivity);
      let r2 := eval vm_compute in
                (getProcFile env (storagedriver.GetContent env) (tmpDir l0)
                   (AbsoluteProcfileKey (slugBuilderInfo l0)) stack0
                   (with_trace (fun t => t ++ [Log Debugging "Done"]) w8)) in
      lazymatch r2 with
      | (?res, ?w'') =>
          let w9 := fresh "w9" in
          let Hget := fresh "Hget" in
          pose (w9 := w'');
          assert (Hget : getProcFile env (storagedriver.GetContent env) (tmpDir l0)
                           (AbsoluteProcfileKey (slugBuilderInfo l0)) stack0
                           (with_trace (fun t => t ++ [Log Debugging "Done"]) w8)
                         = (res, w9))
            by (vm_compute; reflexivity)
      end
  end.

Lemma procfile_failure_witness :
  (run_scenario malformed_procfile_scenario "on-cluster" ∅).1
  = Returned (Some (Errorf ("procfile home/foo:git-abc12345/push/Procfile is malformed "
                            +:+ "(yaml: unmarshal errors)")))
  /\ builds (run_scenario malformed_procfile_scenario "on-cluster" ∅).2 = []
  /\ exists t1 t,
       trace (run_scenario malformed_procfile_scenario "on-cluster" ∅).2 = t1 ++ t
       /\ calls t = [CloseStream; WatcherStop; KubeDeleteSecret "drycc" "foo-build-env";
                     RemoveAll "/home/git/foo.git/build/tmp123456"].
Proof.
  reach_publish (scenario_env malformed_procfile_scenario) (foo_conf "on-cluster")
    foo_sha (world_with ∅).
  destruct (procfile_failure (scenario_env malformed_procfile_scenario)
              (foo_conf "on-cluster") "builder-key" foo_sha (world_with ∅)
              _ _ _ _ _ _ Hpre Hget) as (Hout & Hb & t & Ht & Hc).
  split; [exact Hout|]. split; [exact Hb|].
  exists (trace w9), t. split; [exact Ht | exact Hc].
Defined.

(** X16: the pod of a successful build whose stack name does not contain
    [container] is the slug builder's: it is named [slug-{app}-{shortSha}],
    reads the environment from the secret [{app}-build-env], takes the
    tarball from the tar key and pushes to the push key of the application
    and SHA, is pulled with the slug builder's pull policy and placed by
    the node selector of the configuration. Its cache key is the
    application's, unless the application has disabled caching: then it is
    empty. *)
Theorem slug_build_pod env conf key raw w w' :
  build env conf key raw w = (Returned None, w') ->
  exists l stack sel slugPP,
    NewSha raw = Ok (gitSha l)
    /\ appName l = App conf
    /\ appConf l = (GetAppConfig env (Username conf) (App conf)).1
    /\ stack = getStack env (tmpDir l) (appConf l)
    /\ buildBuilderPodNodeSelector (BuilderPodNodeSelector conf) = Ok sel
    /\ PullPolicyFromString (SlugBuilderImagePullPolicy conf) = Ok slugPP
    /\ (strings.Contains (index stack "name") "container" = false ->
        let info := slugBuilderInfo l in
        pods w'
        = pods w
          ++ [(PodNamespace conf,
               slugbuilderPod (Debug conf)
                 (slugBuilderPodName (App conf) (Short (gitSha l)))
                 (PodNamespace conf) (Values (appConf l)) (App conf +:+ "-build-env")
                 (TarKey info) (PushKey info)
                 (if bool_decide (is_Some (Values (appConf l) !! "DRYCC_DISABLE_CACHE"))
                  then "" else CacheKey info)
                 (Short (gitSha l)) (StorageType conf) (index stack "image")
                 slugPP sel)]).
Proof.
  intros H.
  apply build_success in H
    as (l & stack & pod & n & image & namespace & name & statuses & procType & w3 & w4
        & Happ & Hsha & Hconf & Hstack & Hpre & Hpod & _ & Hpods & _).
  apply podSpec_spec in Hpod as (_ & _ & _ & _ & Hspec).
  destruct (Hspec _ _ _ eq_refl) as (_ & _ & sel & Hsel & Hbranch).
  assert (Hpp : PullPolicyFromString (SlugBuilderImagePullPolicy conf)
                = Ok (slugBuilderImagePullPolicy l)).
  { apply before_podSpec_inv in Hpre as (w1 & w2 & Hprep & _).
    unfold prepare in Hprep.
    apply bind_inv in Hprep
      as [(vars & w0 & Hset & Hfetch) | [(? & _ & ?) | (? & _ & ?)]];
      [ | discriminate | discriminate ].
    rewrite setup_cases in Hset. cbv zeta in Hset.
    destruct (PullPolicyFromString (DockerBuilderImagePullPolicy conf)); [|discriminate].
    destruct (PullPolicyFromString (SlugBuilderImagePullPolicy conf)); [|discriminate].
    destruct (NewSha raw); [|discriminate].
    destruct (osMkdirAll env _); [discriminate|].
    destruct (ioTempDir env _ _); [|discriminate].
    destruct (controller.New env _ _); [|discriminate].
    injection Hset as <- <-.
    unfold fetchAppConfig in Hfetch.
    cbv [mbind M_bind mret M_ret return_ emit modify controller.CheckAPICompat logInfo]
      in Hfetch.
    destruct (GetAppConfig env (Username conf) (App conf)) as [cfg err].
    destruct (decide (err = Some ErrAPIMismatch)); cbv beta iota in Hfetch.
    - injection Hfetch as <- _. reflexivity.
    - destruct err; [discriminate|]. injection Hfetch as <- _. reflexivity. }
  exists l, stack, sel, (slugBuilderImagePullPolicy l).
  do 6 (split; [assumption|]).
  intros Hslug info. rewrite Hslug in Hbranch.
  destruct Hbranch as (_ & -> & -> & _). rewrite Hpods, Happ. subst info.
  unfold slugBuilderInfo at 3. unfold DisableCaching, NewSlugBuilderInfo. cbn [sbi_disableCaching].
  destruct (bool_decide (is_Some (Values (appConf l) !! "DRYCC_DISABLE_CACHE")));
    reflexivity.
Qed.

Lemma slug_build_pod_witness :
  exists values sel,
    pods (run_scenario no_cache_scenario "on-cluster" ∅).2
    = [("drycc",
        slugbuilderPod false "slug-foo-abc12345" "drycc" values "foo-build-env"
          "home/foo:git-abc12345/tar" "home/foo:git-abc12345/push" ""
          "abc12345" "minio" "registry/slugbuilder:18" PullIfNotPresent sel)].
Proof.
  assert (Hrun : build (scenario_env no_cache_scenario) (foo_conf "on-cluster")
                   "builder-key" foo_sha (world_with ∅)
                 = (Returned None, (run_scenario no_cache_scenario "on-cluster" ∅).2))
    by (vm_compute; reflexivity).
  destruct (slug_build_pod _ _ _ _ _ _ Hrun)
    as (l & stack & sel & slugPP & Hsha & Happ & Hconf & Hstack & Hsel & Hpp & Hpods).
  exists (Values (appConf l)), sel.
  rewrite Hpods by (rewrite Hstack; vm_compute; reflexivity).
  assert (Hn : NewSha foo_sha = Ok {| full := foo_sha; short := "abc12345" |})
    by (vm_compute; reflexivity).
  rewrite Hn in Hsha. injection Hsha as Hsha.
  vm_compute in Hpp. injection Hpp as <-.
  unfold slugBuilderInfo. rewrite Happ, <- Hsha, Hstack.
  assert (Hdis : bool_decide (is_Some (Values (appConf l) !! "DRYCC_DISABLE_CACHE")) = true)
    by (rewrite Hconf; vm_compute; reflexivity).
  rewrite Hdis. reflexivity.
Defined.

(** ** Relations kept by the phases up to a point of the body *)

Section prefix.

Context (R : World -> World -> Prop).
Hypothesis R_refl : forall w, R w w.
Hypothesis R_trans : forall w1 w2 w3, R w1 w2 -> R w2 w3 -> R w1 w3.
Context (env : Env) (conf : Config) (raw : string).

Hypothesis R_prepare : keeps R (prepare env conf raw).
Hypothesis R_invalidateCache : forall l, keeps R (invalidateCache env l).
Hypothesis R_snapshot : forall l, keeps R (snapshot env l).

Lemma keeps_before_podSpec : keeps R (before_podSpec env conf raw).
Proof.
  unfold before_podSpec.
  apply keeps_bind; [exact R_trans | exact R_prepare |]. intros l.
  apply keeps_bind; [exact R_trans | apply R_invalidateCache |]. intros _.
  apply keeps_bind; [exact R_trans | apply R_snapshot |]. intros stack.
  apply keeps_ret. exact R_refl.
Qed.

Hypothesis R_podSpec : forall l stack, keeps R (podSpec env conf l stack).
Hypothesis R_launch : forall stack pod n, keeps R (launch env conf stack pod n).

Lemma keeps_before_copyLogs : keeps R (before_copyLogs env conf raw).
Proof.
  unfold before_copyLogs.
  apply keeps_bind; [exact R_trans | exact keeps_before_podSpec |]. intros [l stack].
  apply keeps_bind; [exact R_trans | apply R_podSpec |]. intros [[pod n] image].
  apply keeps_bind; [exact R_trans | apply R_launch |]. intros [namespace name].
  apply keeps_ret. exact R_refl.
Qed.

Hypothesis R_copyLogs : keeps R (copyLogs env).
Hypothesis R_awaitEnd : forall namespace name, keeps R (awaitEnd env conf namespace name).

Lemma keeps_before_publish : keeps R (before_publish env conf raw).
Proof.
  unfold before_publish, before_checkExitCodes.
  apply keeps_bind; [exact R_trans | |].
  - apply keeps_bind; [exact R_trans | exact keeps_before_copyLogs |].
    intros [[[[l stack] image] namespace] name].
    apply keeps_bind; [exact R_trans | exact R_copyLogs |]. intros _.
    apply keeps_bind; [exact R_trans | apply R_awaitEnd |]. intros statuses.
    apply keeps_ret. exact R_refl.
  - intros [[[l stack] image] statuses].
    apply keeps_bind; [exact R_trans | apply keeps_checkExitCodes; exact R_refl |].
    intros _. apply keeps_ret. exact R_refl.
Qed.

End prefix.

(** A body that does not come to specify the pod ends where it stopped. *)
Lemma body_stops env conf raw w0 r w3 :
  before_podSpec env conf raw w0 = (r, w3) -> (forall x, r <> Next x) ->
  (build_body env conf raw w0).2 = w3.
Proof.
  intros H Hr. unfold build_body, before_publish, before_checkExitCodes, before_copyLogs.
  destruct r as [x|err|msg]; [destruct (Hr x eq_refl)| |].
  - rewrite (bind_return _ _ _ _ _ (bind_return _ _ _ _ _ (bind_return _ _ _ _ _
              (bind_return _ _ _ _ _ H)))). reflexivity.
  - rewrite (bind_panic _ _ _ _ _ (bind_panic _ _ _ _ _ (bind_panic _ _ _ _ _
              (bind_panic _ _ _ _ _ H)))). reflexivity.
Qed.

(** ** The secrets of a build *)

Lemma no_secret_refl (w : World) : no_secret w w.
Proof.
  split; [reflexivity|]. split; [|auto].
  exists []. split; [symmetry; apply app_nil_r | reflexivity].
Qed.

Lemma no_secret_trans (w1 w2 w3 : World) :
  no_secret w1 w2 -> no_secret w2 w3 -> no_secret w1 w3.
Proof.
  intros (Hs1 & (t1 & Ht1 & Hf1) & Hd1) (Hs2 & (t2 & Ht2 & Hf2) & Hd2).
  split; [congruence|]. split; [|auto].
  exists (t1 ++ t2). split; [rewrite Ht2, Ht1, app_assoc; reflexivity|].
  rewrite forallb_app, Hf1, Hf2. reflexivity.
Qed.

(** No call on a secret in what a phase has done. *)
Ltac solve_no_secret :=
  split; [reflexivity|];
  split;
  [ cbv [trace]; rewrite <- ?app_assoc;
    first [ exists []; split; [symmetry; apply app_nil_r | reflexivity]
          | eexists; split; reflexivity ]
  | cbv [defers forallb keeps_secrets andb]; auto ].

Lemma no_secret_prepare env conf raw : keeps no_secret (prepare env conf raw).
Proof.
  intros w r w' H. destruct w as [o s p b d t df]. exec H. all: solve_no_secret.
Qed.

Lemma no_secret_invalidateCache env l : keeps no_secret (invalidateCache env l).
Proof.
  intros w r w' H. destruct w as [o s p b d t df]. exec H. all: solve_no_secret.
Qed.

Lemma no_secret_snapshot env l : keeps no_secret (snapshot env l).
Proof.
  intros w r w' H. destruct w as [o s p b d t df]. exec H. all: solve_no_secret.
Qed.

Lemma forallb_filter_nil {A} (f : A -> bool) (t : list A) :
  forallb (fun e => negb (f e)) t = true -> List.filter f t = [].
Proof.
  induction t as [|e t IH]; simpl; [reflexivity|].
  intros H. apply andb_prop in H as [He Ht]. destruct (f e); [discriminate | auto].
Qed.

Lemma no_secret_launch env conf stack pod n : keeps no_secret (launch env conf stack pod n).
Proof.
  intros w r w' H. destruct w as [o s p b d t df]. exec H. all: solve_no_secret.
Qed.

Lemma no_secret_copyLogs env : keeps no_secret (copyLogs env).
Proof.
  intros w r w' H. destruct w as [o s p b d t df]. exec H. all: solve_no_secret.
Qed.

Lemma no_secret_awaitEnd env conf namespace name :
  keeps no_secret (awaitEnd env conf namespace name).
Proof.
  intros w r w' H. destruct w as [o s p b d t df]. exec H. all: solve_no_secret.
Qed.

Lemma no_secret_publish env conf l stack image :
  keeps no_secret (publish env conf l stack image).
Proof.
  intros w r w' H. destruct w as [o s p b d t df]. exec H. all: solve_no_secret.
Qed.

(** Deferred calls that delete no secret leave the secrets alone. *)
Lemma run_defers_no_secret env ds w :
  forallb keeps_secrets ds = true ->
  secrets (run_defers env ds w) = secrets w
  /\ exists t, trace (run_defers env ds w) = trace w ++ t
               /\ forallb (fun e => negb (touches_secret e)) t = true.
Proof.
  revert w. induction ds as [|d ds IH]; intros w Hf; simpl.
  - split; [reflexivity|]. exists []. split; [symmetry; apply app_nil_r | reflexivity].
  - simpl in Hf. apply andb_prop in Hf as [Hd Hf].
    destruct (IH (run_deferred env d w).2 Hf) as (Hs & t2 & Ht2 & Hf2).
    destruct (run_deferred env d w) as [r w'] eqn:H.
    destruct w as [o s p b dd t df]. destruct d; try discriminate.
    all: exec H; cbv [snd secrets trace] in *.
    all: split; [exact Hs|].
    all: rewrite Ht2, <- ?app_assoc; eexists; split; [reflexivity|].
    all: cbn [app forallb touches_secret negb andb]; exact Hf2.
Qed.

(** X7: a build whose stack name contains [container] creates no secret
    and deletes none, however it ends, and the secrets are as it found
    them. Its only call on the secrets of the cluster is that of
    [getRegistryDetails] (line 171), which reads the registry secret: it is
    made at most once, and only for a registry off the cluster; with the
    registry on the cluster the build makes no call on the secrets at
    all. *)
Theorem container_build_no_secret env conf key raw w :
  (forall l stack w3,
     before_podSpec env conf raw (start w) = (Next (l, stack), w3) ->
     strings.Contains (index stack "name") "container" = true) ->
  let read := GetRegistryDetails (App conf) (RegistryLocation conf) (PodNamespace conf) in
  secrets (build env conf key raw w).2 = secrets w
  /\ exists t, trace (build env conf key raw w).2 = trace w ++ t
               /\ (List.filter touches_secret t = []
                   \/ (RegistryLocation conf <> "on-cluster"
                       /\ List.filter touches_secret t = [read])).
Proof.
  intros Hstack read. subst read.
  rewrite build_end. set (w9 := (build_body env conf raw (start w)).2).
  destruct (before_podSpec env conf raw (start w)) as [r3 w3] eqn:H3.
  assert (Hpre : no_secret (start w) w3).
  { revert H3. apply (keeps_before_podSpec no_secret no_secret_refl no_secret_trans).
    - apply no_secret_prepare.
    - apply no_secret_invalidateCache.
    - apply no_secret_snapshot. }
  destruct Hpre as (Hs3 & (t3 & Ht3 & Hf3) & Hd3).
  change (secrets (start w)) with (secrets w) in Hs3.
  change (trace (start w)) with (trace w) in Ht3.
  assert (Hd3' : forallb keeps_secrets (defers w3) = true) by (apply Hd3; reflexivity).
  apply forallb_filter_nil in Hf3.
  assert (Hrest : forall w4, no_secret w4 w9 ->
            forallb keeps_secrets (defers w4) = true ->
            secrets (run_defers env (defers w9) (start w9)) = secrets w4
            /\ exists t, trace (run_defers env (defers w9) (start w9)) = trace w4 ++ t
                         /\ List.filter touches_secret t = []).
  { intros w4 (Hs & (t & Ht & Hf) & Hd) Hd4.
    destruct (run_defers_no_secret env (defers w9) (start w9) (Hd Hd4))
      as (Hs9 & t9 & Ht9 & Hf9).
    split; [rewrite Hs9; exact Hs|].
    exists (t ++ t9). split.
    - rewrite Ht9. change (trace (start w9)) with (trace w9). rewrite Ht, <- app_assoc.
      reflexivity.
    - rewrite List.filter_app, (forallb_filter_nil _ _ Hf), (forallb_filter_nil _ _ Hf9).
      reflexivity. }
  destruct r3 as [[l stack]|err|msg].
  - destruct (podSpec env conf l stack w3) as [r4 w4] eqn:H4.
    destruct (defers_before_podSpec _ _ _ _ _ _ _ H3) as (Happ & _).
    destruct (podSpec_container_calls _ _ _ _ _ _ _ (Hstack _ _ _ eq_refl) H4)
      as (Hs4 & Hd4 & Ht4).
    assert (H49 : no_secret w4 w9).
    { apply (after_podSpec no_secret no_secret_refl no_secret_trans env conf raw
               (no_secret_publish env conf) (no_secret_copyLogs env)
               (no_secret_awaitEnd env conf) (no_secret_launch env conf)
               _ _ _ _ _ _ H3 H4). }
    rewrite <- Hd4 in Hd3'.
    destruct (Hrest w4 H49 Hd3') as (Hs9 & t9 & Ht9 & Hf9).
    split; [congruence|].
    destruct Ht4 as [Ht4 | [Hloc Ht4]].
    + exists (t3 ++ t9). split.
      * rewrite Ht9, Ht4, Ht3, <- app_assoc. reflexivity.
      * left. rewrite List.filter_app, Hf3, Hf9. reflexivity.
    + exists (t3 ++ [GetRegistryDetails (appName l) (RegistryLocation conf)
                       (PodNamespace conf)] ++ t9). split.
      * rewrite Ht9, Ht4, Ht3, <- !app_assoc. reflexivity.
      * right. split; [exact Hloc|].
        rewrite !List.filter_app, Hf3, Hf9, Happ. reflexivity.
  - assert (H39 : no_secret w3 w9).
    { subst w9. rewrite (body_stops _ _ _ _ _ _ H3); [apply no_secret_refl | discriminate]. }
    destruct (Hrest w3 H39 Hd3') as (Hs9 & t9 & Ht9 & Hf9).
    split; [congruence|]. exists (t3 ++ t9). split.
    + rewrite Ht9, Ht3, <- app_assoc. reflexivity.
    + left. rewrite List.filter_app, Hf3, Hf9. reflexivity.
  - assert (H39 : no_secret w3 w9).
    { subst w9. rewrite (body_stops _ _ _ _ _ _ H3); [apply no_secret_refl | discriminate]. }
    destruct (Hrest w3 H39 Hd3') as (Hs9 & t9 & Ht9 & Hf9).
    split; [congruence|]. exists (t3 ++ t9). split.
    + rewrite Ht9, Ht3, <- app_assoc. reflexivity.
    + left. rewrite List.filter_app, Hf3, Hf9. reflexivity.
Qed.

Lemma container_build_no_secret_witness :
  secrets (run_scenario container_scenario "off-cluster" ∅).2 = ∅
  /\ List.filter touches_secret (trace (run_scenario container_scenario "off-cluster" ∅).2)
     = [GetRegistryDetails "foo" "off-cluster" "drycc"].
Proof.
  reach_podSpec (scenario_env container_scenario) (foo_conf "off-cluster") foo_sha
    (world_with ∅).
  assert (Hstack : forall l stack w,
            before_podSpec (scenario_env container_scenario) (foo_conf "off-cluster")
              foo_sha (start (world_with ∅)) = (Next (l, stack), w) ->
            strings.Contains (index stack "name") "container" = true).
  { intros l stack w H. rewrite Hpre in H. injection H as _ <- _.
    vm_compute. reflexivity. }
  destruct (container_build_no_secret (scenario_env container_scenario)
              (foo_conf "off-cluster") "builder-key" foo_sha (world_with ∅) Hstack)
    as (Hs & t & Ht & Hf).
  split; [exact Hs|].
  change (trace (world_with ∅) ++ t) with t in Ht.
  unfold run_scenario. rewrite Ht.
  destruct Hf as [Hf | [_ Hf]]; [|exact Hf].
  rewrite <- Ht in Hf. vm_compute in Hf. discriminate Hf.
Defined.

(** ** [git gc] *)

Lemma no_gc_refl (w : World) : no_gc w w.
Proof. exists []. split; [symmetry; apply app_nil_r | reflexivity]. Qed.

Lemma no_gc_trans (w1 w2 w3 : World) : no_gc w1 w2 -> no_gc w2 w3 -> no_gc w1 w3.
Proof.
  intros (t1 & Ht1 & Hf1) (t2 & Ht2 & Hf2).
  exists (t1 ++ t2). split; [rewrite Ht2, Ht1, app_assoc; reflexivity|].
  rewrite forallb_app, Hf1, Hf2. reflexivity.
Qed.

Ltac solve_no_gc :=
  cbv [no_gc trace]; rewrite <- ?app_assoc;
  first [ exists []; split; [symmetry; apply app_nil_r | reflexivity]
        | eexists; split; reflexivity ].

Lemma no_gc_prepare env conf raw : keeps no_gc (prepare env conf raw).
Proof.
  intros w r w' H. destruct w as [o s p b d t df]. exec H. all: solve_no_gc.
Qed.

Lemma no_gc_invalidateCache env l : keeps no_gc (invalidateCache env l).
Proof.
  intros w r w' H. destruct w as [o s p b d t df]. exec H. all: solve_no_gc.
Qed.

Lemma no_gc_snapshot env l : keeps no_gc (snapshot env l).
Proof.
  intros w r w' H. destruct w as [o s p b d t df]. exec H. all: solve_no_gc.
Qed.

Lemma no_gc_podSpec env conf l stack : keeps no_gc (podSpec env conf l stack).
Proof.
  intros w r w' H. destruct w as [o s p b d t df]. exec H. all: solve_no_gc.
Qed.

Lemma no_gc_launch env conf stack pod n : keeps no_gc (launch env conf stack pod n).
Proof.
  intros w r w' H. destruct w as [o s p b d t df]. exec H. all: solve_no_gc.
Qed.

Lemma no_gc_copyLogs env : keeps no_gc (copyLogs env).
Proof.
  intros w r w' H. destruct w as [o s p b d t df]. exec H. all: solve_no_gc.
Qed.

Lemma no_gc_awaitEnd env conf namespace name :
  keeps no_gc (awaitEnd env conf namespace name).
Proof.
  intros w r w' H. destruct w as [o s p b d t df]. exec H. all: solve_no_gc.
Qed.

(** [publish] runs [git gc] when it returns [nil], and only then. *)
Lemma publish_gc env conf l stack image w r w' :
  publish env conf l stack image w = (r, w') ->
  exists t, trace w' = trace w ++ t
            /\ (r <> Return None -> forallb (fun e => negb (is_gc e)) t = true)
            /\ (r = Return None -> existsb is_gc t = true).
Proof.
  intros H. destruct w as [o s p b d t df].
  exec H.
  all: cbv [trace]; rewrite <- ?app_assoc; eexists; split; [reflexivity|].
  all: split; intros Hr;
    first [ discriminate Hr | reflexivity | exfalso; apply Hr; reflexivity ].
Qed.

Lemma run_defers_no_gc env ds w : no_gc w (run_defers env ds w).
Proof.
  revert w. induction ds as [|d ds IH]; intros w; simpl; [apply no_gc_refl|].
  eapply no_gc_trans; [|apply IH].
  destruct (run_deferred env d w) as [r w'] eqn:H.
  destruct w as [o s p b dd t df]. destruct d.
  all: exec H; cbv [snd]; solve_no_gc.
Qed.

Lemma forallb_negb_existsb {A} (f : A -> bool) (l : list A) :
  forallb (fun x => negb (f x)) l = true -> existsb f l = false.
Proof.
  induction l as [|x l IH]; simpl; [reflexivity|].
  intros H. apply andb_prop in H as [Hx Hl]. rewrite (IH Hl).
  destruct (f x); [discriminate | reflexivity].
Qed.

(** X13: [git gc] is run by the builds that return [nil], and by no
    other: it comes after the release has been accepted, and since the
    build returns [nil] whenever it has run, its own failure is not a
    failure of the build. *)
Theorem gc_only_on_success env conf key raw w :
  exists t, trace (build env conf key raw w).2 = trace w ++ t
            /\ (existsb is_gc t = true <-> (build env conf key raw w).1 = Returned None).
Proof.
  unfold build.
  destruct (build_body env conf raw (start w)) as [flow w9] eqn:Hbody.
  cbn [fst snd].
  destruct (run_defers_no_gc env (defers w9) (start w9)) as (td & Htd & Hfd).
  change (trace (start w9)) with (trace w9) in Htd.
  destruct (before_publish env conf raw (start w)) as [r8 w8] eqn:H8.
  assert (Hpre : no_gc (start w) w8).
  { revert H8. apply (keeps_before_publish no_gc no_gc_refl no_gc_trans).
    - apply no_gc_prepare.
    - apply no_gc_invalidateCache.
    - apply no_gc_snapshot.
    - apply no_gc_podSpec.
    - apply no_gc_launch.
    - apply no_gc_copyLogs.
    - apply no_gc_awaitEnd. }
  destruct Hpre as (t8 & Ht8 & Hf8). change (trace (start w)) with (trace w) in Ht8.
  destruct (silent_before_publish _ _ _ _ _ _ H8) as [_ Hne].
  unfold build_body in Hbody.
  destruct r8 as [[[l stack] image]|err|msg].
  - rewrite (bind_next _ _ _ _ _ H8) in Hbody. cbv beta iota in Hbody.
    destruct (publish_gc _ _ _ _ _ _ _ _ Hbody) as (tp & Htp & Hno & Hyes).
    exists (t8 ++ tp ++ td). split; [rewrite Htd, Htp, Ht8, <- !app_assoc; reflexivity|].
    rewrite !existsb_app, (forallb_negb_existsb _ _ Hf8), (forallb_negb_existsb _ _ Hfd).
    rewrite orb_false_r. cbn [orb].
    destruct flow as [[]|[e|]|msg].
    + rewrite (forallb_negb_existsb _ _ (Hno ltac:(discriminate))).
      split; discriminate.
    + rewrite (Hyes eq_refl). split; reflexivity.
    + rewrite (forallb_negb_existsb _ _ (Hno ltac:(discriminate))).
      split; discriminate.
  - rewrite (bind_return _ _ _ _ _ H8) in Hbody. injection Hbody as <- <-.
    exists (t8 ++ td). split; [rewrite Htd, Ht8, <- app_assoc; reflexivity|].
    rewrite existsb_app, (forallb_negb_existsb _ _ Hf8), (forallb_negb_existsb _ _ Hfd).
    cbn [outcome orb]. split; [discriminate|]. intros [= ->]. destruct (Hne eq_refl).
  - rewrite (bind_panic _ _ _ _ _ H8) in Hbody. injection Hbody as <- <-.
    exists (t8 ++ td). split; [rewrite Htd, Ht8, <- app_assoc; reflexivity|].
    rewrite existsb_app, (forallb_negb_existsb _ _ Hf8), (forallb_negb_existsb _ _ Hfd).
    cbn [outcome orb]. split; discriminate.
Qed.

Example gc_failure_ignored :
  cmdRun gc_failure_env (repoCmd "/home/git/foo.git" "git" ["gc"])
  = Some (ErrorString "exit status 128")
  /\ (build gc_failure_env (foo_conf "on-cluster") "builder-key" foo_sha
        (world_with ∅)).1 = Returned None.
Proof. split; vm_compute; reflexivity. Qed.

(** ** Stray commas and blank pairs in the node selector *)

Lemma split_from_cons sep skip (s : string) : strings.split_from sep skip s <> [].
Proof.
  revert skip. induction s as [|c s IH]; intros skip; cbn [strings.split_from];
    [intros Hx; discriminate Hx|].
  destruct skip; [|apply IH].
  destruct (strings.HasPrefix (String c s) sep); [intros Hx; discriminate Hx|].
  destruct (strings.split_from sep 0 s); intros Hx; discriminate Hx.
Qed.

(** After a separator byte at the end comes one more piece, the empty
    one. *)
Lemma split_from_snoc c (s : string) :
  strings.split_from (String c EmptyString) 0 (s +:+ String c EmptyString)
  = strings.split_from (String c EmptyString) 0 s ++ [EmptyString].
Proof.
  induction s as [|x s IH].
  - simpl. destruct (decide (c = c)) as [_|Hne]; [reflexivity | destruct (Hne eq_refl)].
  - change (String x s +:+ String c EmptyString)
      with (String x (s +:+ String c EmptyString)).
    cbn [strings.split_from strings.HasPrefix].
    destruct (decide (c = x)) as [->|Hne].
    + rewrite !HasPrefix_empty. cbn [String.length Nat.sub]. rewrite IH. reflexivity.
    + rewrite IH.
      destruct (strings.split_from (String c EmptyString) 0 s) as [|p ps] eqn:Hs;
        [destruct (split_from_cons _ _ _ Hs) | reflexivity].
Qed.

Lemma append_not_empty (s1 s2 : string) : s2 <> "" -> s1 +:+ s2 <> "".
Proof.
  intros Hne H. apply (f_equal String.length) in H. rewrite string_length_app in H.
  destruct s2; [destruct (Hne eq_refl) | simpl in H; lia].
Qed.

(** X14: a comma at the end or at the start of the node selector makes
    an empty piece, and the selector is rejected with the format error
    that quotes the whole configuration, whatever the other pieces
    are. *)
Theorem selector_stray_comma (config : string) :
  buildBuilderPodNodeSelector (config +:+ ",")
  = Err (Errorf ("Invalid BuilderPodNodeSelector value format: " +:+ config +:+ ","))
  /\ buildBuilderPodNodeSelector ("," +:+ config)
     = Err (Errorf ("Invalid BuilderPodNodeSelector value format: ," +:+ config)).
Proof.
  split.
  - unfold buildBuilderPodNodeSelector.
    destruct (decide (config +:+ "," ≠ "")) as [_|Hempty].
    + apply (selector_loop_bad _ _ "" ∅).
      * unfold strings.Split. rewrite (split_from_snoc "," config).
        apply elem_of_app. right. apply elem_of_cons. left. reflexivity.
      * simpl. lia.
    + exfalso. apply Hempty. apply append_not_empty. discriminate.
  - unfold buildBuilderPodNodeSelector.
    destruct (decide ("," +:+ config ≠ "")) as [_|Hempty];
      [|exfalso; apply Hempty; discriminate].
    apply (selector_loop_bad _ _ "" ∅).
    + unfold strings.Split. change ("," +:+ config) with ("" +:+ String "," config).
      rewrite (split_from_first "," "" config I).
      apply elem_of_cons. left. reflexivity.
    + simpl. lia.
Qed.

Lemma no_char_blanks c (n : nat) : c <> blank -> no_char c (blanks n).
Proof.
  intros Hne. unfold blanks. induction n as [|n IH]; simpl; [exact I|].
  split; [congruence | exact IH].
Qed.

Lemma TrimSpace_all_blanks (n : nat) : strings.TrimSpace (blanks n) = "".
Proof.
  unfold strings.TrimSpace, blanks.
  rewrite String.list_ascii_of_string_of_list_ascii.
  assert (Hleft : strings.TrimLeftSpace (replicate n blank) = []).
  { unfold strings.TrimLeftSpace. rewrite <- (app_nil_r (replicate n blank)) at 2.
    apply trim_left_blanks.
    - intros r. exact (proj1 (strip_blank r)).
    - reflexivity.
    - rewrite length_replicate. lia. }
  rewrite Hleft. reflexivity.
Qed.

(** X15: keys and values are trimmed but not checked for emptiness: a
    pair of blanks around the colon is accepted, and binds the empty key
    to the empty value. *)
Theorem selector_blank_pair (n m : nat) :
  buildBuilderPodNodeSelector (blanks n +:+ ":" +:+ blanks m) = Ok {[ "" := "" ]}.
Proof.
  unfold buildBuilderPodNodeSelector.
  destruct (decide (blanks n +:+ ":" +:+ blanks m ≠ "")) as [_|Hempty].
  - assert (Hsplit : strings.Split (blanks n +:+ ":" +:+ blanks m) ","
                     = [selector_pair (blanks n, blanks m)]).
    { unfold strings.Split, selector_pair. cbn [fst snd].
      apply split_from_whole. apply no_char_app; [apply no_char_blanks; discriminate|].
      simpl. split; [discriminate | apply no_char_blanks; discriminate]. }
    rewrite Hsplit.
    rewrite (selector_loop_pairs _ [(blanks n, blanks m)] ∅).
    + cbn [foldl fst snd]. rewrite !TrimSpace_all_blanks. reflexivity.
    + constructor; [|constructor]. split; apply no_char_blanks; discriminate.
  - exfalso. apply Hempty. apply append_not_empty. discriminate.
Qed.
